(** * Interactive EQ: gesture-to-parameter engine

    A shallow embedding of the [InteractiveEQ] module (draggable filter
    handles on a frequency-response graph) and the properties its
    specification states about it.

    Numbers.  A JavaScript number is modelled as a real number or one of
    the three special values [NaN], [+Infinity], [-Infinity]; finite
    arithmetic is exact (rounding error of binary64 is not modelled, nor
    is the sign of zero: a zero is [+0]).  The special values follow
    IEEE 754 as JavaScript does: [x/0], [Infinity*0], comparison with
    [NaN], and the way [Math.max]/[Math.min] let [NaN] through.
    Pointer positions, what the scales return for them, and the
    parameters of a rendered filter are real numbers, and the bandwidth
    math ([Math.asinh], [Math.sinh], [Math.log2], [Math.pow]) is done on
    them with the functions of the real analysis library; a form field
    holds any number, [NaN] being what [parseFloat] makes of text that
    is not a number. *)

From Stdlib Require Import Reals Lra Lia ZArith List String Bool.
From stdpp Require Import base option list strings gmap.

Local Open Scope R_scope.

(** ** JavaScript numbers *)

Module JS.

Inductive num : Type :=
| NaN
| Inf (positive : bool)
| Fin (r : R).

Definition sign_pos (r : R) : bool := if Rlt_dec r 0 then false else true.

Definition neg (a : num) : num :=
  match a with
  | NaN => NaN
  | Inf p => Inf (negb p)
  | Fin r => Fin (- r)
  end.

Definition add (a b : num) : num :=
  match a, b with
  | NaN, _ | _, NaN => NaN
  | Inf p, Inf q => if Bool.eqb p q then Inf p else NaN
  | Inf p, Fin _ | Fin _, Inf p => Inf p
  | Fin x, Fin y => Fin (x + y)
  end.

Definition sub (a b : num) : num := add a (neg b).

Definition mul (a b : num) : num :=
  match a, b with
  | NaN, _ | _, NaN => NaN
  | Inf p, Inf q => Inf (Bool.eqb p q)
  | Inf p, Fin y | Fin y, Inf p =>
      if Req_dec_T y 0 then NaN else Inf (Bool.eqb p (sign_pos y))
  | Fin x, Fin y => Fin (x * y)
  end.

Definition div (a b : num) : num :=
  match a, b with
  | NaN, _ | _, NaN => NaN
  | Inf _, Inf _ => NaN
  | Inf p, Fin y => Inf (Bool.eqb p (sign_pos y))
  | Fin _, Inf _ => Fin 0
  | Fin x, Fin y =>
      if Req_dec_T y 0
      then (if Req_dec_T x 0 then NaN else Inf (sign_pos x))
      else Fin (x / y)
  end.

(** [a < b], [a <= b], [a >= b]: false as soon as one side is [NaN]. *)
Definition lt (a b : num) : bool :=
  match a, b with
  | NaN, _ | _, NaN => false
  | Inf p, Inf q => negb p && q
  | Inf p, Fin _ => negb p
  | Fin _, Inf q => q
  | Fin x, Fin y => if Rlt_dec x y then true else false
  end.

Definition le (a b : num) : bool :=
  match a, b with
  | NaN, _ | _, NaN => false
  | Inf p, Inf q => negb p || q
  | Inf p, Fin _ => negb p
  | Fin _, Inf q => q
  | Fin x, Fin y => if Rle_dec x y then true else false
  end.

Definition ge (a b : num) : bool := le b a.

(** [a === b] on numbers. *)
Definition eq (a b : num) : bool :=
  match a, b with
  | Inf p, Inf q => Bool.eqb p q
  | Fin x, Fin y => if Req_dec_T x y then true else false
  | _, _ => false
  end.

(** [Math.max(a, b)] and [Math.min(a, b)]: [NaN] if either is. *)
Definition max (a b : num) : num :=
  match a, b with
  | NaN, _ | _, NaN => NaN
  | _, _ => if lt a b then b else a
  end.

Definition min (a b : num) : num :=
  match a, b with
  | NaN, _ | _, NaN => NaN
  | _, _ => if lt b a then b else a
  end.

(** [Math.round(x)]: the integer nearest to [x], halves going up. *)
Definition round_real (x : R) : R := IZR (Zfloor (x + / 2)).

Definition round (a : num) : num :=
  match a with
  | Fin x => Fin (round_real x)
  | _ => a
  end.

(** Truthiness of a number: [0] and [NaN] are falsy. *)
Definition truthy (a : num) : bool :=
  match a with
  | NaN => false
  | Inf _ => true
  | Fin x => if Req_dec_T x 0 then false else true
  end.

(** [a || d]. *)
Definition or_else (a d : num) : num := if truthy a then a else d.

(** [Math.max(lo, Math.min(hi, x))]. *)
Definition clamp (lo hi : R) (x : num) : num := max (Fin lo) (min (Fin hi) x).

(** [lo <= a <= hi] for a number that is real. *)
Definition in_range (lo hi : R) (a : num) : Prop :=
  match a with
  | Fin x => lo <= x <= hi
  | _ => False
  end.

End JS.

Abbreviation num := JS.num.
Abbreviation NaN := JS.NaN.
Abbreviation Inf := JS.Inf.
Abbreviation Fin := JS.Fin.

(** What a call does: it returns a value or throws (a [TypeError] when a
    property of [undefined] is read). *)
Inductive outcome (A : Type) : Type :=
| Threw
| Returned (a : A).
Arguments Threw {A}.
Arguments Returned {A} a.

#[global] Instance outcome_bind : MBind outcome := fun A B k m =>
  match m with
  | Threw => Threw
  | Returned a => k a
  end.

#[global] Instance outcome_ret : MRet outcome := fun A a => Returned a.

(** ** Data *)

(** One sample [[freq, level]] of a response curve. *)
Record point : Type := Point { p_freq : R; p_level : R }.

(** An entry of [phoneObj.activeCurves]: an object that may carry its
    samples in field [l], or a bare array of samples. *)
Inductive curve : Type :=
| CurveObj (l : option (list point))
| CurveArr (samples : list point).

(** What [curveData] can be bound to: an array of samples, or an object
    that is not an array. *)
Inductive curveData : Type :=
| DataArr (samples : list point)
| DataObj.

Record phone : Type := Phone {
  isPrefBounds : bool;
  brand_name : string;
  dispName : string;
  activeCurves : option (list (option curve));
  rawChannels : option (list (option (list point)))
}.

(** ** Filters, the form fields behind them, and the injected dependencies *)

(** An element of [callbacks.getFilters()]. *)
Record eqFilter : Type := MkFilter {
  f_disabled : bool;
  f_type : string;
  f_freq : option R;            (* [None]: the field is absent *)
  f_gain : R;
  f_q : R
}.

(** [{ ...f, filterIndex: i }], the datum bound to a handle. *)
Record datum : Type := Datum {
  d_disabled : bool;
  d_type : string;
  d_freq : R;
  d_gain : R;
  d_q : R;
  filterIndex : nat
}.

(** [callbacks.getFilterInputs()]: one array of form fields per
    parameter, all indexed by the filter's position. *)
Record filterInputs : Type := FilterInputs {
  in_enabled : list bool;       (* .checked *)
  in_type : list string;        (* .value *)
  in_freq : list num;           (* .value, as parseFloat reads it *)
  in_gain : list num;
  in_q : list num
}.

(** The injected dependencies ([scales], [geometry], and the read-only
    part of [callbacks]) as one call sees them.  [scales.x] and
    [scales.y.invert] are only ever given real arguments; [scales.y] is
    also given levels that need not be real. *)
Record deps : Type := Deps {
  x_apply : R -> R;                       (* scales.x(f) *)
  x_invert : R -> R;                      (* scales.x.invert(px) *)
  y_apply : num -> num;                   (* scales.y(level) *)
  y_invert : R -> R;                      (* scales.y.invert(py) *)
  y_domain : R * R;                       (* scales.y.domain() *)
  screen_to_svg : R -> R -> R * R;        (* matrixTransform(getScreenCTM().inverse()) *)
  pad_l : R; pad_t : R; geo_W : R; geo_H : R;
  getActivePhones : list phone;
  getOffset : phone -> R;
  baseline_fn : list point -> list point; (* callbacks.getBaseline().fn *)
  getBandsMax : Z;
  select_options : list string;           (* values of the <option>s of the phone select *)
  (* what callbacks.updateFilterElements() makes of the form fields for a band count *)
  updateFilterElements : Z -> filterInputs -> filterInputs
}.

(** ** Curve sampling *)

(** [l[i]] for a JavaScript index: [undefined] out of range. *)
Definition at_index {A} (l : list A) (i : Z) : option A :=
  if (i <? 0)%Z then None else l !! Z.to_nat i.

(** [l.findIndex(p)]: the first index whose element satisfies [p], or -1. *)
Fixpoint findIndex_from {A} (p : A -> bool) (l : list A) (i : Z) : Z :=
  match l with
  | [] => (-1)%Z
  | x :: l' => if p x then i else findIndex_from p l' (i + 1)%Z
  end.

Definition findIndex {A} (p : A -> bool) (l : list A) : Z := findIndex_from p l 0%Z.

(** Reading [p[0]] or [p[1]] of [p = data[i]] throws when [p] is
    [undefined]. *)
Definition read_point (p : option point) : outcome point :=
  match p with
  | None => Threw
  | Some pt => Returned pt
  end.

(** [getEQPhoneObj]: [sel && activePhones.find(...)]; [None] stands for
    the falsy results (the empty selection, or no phone found). *)
Definition getEQPhoneObj (D : deps) (sel : string) : option phone :=
  if String.eqb sel "" then None
  else List.find
         (fun p => negb (isPrefBounds p)
                   && String.eqb (brand_name p ++ " " ++ dispName p) sel)
         (getActivePhones D).

(** The curve data [samplePhoneCurveAt] settles on, [None] while
    [curveData] is still [null]. *)
Definition pick_curveData (phoneObj : phone) : option curveData :=
  let from_active :=
    match activeCurves phoneObj with
    | Some (Some c :: _) =>
        match c with
        | CurveObj (Some l) => Some (DataArr l)   (* curve.l *)
        | CurveObj None => Some DataObj           (* curve *)
        | CurveArr l => Some (DataArr l)          (* curve *)
        end
    | _ => None
    end in
  match from_active with
  | Some d => Some d
  | None =>
      match rawChannels phoneObj with
      | Some (Some ch :: _) => Some (DataArr ch)
      | _ => None
      end
  end.

(** [samplePhoneCurveAt(phoneObj, freq)]; [Returned None] is [null]. *)
Definition samplePhoneCurveAt (D : deps) (phoneObj : option phone) (freq : num)
  : outcome (option num) :=
  match phoneObj with
  | None => Returned None
  | Some ph =>
      let offset := getOffset D ph in
      match pick_curveData ph with
      | None | Some DataObj => Returned None
      | Some (DataArr curveData) =>
          let data := baseline_fn D curveData in
          let idx := findIndex (fun d => JS.ge (Fin (p_freq d)) freq) data in
          let idx := if (idx <? 0)%Z then (Z.of_nat (length data) - 1)%Z else idx in
          if (idx =? 0)%Z then
            d0 ← read_point (at_index data 0);
            Returned (Some (JS.add (Fin (p_level d0)) (Fin offset)))
          else
            let p1 := at_index data (idx - 1) in
            let p2 := at_index data idx in
            p1 ← read_point p1;
            p2 ← read_point p2;
            let t := JS.div (JS.sub freq (Fin (p_freq p1)))
                            (JS.sub (Fin (p_freq p2)) (Fin (p_freq p1))) in
            Returned (Some (JS.add
                              (JS.add (Fin (p_level p1))
                                      (JS.mul t (JS.sub (Fin (p_level p2)) (Fin (p_level p1)))))
                              (Fin offset)))
      end
  end.

(** ** The module's state *)

(** What the module does to the host application, in order: the calls
    into [callbacks], the redraw of the preview path, and the
    assignments to the form fields of [getFilterInputs()]. *)
Inductive call : Type :=
| WriteEnabled (idx : nat) (v : bool)
| WriteType (idx : nat) (v : string)
| WriteFreq (idx : nat) (v : num)
| WriteGain (idx : nat) (v : num)
| WriteQ (idx : nat) (v : num)
| ApplyEQ
| SetBands (n : Z)
| CallUpdateFilterElements
| SetFilters (fs : list eqFilter)
| UpdatePreampDisplay
| ClearLabels
| UpdatePaths
| UpdateEQPreview.

(** A listener as [addEventListener] identifies it: the event type, the
    function, and the capture flag. *)
Inductive listenerFn : Type :=
| preventScrollOnHandles
| handleTouchEnd
| onKeydown (closure : nat)
| onKeyup (closure : nat)
| onFocus (closure : nat)
| onMove (session : nat)
| onUp (session : nat).

#[global] Instance listenerFn_eq_dec : EqDecision listenerFn.
Proof. solve_decision. Defined.

Definition listener : Type := string * listenerFn * bool.

(** A rendered handle ([g.eq-handle]) and what is drawn from its datum. *)
Record handle : Type := Handle {
  h_datum : datum;
  h_transform : option (R * num);   (* translate(px, py); [None] before it is set *)
  h_disabled : bool;                (* class "disabled" *)
  h_radius : R;                     (* circle.outer r *)
  h_whisker : R * R;                (* x1/x2 of line.whisker, cx of the end balls *)
  h_label : string;
  h_secondary_opacity : R;          (* whisker, whisker ends and delete button *)
  h_selected : bool                 (* class "whisker-selected" *)
}.

(** The closure of a scheduled animation frame. *)
Record frameJob : Type := FrameJob { job_cx : R; job_cy : R; job_filterIndex : nat }.

(** The module's variables, the part of the page it manages, and the
    host application as the callbacks show it.  A handler is a function
    on this state; what the host does in reaction to a call (recompute
    its filter list after [applyEQ()], say) happens outside the module
    and is not part of it: [filters] is the list [getFilters()] returns
    when a handler asks for it.  Timers ([setTimeout]) and scroll
    restoring are left out, except the animation frame of a drag. *)
Record state : Type := State {
  (* module state *)
  initialized : bool;
  enabled : bool;
  isDragging : bool;
  wasDragged : bool;
  pendingFrame : option frameJob;
  blockFocus : bool;
  scrollLocked : bool;              (* scrollLockStyle !== null *)
  justDeletedFilter : bool;
  qTooltip : option (R * num * R);  (* shown at (x, y) with this Q *)
  (* the page *)
  handles : list handle;
  handlesRaised : bool;             (* the handle group is above the interact rect *)
  svgListeners : list listener;
  docListeners : list listener;
  rectOn : gmap string nat;         (* interactRect.on(typename, closure) *)
  closures : nat;                   (* closures created so far *)
  (* the host application *)
  selectValue : string;             (* eqPhoneSelect.value *)
  filters : list eqFilter;            (* callbacks.getFilters() *)
  bands : Z;
  inputs : filterInputs;
  calls : list call                 (* most recent last *)
}.

Section Setters.
Variable s : state.

Definition set_initialized v := let 'State _ b c d e f g h i j k l m n o p q r t u := s in State v b c d e f g h i j k l m n o p q r t u.
Definition set_enabled v := let 'State a _ c d e f g h i j k l m n o p q r t u := s in State a v c d e f g h i j k l m n o p q r t u.
Definition set_isDragging v := let 'State a b _ d e f g h i j k l m n o p q r t u := s in State a b v d e f g h i j k l m n o p q r t u.
Definition set_wasDragged v := let 'State a b c _ e f g h i j k l m n o p q r t u := s in State a b c v e f g h i j k l m n o p q r t u.
Definition set_pendingFrame v := let 'State a b c d _ f g h i j k l m n o p q r t u := s in State a b c d v f g h i j k l m n o p q r t u.
Definition set_blockFocus v := let 'State a b c d e _ g h i j k l m n o p q r t u := s in State a b c d e v g h i j k l m n o p q r t u.
Definition set_scrollLocked v := let 'State a b c d e f _ h i j k l m n o p q r t u := s in State a b c d e f v h i j k l m n o p q r t u.
Definition set_justDeletedFilter v := let 'State a b c d e f g _ i j k l m n o p q r t u := s in State a b c d e f g v i j k l m n o p q r t u.
Definition set_qTooltip v := let 'State a b c d e f g h _ j k l m n o p q r t u := s in State a b c d e f g h v j k l m n o p q r t u.
Definition set_handles v := let 'State a b c d e f g h i _ k l m n o p q r t u := s in State a b c d e f g h i v k l m n o p q r t u.
Definition set_handlesRaised v := let 'State a b c d e f g h i j _ l m n o p q r t u := s in State a b c d e f g h i j v l m n o p q r t u.
Definition set_svgListeners v := let 'State a b c d e f g h i j k _ m n o p q r t u := s in State a b c d e f g h i j k v m n o p q r t u.
Definition set_docListeners v := let 'State a b c d e f g h i j k l _ n o p q r t u := s in State a b c d e f g h i j k l v n o p q r t u.
Definition set_rectOn v := let 'State a b c d e f g h i j k l m _ o p q r t u := s in State a b c d e f g h i j k l m v o p q r t u.
Definition set_closures v := let 'State a b c d e f g h i j k l m n _ p q r t u := s in State a b c d e f g h i j k l m n v p q r t u.
Definition set_selectValue v := let 'State a b c d e f g h i j k l m n o _ q r t u := s in State a b c d e f g h i j k l m n o v q r t u.
Definition set_filters v := let 'State a b c d e f g h i j k l m n o p _ r t u := s in State a b c d e f g h i j k l m n o p v r t u.
Definition set_bands v := let 'State a b c d e f g h i j k l m n o p q _ t u := s in State a b c d e f g h i j k l m n o p q v t u.
Definition set_inputs v := let 'State a b c d e f g h i j k l m n o p q r _ u := s in State a b c d e f g h i j k l m n o p q r v u.
Definition set_calls v := let 'State a b c d e f g h i j k l m n o p q r t _ := s in State a b c d e f g h i j k l m n o p q r t v.

(** The host is called. *)
Definition do_call (c : call) : state := set_calls (calls s ++ [c]).

End Setters.

Section FieldSetters.
Variable fi : filterInputs.
Definition set_in_enabled v := FilterInputs v (in_type fi) (in_freq fi) (in_gain fi) (in_q fi).
Definition set_in_type v := FilterInputs (in_enabled fi) v (in_freq fi) (in_gain fi) (in_q fi).
Definition set_in_freq v := FilterInputs (in_enabled fi) (in_type fi) v (in_gain fi) (in_q fi).
Definition set_in_gain v := FilterInputs (in_enabled fi) (in_type fi) (in_freq fi) v (in_q fi).
Definition set_in_q v := FilterInputs (in_enabled fi) (in_type fi) (in_freq fi) (in_gain fi) v.
End FieldSetters.

(** [filterInputs.<field>[i].checked = v] and [filterInputs.<field>[i].value = v]
    for a field that exists. *)
Definition write_enabled (i : nat) (v : bool) (s : state) : state :=
  do_call (set_inputs s (set_in_enabled (inputs s) (<[i := v]> (in_enabled (inputs s)))))
          (WriteEnabled i v).
Definition write_type (i : nat) (v : string) (s : state) : state :=
  do_call (set_inputs s (set_in_type (inputs s) (<[i := v]> (in_type (inputs s)))))
          (WriteType i v).
Definition write_freq (i : nat) (v : num) (s : state) : state :=
  do_call (set_inputs s (set_in_freq (inputs s) (<[i := v]> (in_freq (inputs s)))))
          (WriteFreq i v).
Definition write_gain (i : nat) (v : num) (s : state) : state :=
  do_call (set_inputs s (set_in_gain (inputs s) (<[i := v]> (in_gain (inputs s)))))
          (WriteGain i v).
Definition write_q (i : nat) (v : num) (s : state) : state :=
  do_call (set_inputs s (set_in_q (inputs s) (<[i := v]> (in_q (inputs s)))))
          (WriteQ i v).

(** ** Bandwidth math *)

Definition log2 (x : R) : R := ln x / ln 2.
Definition log10 (x : R) : R := ln x / ln 10.

(** [Math.max(lo, Math.min(hi, x))] on real arguments. *)
Definition clampR (lo hi x : R) : R := Rmax lo (Rmin hi x).

(** [x || d] on a real [x]. *)
Definition or_elseR (x d : R) : R := if Req_dec_T x 0 then d else x.

(** The edges of the band around [freq] for a given [q]:
    [bw = 2 * Math.asinh(1 / (2 * q)) / Math.LN2],
    [fLow = freq / Math.pow(2, bw / 2)], [fHigh = freq * Math.pow(2, bw / 2)]. *)
Definition bwFromQ (q : R) : R := 2 * arcsinh (1 / (2 * q)) / ln 2.

Definition edgesFromQ (freq q : R) : R * R :=
  let bwOctaves := bwFromQ q in
  (freq / Rpower 2 (bwOctaves / 2), freq * Rpower 2 (bwOctaves / 2)).

Inductive side : Type := left | right.

(** The two edges once one of them is moved to [newFreqEdge]. *)
Definition edgesFromEdge (sd : side) (freq newFreqEdge : R) : R * R :=
  match sd with
  | left => (newFreqEdge, freq * freq / newFreqEdge)
  | right => (freq * freq / newFreqEdge, newFreqEdge)
  end.

(** Rounding and clamping of a Q before it is stored:
    [Math.max(0.1, Math.min(10, Math.round(q * precision) / precision))]. *)
Definition storeQ (precision : R) (q : num) : num :=
  JS.clamp (1/10) 10 (JS.div (JS.round (JS.mul q (Fin precision))) (Fin precision)).

(** [qToRadius(q)] *)
Definition qToRadius (q : R) : R :=
  let minR := 12 in
  let maxR := 28 in
  let logQ := log10 (clampR (1/10) 10 (or_elseR q 1)) in
  let ratio := (logQ + 1) / 2 in
  maxR - ratio * (maxR - minR).

Definition getTypeLabel (t : string) : string :=
  if String.eqb t "LSQ" then "L" else if String.eqb t "HSQ" then "H" else "P".

(** ** Handle management *)

Section HandleSetters.
Variable h : handle.
Definition h_set_datum v := let 'Handle _ b c d e f g i := h in Handle v b c d e f g i.
Definition h_set_transform v := let 'Handle a _ c d e f g i := h in Handle a v c d e f g i.
Definition h_set_disabled v := let 'Handle a b _ d e f g i := h in Handle a b v d e f g i.
Definition h_set_radius v := let 'Handle a b c _ e f g i := h in Handle a b c v e f g i.
Definition h_set_whisker v := let 'Handle a b c d _ f g i := h in Handle a b c d v f g i.
Definition h_set_label v := let 'Handle a b c d e _ g i := h in Handle a b c d e v g i.
End HandleSetters.

Definition h_key (h : handle) : nat := filterIndex (h_datum h).

(** [callbacks.getFilters().map((f, i) => ({ ...f, filterIndex: i }))
      .filter(f => f.freq && f.freq > 0)].  A datum that passes the
    filter has a frequency, which it keeps as a real number. *)
Record pre_datum : Type := PreDatum { pd_filter : eqFilter; pd_index : nat }.

Definition keeps_handle (f : eqFilter) : bool :=
  match f_freq f with
  | Some x => JS.truthy (Fin x) && JS.lt (Fin 0) (Fin x)
  | None => false
  end.

Definition handle_datum (p : pre_datum) : option datum :=
  let f := pd_filter p in
  match f_freq f with
  | Some x =>
      if keeps_handle f
      then Some (Datum (f_disabled f) (f_type f) x (f_gain f) (f_q f) (pd_index p))
      else None
  | None => None
  end.

Definition handle_data (fs : list eqFilter) : list datum :=
  omap handle_datum (imap (fun i f => PreDatum f i) fs).

(** A handle as [enter] creates it: secondary controls hidden, nothing
    positioned yet. *)
Definition new_handle (d : datum) : handle :=
  Handle d None false 0 (0, 0) "" 0 false.

(** The data join keyed by [filterIndex]: a datum takes over the handle
    that has its key (the first one, should several have it) or gets a
    new one; handles whose key no datum has are removed. *)
Definition join (old : list handle) (data : list datum) : list handle :=
  map (fun d =>
         match List.find (fun h => Nat.eqb (h_key h) (filterIndex d)) old with
         | Some h => h_set_datum h d
         | None => new_handle d
         end) data.

(** [translate(px, py)] of a handle. *)
Definition handle_position (D : deps) (phoneObj : option phone) (d : datum)
  : outcome (R * num) :=
  let px := x_apply D (clampR 20 20000 (d_freq d)) in
  curveY ← samplePhoneCurveAt D phoneObj (Fin (d_freq d));
  let gain := JS.or_else (Fin (d_gain d)) (Fin 0) in
  let py :=
    match curveY with
    | Some c => y_apply D (JS.add c gain)
    | None =>
        let '(y0, y1) := y_domain D in
        y_apply D (JS.add (JS.div (JS.add (Fin y0) (Fin y1)) (Fin 2)) gain)
    end in
  Returned (px, py).

(** [all.attr("transform", ...)]: the handles are positioned in order;
    the pass stops at the first one whose sampling throws. *)
Fixpoint place_handles (D : deps) (phoneObj : option phone) (hs : list handle)
  : list handle * bool :=
  match hs with
  | [] => ([], true)
  | h :: rest =>
      match handle_position D phoneObj (h_datum h) with
      | Threw => (h :: rest, false)
      | Returned p =>
          let '(rest', ok) := place_handles D phoneObj rest in
          (h_set_transform h (Some p) :: rest', ok)
      end
  end.

(** The whisker span in pixels relative to the handle's centre. *)
Definition whisker_span (D : deps) (freq q : R) : R * R :=
  let '(fLow, fHigh) := edgesFromQ freq q in
  let pxCenter := x_apply D freq in
  (x_apply D (Rmax 20 fLow) - pxCenter, x_apply D (Rmin 20000 fHigh) - pxCenter).

(** [all.each(...)]: radius, label and whiskers from the datum. *)
Definition dress_handle (D : deps) (h : handle) : handle :=
  let d := h_datum h in
  let h := h_set_radius h (qToRadius (d_q d)) in
  let h := h_set_label h (getTypeLabel (d_type d)) in
  let q := or_elseR (d_q d) 1 in
  let freq := or_elseR (d_freq d) 1000 in
  h_set_whisker h (whisker_span D freq q).

(** [updateEQHandles()].  Before [init] the handle group is [null] and
    the call throws at once. *)
Definition updateEQHandles (D : deps) (s : state) : state :=
  if negb (initialized s) then s
  else if negb (enabled s) then set_handles s []
  else
    let phoneObj := getEQPhoneObj D (selectValue s) in
    let data := handle_data (filters s) in
    let hs := join (handles s) data in
    let '(hs, ok) := place_handles D phoneObj hs in
    if ok
    then set_handles s
           (map (dress_handle D) (map (fun h => h_set_disabled h (d_disabled (h_datum h))) hs))
    else set_handles s hs.

(** ** Listener registries *)

(** [target.addEventListener(type, fn, {capture})]: a listener already
    registered with the same type, function and capture flag is not
    added again. *)
Definition addEventListener (k : listener) (l : list listener) : list listener :=
  if decide (k ∈ l) then l else l ++ [k].

(** [target.removeEventListener(type, fn, {capture})].  A list never
    holds a listener twice, so this drops its one entry. *)
Definition removeEventListener (k : listener) (l : list listener) : list listener :=
  filter (fun x => x <> k) l.

(** ** Handle drag *)

(** The variables [startDrag] closes over. *)
Record session : Type := Session {
  sess_id : nat;
  sess_filterIndex : nat;
  startX : R;
  startY : R;
  moved : bool
}.

Definition set_moved (ss : session) (v : bool) : session :=
  Session (sess_id ss) (sess_filterIndex ss) (startX ss) (startY ss) v.

(** [Math.hypot(dx, dy)] *)
Definition hypot (dx dy : R) : R := sqrt (dx * dx + dy * dy).

Definition drag_listeners (id : nat) : list listener :=
  [("mousemove", onMove id, false); ("mouseup", onUp id, false);
   ("touchmove", onMove id, false); ("touchend", onUp id, false)].

(** [startDrag(d, element, clientX, clientY)]; no session when the module
    is not enabled. *)
Definition startDrag (d : datum) (clientX clientY : R) (s : state)
  : state * option session :=
  if negb (enabled s) then (s, None)
  else
    let id := closures s in
    let s := set_closures s (S id) in
    let s := set_isDragging s true in
    let s := set_wasDragged s false in
    let s := set_blockFocus s true in
    let s := set_docListeners s
               (foldl (fun l k => addEventListener k l) (docListeners s) (drag_listeners id)) in
    (s, Some (Session id (filterIndex d) clientX clientY false)).

(** [onMove(e)], with [(cx, cy)] the client position the event carries. *)
Definition session_onMove (ss : session) (cx cy : R) (s : state) : session * state :=
  let dist := hypot (cx - startX ss) (cy - startY ss) in
  if negb (moved ss) && (if Rlt_dec dist 5 then true else false) then (ss, s)
  else
    let ss := set_moved ss true in
    let s := set_wasDragged s true in
    match pendingFrame s with
    | Some _ => (ss, s)
    | None => (ss, set_pendingFrame s (Some (FrameJob cx cy (sess_filterIndex ss))))
    end.

(** The gain a pointer target stands for, relative to the sampled curve
    level or, without one, to the middle of the visible gain axis;
    rounded to one decimal and clamped. *)
Definition gain_at (D : deps) (targetY : R) (curveY : option num) : num :=
  let newGain :=
    match curveY with
    | Some c => JS.sub (Fin targetY) c
    | None =>
        let '(yd0, yd1) := y_domain D in
        let center := JS.div (JS.add (Fin yd0) (Fin yd1)) (Fin 2) in
        JS.sub (Fin targetY) center
    end in
  let newGain := JS.div (JS.round (JS.mul newGain (Fin 10))) (Fin 10) in
  JS.max (Fin (-40)) (JS.min (Fin 40) newGain).

(** Changing the handle of a given key, if it is rendered. *)
Definition update_handle (key : nat) (f : handle -> handle) (hs : list handle) : list handle :=
  map (fun h => if Nat.eqb (h_key h) key then f h else h) hs.

(** The animation-frame callback [onMove] schedules. *)
Definition runFrame (D : deps) (s : state) : state :=
  match pendingFrame s with
  | None => s
  | Some job =>
      let s := set_pendingFrame s None in
      let '(svgPt_x, svgPt_y) := screen_to_svg D (job_cx job) (job_cy job) in
      let newFreq := JS.round_real (x_invert D svgPt_x) in
      let newFreq := clampR 20 20000 newFreq in
      let targetY := y_invert D svgPt_y in
      let phoneObj := getEQPhoneObj D (selectValue s) in
      match samplePhoneCurveAt D phoneObj (Fin newFreq) with
      | Threw => s
      | Returned curveY =>
          let newGain := gain_at D targetY curveY in
          let filterIndex := job_filterIndex job in
          let s := if in_freq (inputs s) !! filterIndex is Some _
                   then write_freq filterIndex (Fin newFreq) s else s in
          let s := if in_gain (inputs s) !! filterIndex is Some _
                   then write_gain filterIndex newGain s else s in
          let px := x_apply D newFreq in
          let py := y_apply D (Fin targetY) in
          let s := set_handles s
                     (update_handle filterIndex
                        (fun h => h_set_transform h (Some (px, py))) (handles s)) in
          do_call s UpdateEQPreview
      end
  end.

(** [onUp(e)] *)
Definition session_onUp (ss : session) (s : state) : state :=
  let s := set_docListeners s
             (foldl (fun l k => removeEventListener k l) (docListeners s)
                    (drag_listeners (sess_id ss))) in
  if moved ss then do_call s ApplyEQ else s.

(** The timer [onUp] leaves behind, 120 ms later. *)
Definition dragCooldown (s : state) : state :=
  set_blockFocus (set_isDragging s false) false.

(** What happens between pointer-down and pointer-up. *)
Inductive dragEvent : Type :=
| EvMove (cx cy : R)
| EvFrame.

Definition drag_step (D : deps) (ev : dragEvent) (p : session * state) : session * state :=
  match ev with
  | EvMove cx cy => session_onMove (fst p) cx cy (snd p)
  | EvFrame => (fst p, runFrame D (snd p))
  end.

Definition drag_run (D : deps) (evs : list dragEvent) (p : session * state)
  : session * state :=
  foldl (fun p ev => drag_step D ev p) p evs.

(** A whole gesture on the handle of [d]: down at [(x0, y0)], the events
    in between, up. *)
Definition gesture (D : deps) (d : datum) (x0 y0 : R) (evs : list dragEvent) (s : state)
  : state :=
  match startDrag d x0 y0 s with
  | (s, None) => s
  | (s, Some ss) =>
      let '(ss, s) := drag_run D evs (ss, s) in
      session_onUp ss s
  end.

(** ** Type cycling and the wheel *)

Definition types : list string := ["PK"; "LSQ"; "HSQ"].

(** [arr.indexOf(v)] *)
Definition indexOf (v : string) (arr : list string) : Z := findIndex (String.eqb v) arr.

(** [cycleFilterType(d)].  Reading [.value] of a field that does not
    exist throws, and nothing is written. *)
Definition cycleFilterType (d : datum) (s : state) : state :=
  if negb (enabled s) then s
  else
    let idx := filterIndex d in
    match in_type (inputs s) !! idx with
    | None => s
    | Some value =>
        let cur := indexOf value types in
        let next := default "" (at_index types (Z.rem (cur + 1) 3)) in
        do_call (write_type idx next s) ApplyEQ
    end.

(** The wheel handler of a handle; [value] of the Q field is what
    [parseFloat] makes of it. *)
Definition onWheel (d : datum) (shiftKey : bool) (deltaY : R) (s : state) : state :=
  if negb (enabled s) then s
  else
    let idx := filterIndex d in
    match in_q (inputs s) !! idx with
    | None => s
    | Some value =>
        let q := JS.or_else value (Fin 1) in
        let step := if shiftKey then 1/100 else 1/10 in
        let precision := if shiftKey then 100 else 10 in
        let q := JS.add q (if Rlt_dec deltaY 0 then Fin step else Fin (- step)) in
        let q := storeQ precision q in
        do_call (write_q idx q s) ApplyEQ
    end.

(** ** Whisker drag *)

(** [storeQ] on a real argument, as the real number it yields. *)
Definition storeQR (precision q : R) : R :=
  clampR (1/10) 10 (JS.round_real (q * precision) / precision).

(** The Q a whisker drag derives from the moved edge, [None] when the
    frame returns early.  [newFreqEdge] is not zero: the caller clamps it
    to [20, 20000]. *)
Definition qFromEdge (sd : side) (freq newFreqEdge : R) : option R :=
  let '(fLow, fHigh) := edgesFromEdge sd freq newFreqEdge in
  if Rle_dec fHigh fLow then None
  else if Rle_dec fLow 0 then None
  else
    let bwOctaves := log2 (fHigh / fLow) in
    if Rle_dec bwOctaves 0 then None
    else
      let newQ := 1 / (2 * sinh (bwOctaves * ln 2 / 2)) in
      Some (storeQR 100 newQ).

Definition d_set_q (d : datum) (q : R) : datum :=
  Datum (d_disabled d) (d_type d) (d_freq d) (d_gain d) q (filterIndex d).

(** One ["drag"] event of [whiskerDrag(side)] on the whisker end of the
    handle with key [key]; [event_x] is [d3.event.x]. *)
Definition whiskerDrag_drag (D : deps) (sd : side) (key : nat) (event_x : R) (s : state)
  : state :=
  match List.find (fun h => Nat.eqb (h_key h) key) (handles s) with
  | None => s
  | Some handle =>
      let d := h_datum handle in
      let freq := or_elseR (d_freq d) 1000 in
      let pxCenter := x_apply D freq in
      let mouseX := event_x + pxCenter in
      let newFreqEdge := x_invert D mouseX in
      let newFreqEdge := clampR 20 20000 newFreqEdge in
      match qFromEdge sd freq newFreqEdge with
      | None => s
      | Some newQ =>
          let idx := filterIndex d in
          match in_q (inputs s) !! idx with
          | None => s
          | Some _ =>
              let s := write_q idx (Fin newQ) s in
              let redraw h :=
                h_set_radius
                  (h_set_whisker (h_set_datum h (d_set_q (h_datum h) newQ))
                                 (whisker_span D freq newQ))
                  (qToRadius newQ) in
              let s := set_handles s (update_handle key redraw (handles s)) in
              let s := do_call s UpdateEQPreview in
              match h_transform handle with
              | Some (x, y) => set_qTooltip s (Some (x, y, newQ))
              | None => s
              end
          end
      end
  end.

(** The ["end"] event of a whisker drag. *)
Definition whiskerDrag_end (s : state) : state :=
  do_call (set_qTooltip s None) ApplyEQ.

(** ** Deleting and creating filters *)

(** Modelled from the spec: [callbacks.getBands()] and
    [callbacks.setBands(n)], the band-count bookkeeping of the host
    application, whose code is not part of the module: after
    [setBands(n)], [getBands()] returns [n]. *)
Definition setBands (n : Z) (s : state) : state := do_call (set_bands s n) (SetBands n).

(** Modelled from the spec: [callbacks.setFilters(filters)] hands the
    host application the filter list that [callbacks.getFilters()] then
    returns. *)
Definition setFilters (fs : list eqFilter) (s : state) : state :=
  do_call (set_filters s fs) (SetFilters fs).

(** [callbacks.updateFilterElements()]: the host application rebuilds its
    form fields for the current band count; what it makes of them is
    the environment's. *)
Definition callUpdateFilterElements (D : deps) (s : state) : state :=
  do_call (set_inputs s (updateFilterElements D (bands s) (inputs s)))
          CallUpdateFilterElements.

(** [deleteFilter(d)] *)
Definition deleteFilter (D : deps) (d : datum) (s : state) : state :=
  let s := set_justDeletedFilter s true in
  let idx := filterIndex d in
  let fs := delete idx (filters s) in
  let s := setBands (Z.max (bands s - 1) 1) s in
  let s := callUpdateFilterElements D s in
  let s := setFilters fs s in
  let s := do_call s ApplyEQ in
  do_call s UpdatePreampDisplay.

(** [!f.freq || f.freq === 0] *)
Definition unassigned (f : eqFilter) : bool :=
  match f_freq f with
  | None => true
  | Some x => negb (JS.truthy (Fin x)) || JS.eq (Fin x) (Fin 0)
  end.

(** The five assignments that fill slot [idx], stopped by the first one
    whose field does not exist ([arr[idx]] is [undefined] and the
    assignment throws); the flag tells whether all were made. *)
Definition fill_slot (idx : Z) (freq gain : num) (s : state) : state * bool :=
  let i := Z.to_nat idx in
  if at_index (in_enabled (inputs s)) idx is Some _ then
    let s := write_enabled i true s in
    if at_index (in_type (inputs s)) idx is Some _ then
      let s := write_type i "PK" s in
      if at_index (in_freq (inputs s)) idx is Some _ then
        let s := write_freq i freq s in
        if at_index (in_gain (inputs s)) idx is Some _ then
          let s := write_gain i gain s in
          if at_index (in_q (inputs s)) idx is Some _ then (write_q i (Fin 1) s, true)
          else (s, false)
        else (s, false)
      else (s, false)
    else (s, false)
  else (s, false).

(** The slot a new filter goes to, with the state after the band count
    was raised if it had to be; [None] when no band is left. *)
Definition claim_slot (D : deps) (s : state) : option (Z * state) :=
  let idx := findIndex unassigned (filters s) in
  if (idx =? -1)%Z then
    let n := bands s in
    let bandsMax := getBandsMax D in
    if (n <? bandsMax)%Z then
      let s := setBands (n + 1)%Z s in
      let s := callUpdateFilterElements D s in
      Some (n, s)
    else None
  else Some (idx, s).

(** The first half of [handleGraphClick(clientX, clientY)], down to the
    clamped gain: the state (a phone may have been selected) and, unless
    the call returned early or the sampler threw, the frequency and gain
    of the filter to create. *)
Definition click_params (D : deps) (clientX clientY : R) (s : state)
  : state * option (R * num) :=
  if negb (enabled s) || isDragging s || justDeletedFilter s then (s, None)
  else
    let '(svgPt_x, svgPt_y) := screen_to_svg D clientX clientY in
    if Rlt_dec svgPt_x (pad_l D) then (s, None)
    else if Rlt_dec (pad_l D + geo_W D) svgPt_x then (s, None)
    else if Rlt_dec svgPt_y (pad_t D) then (s, None)
    else if Rlt_dec (pad_t D + geo_H D) svgPt_y then (s, None)
    else
      let freq := clampR 20 20000 (JS.round_real (x_invert D svgPt_x)) in
      let targetY := y_invert D svgPt_y in
      let s :=
        if String.eqb (selectValue s) "" then
          match select_options D !! 1%nat with
          | Some firstPhone => set_selectValue s firstPhone
          | None => s
          end
        else s in
      let phoneObj := getEQPhoneObj D (selectValue s) in
      match samplePhoneCurveAt D phoneObj (Fin freq) with
      | Threw => (s, None)
      | Returned curveY => (s, Some (freq, gain_at D targetY curveY))
      end.

(** [handleGraphClick(clientX, clientY)] *)
Definition handleGraphClick (D : deps) (clientX clientY : R) (s : state) : state :=
  match click_params D clientX clientY s with
  | (s, None) => s
  | (s, Some (freq, gain)) =>
      match claim_slot D s with
      | None => s
      | Some (idx, s) =>
          let '(s, ok) := fill_slot idx (Fin freq) gain s in
          if ok then updateEQHandles D (do_call s ApplyEQ) else s
      end
  end.

(** ** Lifecycle *)

(** [init(options)]; the options are the [deps] the other calls take. *)
Definition init (s : state) : state :=
  if initialized s then s
  else
    let s := set_handlesRaised s false in
    let s := set_qTooltip s None in
    let id := closures s in
    let s := set_closures s (S id) in
    let s := set_docListeners s
               (addEventListener ("focus", onFocus id, true)
                  (addEventListener ("keyup", onKeyup id, false)
                     (addEventListener ("keydown", onKeydown id, false) (docListeners s)))) in
    set_initialized s true.

(** [enable()] *)
Definition enable (D : deps) (s : state) : state :=
  if negb (initialized s) then s
  else
    let s := set_enabled s true in
    let s := do_call s ClearLabels in
    let s := set_handlesRaised s true in
    let s := set_svgListeners s
               (addEventListener ("touchmove", preventScrollOnHandles, true)
                  (addEventListener ("touchstart", preventScrollOnHandles, true)
                     (svgListeners s))) in
    let s := set_docListeners s
               (addEventListener ("touchend", handleTouchEnd, true) (docListeners s)) in
    let id := closures s in
    let s := set_closures s (id + 3)%nat in
    let s := set_rectOn s
               (<["touchend.interactive" := (id + 2)%nat]>
                  (<["touchstart.interactive" := (id + 1)%nat]>
                     (<["click.interactive" := id]> (rectOn s)))) in
    let s := do_call s UpdatePaths in
    updateEQHandles D s.

(** [disable()] *)
Definition disable (s : state) : state :=
  if negb (initialized s) then s
  else
    let s := set_enabled s false in
    let s := set_svgListeners s
               (removeEventListener ("touchmove", preventScrollOnHandles, true)
                  (removeEventListener ("touchstart", preventScrollOnHandles, true)
                     (svgListeners s))) in
    let s := set_docListeners s
               (removeEventListener ("touchend", handleTouchEnd, true) (docListeners s)) in
    let s := if scrollLocked s then set_scrollLocked s false else s in
    let s := set_rectOn s
               (delete "touchend.interactive"
                  (delete "touchstart.interactive"
                     (delete "click.interactive" (rectOn s)))) in
    let s := set_handles s [] in
    let s := set_handlesRaised s false in
    do_call s UpdatePaths.

(** [destroy()] *)
Definition destroy (s : state) : state :=
  if initialized s then set_initialized (disable s) false else s.

(** The state of the script once loaded, before [init], over a given
    host application. *)
Definition loaded (sel : string) (fs : list eqFilter) (n : Z) (fi : filterInputs) : state :=
  State false false false false None false false false None
        [] false [] [] ∅ 0%nat
        sel fs n fi [].

(** ** Transition of the handles *)

(** The [transform] [transitionEQHandles] computes for one handle; each
    handle has its own transition, and one whose sampling throws stays
    where it is. *)
Definition transition_handle (D : deps) (phoneObj : option phone) (h : handle) : handle :=
  match handle_position D phoneObj (h_datum h) with
  | Threw => h
  | Returned p => h_set_transform h (Some p)
  end.

(** [transitionEQHandles(duration)]: the handles once the transition
    has run to its end. *)
Definition transitionEQHandles (D : deps) (duration : R) (s : state) : state :=
  if negb (enabled s) then s
  else
    let phoneObj := getEQPhoneObj D (selectValue s) in
    set_handles s (map (transition_handle D phoneObj) (handles s)).

(** ** Handle colours *)

Definition handleColors : list string :=
  ["#e74c3c"; "#3498db"; "#2ecc71"; "#f39c12"; "#9b59b6";
   "#1abc9c"; "#e67e22"; "#34495e"; "#e91e63"; "#00bcd4"].

(** [getFilterColor(i)] for a filter index [i]; [None] is [undefined]. *)
Definition getFilterColor (i : nat) : option string :=
  handleColors !! (i mod length handleColors)%nat.

(** ** Double tap on a handle *)

(** [lastTapTime] and [lastTapElement] of [bindHandleEvents]; they start
    as [0] and [null]. *)
Record tapState : Type := TapState { lastTapTime : Z; lastTapElement : option nat }.

Definition no_tap : tapState := TapState 0 None.

(** The [touchstart] handler of a handle.  [element] is the handle
    touched, [now] is [Date.now()], [touch] the client position of the
    first touch, [None] when the event carries none. *)
Definition onTouchstart (d : datum) (element : nat) (now : Z) (touch : option (R * R))
           (t : tapState) (s : state) : tapState * state :=
  match touch with
  | None => (t, s)
  | Some (clientX, clientY) =>
      if bool_decide (lastTapElement t = Some element) && (now - lastTapTime t <? 300)%Z
      then (TapState 0 None, cycleFilterType d s)
      else (TapState now (Some element), fst (startDrag d clientX clientY s))
  end.

(** Every call of [bindHandleEvents] has variables [lastTapTime] and
    [lastTapElement] of its own, shared by the handles it binds: those
    one render pass creates.  The tap states by render pass; a pass
    none of whose handles was tapped has the initial one. *)
Definition tapStates : Type := gmap nat tapState.

Definition tap_of (ts : tapStates) (pass : nat) : tapState := default no_tap (ts !! pass).

(** A [touchstart] on the handle [element] that render pass [pass]
    created. *)
Definition touch_handle (d : datum) (pass element : nat) (now : Z) (touch : option (R * R))
           (ts : tapStates) (s : state) : tapStates * state :=
  let '(t, s') := onTouchstart d element now touch (tap_of ts pass) s in
  (<[pass := t]> ts, s').

(** ** A press with timers of earlier gestures *)

(** What can happen while a handle is pressed: the events of the drag,
    and the 120 ms timer the [onUp] of an earlier gesture left behind. *)
Inductive pressEvent : Type :=
| Drag (ev : dragEvent)
| StaleCooldown.

Definition is_stale (ev : pressEvent) : bool :=
  match ev with
  | Drag _ => false
  | StaleCooldown => true
  end.

Definition press_step (D : deps) (ev : pressEvent) (p : session * state) : session * state :=
  match ev with
  | Drag ev => drag_step D ev p
  | StaleCooldown => (fst p, dragCooldown (snd p))
  end.

Definition press_run (D : deps) (evs : list pressEvent) (p : session * state)
  : session * state :=
  foldl (fun p ev => press_step D ev p) p evs.

(** A press on the handle of [d]: down at [(x0, y0)], what happens
    while it is held, up. *)
Definition press (D : deps) (d : datum) (x0 y0 : R) (evs : list pressEvent) (s : state)
  : state :=
  match startDrag d x0 y0 s with
  | (s, None) => s
  | (s, Some ss) =>
      let '(ss, s) := press_run D evs (ss, s) in
      session_onUp ss s
  end.

(** ** Scroll lock *)

Module Scroll.

(** A value of [document.body.style]: a string as it was found, or the
    [`-${scrollY}px`] the lock writes. *)
Inductive css : Type :=
| Css (v : string)
| MinusPx (scrollY : R).

Record bodyStyle : Type := BodyStyle {
  st_position : css;
  st_top : css;
  st_left : css;
  st_right : css;
  st_overflow : css
}.

(** [scrollLockStyle] when it is not [null]. *)
Inductive lockStyle : Type :=
| SkipManipulation
| Saved (style : bodyStyle) (savedY : R).

(** The window, the style of the body and the module's
    [scrollLockStyle]. *)
Record page : Type := Page {
  innerWidth : R;
  innerHeight : R;
  body_style : bodyStyle;
  scrollX : R;
  scrollY : R;
  scrollLockStyle : option lockStyle
}.

(** The window scrolled to [(x, y)], by the user or by the browser. *)
Definition scrolled (p : page) (x y : R) : page :=
  Page (innerWidth p) (innerHeight p) (body_style p) x y (scrollLockStyle p).

(** [isMobileLandscape()] *)
Definition isMobileLandscape (p : page) : bool :=
  JS.le (Fin (innerHeight p)) (Fin 500)
  && JS.ge (JS.div (Fin (innerWidth p)) (Fin (innerHeight p))) (Fin (3/2)).

(** [lockBodyScroll()]; only the vertical offset is saved. *)
Definition lockBodyScroll (p : page) : page :=
  match scrollLockStyle p with
  | Some _ => p
  | None =>
      if isMobileLandscape p
      then Page (innerWidth p) (innerHeight p) (body_style p) (scrollX p) (scrollY p)
                (Some SkipManipulation)
      else
        Page (innerWidth p) (innerHeight p)
             (BodyStyle (Css "fixed") (MinusPx (scrollY p)) (Css "0") (Css "0") (Css "hidden"))
             (scrollX p) (scrollY p)
             (Some (Saved (body_style p) (scrollY p)))
  end.

(** [unlockBodyScroll()]; [window.scrollTo(0, scrollY)] scrolls to the
    saved vertical offset and to the horizontal offset 0. *)
Definition unlockBodyScroll (p : page) : page :=
  match scrollLockStyle p with
  | None => p
  | Some SkipManipulation =>
      Page (innerWidth p) (innerHeight p) (body_style p) (scrollX p) (scrollY p) None
  | Some (Saved style y) =>
      Page (innerWidth p) (innerHeight p) style 0 y None
  end.

(** An element by its class list; [None]: it has no [classList]. *)
Definition element : Type := option (list string).

Definition has_class (names : list string) (e : element) : bool :=
  match e with
  | Some classList => existsb (fun n => bool_decide (n ∈ classList)) names
  | None => false
  end.

(** [isDeleteButtonTarget(target)].  The target is given by the elements
    the loop visits: the target itself and its ancestors, up to the
    [svg] element or the root, whichever comes first. *)
Definition isDeleteButtonTarget (target : list element) : bool :=
  existsb (has_class ["delete-btn"; "delete-border"; "delete-x"]) target.

(** [isEQHandleTarget(target)] *)
Definition isEQHandleTarget (target : list element) : bool :=
  if isDeleteButtonTarget target then false
  else existsb (has_class ["eq-handle"; "eq-handles"; "whisker-left"; "whisker-right";
                           "outer"; "inner"]) target.

(** [preventScrollOnHandles(e)]: the page after it and whether
    [e.preventDefault()] was called. *)
Definition preventScrollOnHandles (enabled : bool) (type : string) (target : list element)
           (p : page) : page * bool :=
  if negb enabled then (p, false)
  else if isEQHandleTarget target
       then ((if String.eqb type "touchstart" then lockBodyScroll p else p), true)
       else (p, false).

(** [handleTouchEnd(e)]: whether it leaves a timer that will call
    [unlockBodyScroll]. *)
Definition handleTouchEnd (enabled : bool) (p : page) : bool :=
  if negb enabled then false
  else if scrollLockStyle p is Some _ then true else false.

(** A touch from [touchstart] to the timer of [touchend]; [(dx, dy)] is
    where the window is scrolled to when the timer runs. *)
Definition touch (enabled : bool) (target : list element) (dx dy : R) (p : page) : page :=
  let p := fst (preventScrollOnHandles enabled "touchstart" target p) in
  let p := scrolled p dx dy in
  if handleTouchEnd enabled p then unlockBodyScroll p else p.

End Scroll.

(** ** Confidence intervals and measurement spread *)

Module Confidence.

(** [Math.pow(x, 2)] and [Math.sqrt(x)] *)
Definition square (a : num) : num := JS.mul a a.

Definition sqrt (a : num) : num :=
  match a with
  | JS.NaN => NaN
  | JS.Inf p => if p then Inf true else NaN
  | JS.Fin x => if Rlt_dec x 0 then NaN else Fin (R_sqrt.sqrt x)
  end.

Definition len {A : Type} (l : list A) : num := Fin (INR (length l)).

(** [calculateMean(values)] *)
Definition calculateMean (values : list num) : num :=
  let sum := fold_left (fun acc val => JS.add acc val) values (Fin 0) in
  JS.div sum (len values).

(** [calculateStandardDeviation(values, mean)] *)
Definition calculateStandardDeviation (values : list num) (mean : num) : num :=
  let variance :=
    JS.div (fold_left (fun acc val => JS.add acc (square (JS.sub val mean))) values (Fin 0))
           (len values) in
  sqrt variance.

Record interval : Type := Interval { lower : num; upper : num }.

(** [calculateConfidenceIntervalForFrequency(values)] *)
Definition calculateConfidenceIntervalForFrequency (values : list num) : interval :=
  let mean := calculateMean values in
  let stdev := calculateStandardDeviation values mean in
  let n := len values in
  let marginOfError := JS.mul (Fin (1645/1000)) (JS.div stdev (sqrt n)) in
  Interval (JS.sub mean marginOfError) (JS.add mean marginOfError).

(** A measurement: its samples [[frequency, dB]]. *)
Definition measurement : Type := list (R * R).

(** [rawChannels.map(measurement => measurement[i][1])]; reading [[1]]
    of a sample that does not exist throws. *)
Fixpoint column (rawChannels : list measurement) (i : nat) : outcome (list num) :=
  match rawChannels with
  | [] => Returned []
  | m :: rest =>
      match m !! i with
      | None => Threw
      | Some (_, dB) => dBs ← column rest i; Returned (Fin dB :: dBs)
      end
  end.

(** The loop the two functions share: for [i] from [i] up, with [first]
    what is left of [rawChannels[0]], one pair of bounds per frequency
    from the statistic [stat] of the column. *)
Fixpoint bounds_loop (stat : list num -> num * num) (rawChannels : list measurement)
         (first : measurement) (i : nat) : outcome (list (R * num) * list (R * num)) :=
  match first with
  | [] => Returned ([], [])
  | (frequency, _) :: first' =>
      dBs ← column rawChannels i;
      let '(up, low) := stat dBs in
      rest ← bounds_loop stat rawChannels first' (S i);
      Returned ((frequency, up) :: fst rest, (frequency, low) :: snd rest)
  end.

Definition bounds (stat : list num -> num * num) (rawChannels : list measurement)
  : outcome (list (R * num) * list (R * num)) :=
  match rawChannels !! 0%nat with
  | None => Threw
  | Some first => bounds_loop stat rawChannels first 0
  end.

(** [calculateConfidenceIntervals(rawChannels)]: [[upperBounds, lowerBounds]]. *)
Definition calculateConfidenceIntervals (rawChannels : list measurement)
  : outcome (list (R * num) * list (R * num)) :=
  bounds (fun dBs =>
            let confidenceInterval := calculateConfidenceIntervalForFrequency dBs in
            (upper confidenceInterval, lower confidenceInterval))
         rawChannels.

(** [Math.min(...dBs)] and [Math.max(...dBs)] *)
Definition min_of (dBs : list num) : num := fold_left JS.min dBs (Inf true).
Definition max_of (dBs : list num) : num := fold_left JS.max dBs (Inf false).

(** [calculateMinMaxSpread(rawChannels)]: [[upperBounds, lowerBounds]]. *)
Definition calculateMinMaxSpread (rawChannels : list measurement)
  : outcome (list (R * num) * list (R * num)) :=
  bounds (fun dBs => (max_of dBs, min_of dBs)) rawChannels.

End Confidence.

(** * Auxiliary definitions

    Views of the state the properties are stated with, the reading of
    two sentences of the specification that the code does not follow,
    and the concrete environments and states the properties are tried
    on. *)

(** ** Views of the state *)

(** Everything registered: the listeners on the SVG element and on the
    document, the handlers [interactRect.on] holds, and the handles, each
    of which carries its own handlers. *)
Definition registered (s : state)
  : list listener * list listener * gmap string nat * list handle :=
  (svgListeners s, docListeners s, rectOn s, handles s).

(** One [enable()] followed by [disable()]. *)
Definition cycle (D : deps) (s : state) : state := disable (enable D s).

(** What a cycle leaves registered, from what was registered before. *)
Definition after_cycle (r : list listener * list listener * gmap string nat * list handle)
  : list listener * list listener * gmap string nat * list handle :=
  let '(svgL, docL, on, _) := r in
  (removeEventListener ("touchmove", preventScrollOnHandles, true)
     (removeEventListener ("touchstart", preventScrollOnHandles, true) svgL),
   removeEventListener ("touchend", handleTouchEnd, true) docL,
   delete "touchend.interactive"
     (delete "touchstart.interactive" (delete "click.interactive" on)),
   []).

(** The keys of the filters that keep a handle, counted from [k]. *)
Fixpoint keys_from (k : nat) (fs : list eqFilter) : list nat :=
  match fs with
  | [] => []
  | f :: fs' => if keeps_handle f then k :: keys_from (S k) fs' else keys_from (S k) fs'
  end.

(** The five assignments [fill_slot] makes to slot [i]. *)
Definition slot_writes (i : nat) (freq gain : num) : list call :=
  [WriteEnabled i true; WriteType i "PK"; WriteFreq i freq; WriteGain i gain;
   WriteQ i (Fin 1)].

(** A call that only adds entries other than gain writes to the log. *)
Definition writes_no_gain (s s' : state) : Prop :=
  forall idx g, In (WriteGain idx g) (calls s') -> In (WriteGain idx g) (calls s).

(** The reference curves of an environment are sorted: in what the
    baseline makes of each active phone's samples, frequencies strictly
    increase from one sample to the next. *)
Definition ascending (data : list point) : Prop :=
  forall i p1 p2, data !! i = Some p1 -> data !! S i = Some p2 -> p_freq p1 < p_freq p2.

Definition sorted_curves (D : deps) : Prop :=
  forall ph c, In ph (getActivePhones D) -> pick_curveData ph = Some (DataArr c) ->
               ascending (baseline_fn D c).


(** The centre frequency and the clamped edge frequency of a whisker
    drag event on a handle. *)
Definition whisker_freq (h : handle) : R := or_elseR (d_freq (h_datum h)) 1000.

Definition whisker_edge (D : deps) (h : handle) (event_x : R) : R :=
  clampR 20 20000 (x_invert D (event_x + x_apply D (whisker_freq h))).

(** The five fields of slot [idx] exist. *)
Definition has_rows (idx : Z) (fi : filterInputs) : Prop :=
  is_Some (at_index (in_enabled fi) idx) /\ is_Some (at_index (in_type fi) idx) /\
  is_Some (at_index (in_freq fi) idx) /\ is_Some (at_index (in_gain fi) idx) /\
  is_Some (at_index (in_q fi) idx).

(** Slot [i] holds a new filter: enabled, type PK, the frequency and the
    gain, Q 1. *)
Definition slot_filled (i : nat) (freq gain : num) (fi : filterInputs) : Prop :=
  in_enabled fi !! i = Some true /\ in_type fi !! i = Some "PK" /\
  in_freq fi !! i = Some freq /\ in_gain fi !! i = Some gain /\
  in_q fi !! i = Some (Fin 1).

(** ** Rounding to a step *)

(** [r] is the multiple of [step] nearest to [x], the upper one of the
    two when [x] lies midway. *)
Definition nearest_multiple (step x r : R) : Prop :=
  (exists k : Z, r = IZR k * step) /\ x - step / 2 < r <= x + step / 2.


(** ** Two sentences of the specification, read literally *)

(** Handles "for the filters that are enabled and have a positive
    frequency": the keys that sentence gives. *)
Fixpoint spec_keys_from (k : nat) (fs : list eqFilter) : list nat :=
  match fs with
  | [] => []
  | f :: fs' =>
      if negb (f_disabled f) && keeps_handle f
      then k :: spec_keys_from (S k) fs' else spec_keys_from (S k) fs'
  end.


(** ** Concrete environments and states *)

(** A host whose [updateFilterElements] keeps one row of fields per
    band, new rows blank. *)
Definition blank_rows (n : Z) (fi : filterInputs) : filterInputs :=
  let k := Z.to_nat n in
  FilterInputs (resize k false (in_enabled fi)) (resize k "PK" (in_type fi))
               (resize k (Fin 0) (in_freq fi)) (resize k (Fin 0) (in_gain fi))
               (resize k (Fin 0) (in_q fi)).

(** An environment with the identity as frequency scale, a gain axis
    that shows [-10, 10] dB over 20 pixels, a plot area of 20000 by 20
    pixels at the origin, no offset, no baseline ([fn] is the identity)
    and ten bands at most. *)
Definition plain_deps (phones : list phone) (options : list string) : deps :=
  Deps (fun f => f) (fun px => px)
       (fun level => JS.sub (Fin 10) level) (fun py => 10 - py)
       (-10, 10)
       (fun x y => (x, y))
       0 0 20000 20
       phones (fun _ => 0) (fun l => l)
       10 options blank_rows.

(** The module initialized and enabled over a host with these filters,
    band count and form fields; no phone selected, nothing rendered. *)
Definition enabled_over (fs : list eqFilter) (n : Z) (fi : filterInputs) : state :=
  set_enabled (set_initialized (loaded "" fs n fi) true) true.

(** A phone whose one active curve has an empty array of samples. *)
Definition phone_empty : phone :=
  Phone false "Acme" "One" (Some [Some (CurveObj (Some []))]) None.

(** A phone whose curve ends in two samples at the same frequency. *)
Definition phone_flat_tail : phone :=
  Phone false "Acme" "Two"
        (Some [Some (CurveObj (Some [Point 100 0; Point 100 0]))]) None.

(** A phone with the curve of the specification's sampling example. *)
Definition phone_three : phone :=
  Phone false "Acme" "Three"
        (Some [Some (CurveObj (Some [Point 20 0; Point 1000 3; Point 20000 0]))]) None.

(** One filter whose type field holds a value outside the cycle, the
    module brought up by [init] and [enable]. *)
Definition odd_type_inputs : filterInputs :=
  FilterInputs [true] ["XX"] [Fin 1000] [Fin 0] [Fin 1].

Definition odd_type_state : state :=
  enable (plain_deps [] []) (init (loaded "" [] 1 odd_type_inputs)).

(** One disabled filter at 1000 Hz. *)
Definition disabled_filter_state : state :=
  enabled_over [MkFilter true "PK" (Some 1000) 0 1] 1
               (FilterInputs [false] ["PK"] [Fin 1000] [Fin 0] [Fin 1]).

(** Filter 0 at 500 Hz, pressed but not yet dragged. *)
Definition pressing_state : state :=
  enabled_over [MkFilter false "PK" (Some 500) 0 1] 1
               (FilterInputs [true] ["PK"] [Fin 500] [Fin 0] [Fin 1]).

(** The same in the middle of a drag, a frame scheduled for the pointer
    at (1000, 8): 1000 Hz, 2 dB. *)
Definition dragging_state : state :=
  set_pendingFrame pressing_state (Some (FrameJob 1000 8 0)).

(** Filter 0 at 1000 Hz with its handle rendered and selected. *)
Definition whisker_handle : handle :=
  Handle (Datum false "PK" 1000 0 1 0) (Some (1000, Fin 10)) false 20 (-300, 300) "P"
         (8/10) true.

Definition whisker_state : state :=
  set_handles
    (enabled_over [MkFilter false "PK" (Some 1000) 0 1] 1
                  (FilterInputs [true] ["PK"] [Fin 1000] [Fin 0] [Fin 1]))
    [whisker_handle].

(** Filter 0 with Q 1.23. *)
Definition wheel_state : state :=
  enabled_over [MkFilter false "PK" (Some 1000) 0 (123/100)] 1
               (FilterInputs [true] ["PK"] [Fin 1000] [Fin 0] [Fin (123/100)]).

(** Two filters, the second one unassigned, and their fields; and a host
    with no field at all. *)
Definition two_filters : list eqFilter :=
  [MkFilter false "PK" (Some 500) 3 1; MkFilter true "PK" (Some 0) 0 0].

Definition two_rows : filterInputs :=
  FilterInputs [true; false] ["PK"; "PK"] [Fin 500; Fin 0] [Fin 3; Fin 0] [Fin 1; Fin 0].

Definition no_rows : filterInputs := FilterInputs [] [] [] [] [].

(** The phone of [phone_flat_tail] selected: filter 0 in the middle of
    a drag with a frame scheduled for the pointer at (200, 8), and a
    host with no filter yet about to be clicked. *)
Definition flat_tail_drag : state :=
  set_selectValue (set_pendingFrame pressing_state (Some (FrameJob 200 8 0))) "Acme Two".

Definition flat_tail_click : state :=
  set_selectValue (enabled_over [] 0 no_rows) "Acme Two".

(** * Properties *)

(** ** Arithmetic of JavaScript numbers *)

(** Case analysis on the comparisons of real numbers a goal branches on. *)
Ltac rdec :=
  repeat match goal with
  | |- context [Rlt_dec ?a ?b] => destruct (Rlt_dec a b); try (exfalso; lra)
  | |- context [Rle_dec ?a ?b] => destruct (Rle_dec a b); try (exfalso; lra)
  | |- context [Req_dec_T ?a ?b] => destruct (Req_dec_T a b); try (exfalso; lra)
  end.

Lemma round_real_eq (z : Z) (x : R) :
  IZR z <= x + / 2 < IZR z + 1 -> JS.round_real x = IZR z.
Proof. intros H. unfold JS.round_real. f_equal. now apply Zfloor_eq. Qed.

Lemma round_real_bound (x : R) : x - / 2 < JS.round_real x <= x + / 2.
Proof.
  unfold JS.round_real. pose proof (Zfloor_bound (x + / 2)) as [H1 H2]. lra.
Qed.

Lemma round_real_int (z : Z) : JS.round_real (IZR z) = IZR z.
Proof. apply round_real_eq. lra. Qed.

Lemma clampR_bounds (lo hi x : R) : lo <= hi -> lo <= clampR lo hi x <= hi.
Proof.
  intros H. unfold clampR, Rmax, Rmin.
  repeat (destruct (Rle_dec _ _)); lra.
Qed.

Lemma clampR_id (lo hi x : R) : lo <= x <= hi -> clampR lo hi x = x.
Proof.
  intros H. unfold clampR, Rmax, Rmin.
  repeat (destruct (Rle_dec _ _)); lra.
Qed.

Lemma clamp_Fin (lo hi x : R) : JS.clamp lo hi (Fin x) = Fin (clampR lo hi x).
Proof.
  unfold JS.clamp, JS.max, JS.min, JS.lt, clampR, Rmax, Rmin.
  destruct (Rlt_dec x hi), (Rle_dec hi x); try lra; simpl;
    repeat (destruct (Rlt_dec _ _)); repeat (destruct (Rle_dec _ _));
    try lra; f_equal; lra.
Qed.

Lemma clamp_NaN (lo hi : R) : JS.clamp lo hi NaN = NaN.
Proof. reflexivity. Qed.

Lemma clamp_Inf (lo hi : R) (p : bool) :
  JS.clamp lo hi (Inf p) = Fin (if p then Rmax lo hi else lo).
Proof.
  unfold JS.clamp, JS.max, JS.min, JS.lt, Rmax. destruct p; simpl.
  - destruct (Rlt_dec lo hi), (Rle_dec lo hi); try lra; f_equal; lra.
  - reflexivity.
Qed.

(** The clamp puts every number but [NaN] into the interval. *)
Lemma clamp_in_range (lo hi : R) (a : num) :
  lo <= hi -> a <> NaN -> JS.in_range lo hi (JS.clamp lo hi a).
Proof.
  intros Hle Ha. destruct a as [|p|x]; [congruence| |].
  - rewrite clamp_Inf. simpl. destruct p; [unfold Rmax; destruct (Rle_dec lo hi)|]; lra.
  - rewrite clamp_Fin. simpl. now apply clampR_bounds.
Qed.

(** ** Curve sampling *)

Lemma findIndex_from_range {A} (p : A -> bool) (l : list A) (i : Z) :
  findIndex_from p l i = (-1)%Z \/
  (i <= findIndex_from p l i < i + Z.of_nat (length l))%Z.
Proof.
  revert i. induction l as [|x l IH]; intros i; simpl; [now left|].
  destruct (p x); [right; lia|].
  destruct (IH (i + 1)%Z) as [->|H]; [now left|right; lia].
Qed.

Lemma at_index_Some {A} (l : list A) (i : Z) :
  (0 <= i < Z.of_nat (length l))%Z -> exists x, at_index l i = Some x.
Proof.
  intros H. unfold at_index. destruct (Z.ltb_spec i 0); [lia|].
  apply lookup_lt_is_Some. lia.
Qed.

(** The sampler throws exactly when the baseline hands it an empty
    array of samples. *)
Lemma samplePhoneCurveAt_throws (D : deps) (phoneObj : option phone) (freq : num) :
  samplePhoneCurveAt D phoneObj freq = Threw <->
  exists ph c, phoneObj = Some ph /\ pick_curveData ph = Some (DataArr c)
               /\ baseline_fn D c = [].
Proof.
  unfold samplePhoneCurveAt. split.
  - destruct phoneObj as [ph|]; [|discriminate].
    destruct (pick_curveData ph) as [[c|]|] eqn:Hp; try discriminate.
    intros H. exists ph, c. repeat split; [assumption|].
    destruct (baseline_fn D c) as [|d0 data] eqn:Hd; [reflexivity|exfalso].
    revert H.
    set (i0 := findIndex _ _).
    set (idx := if (i0 <? 0)%Z then _ else i0).
    assert (Hidx : (0 <= idx < Z.of_nat (length (d0 :: data)))%Z).
    { subst idx. destruct (Z.ltb_spec i0 0); [simpl length; lia|].
      destruct (findIndex_from_range
                  (fun d => JS.ge (Fin (p_freq d)) freq) (d0 :: data) 0) as [E|E];
        fold (findIndex (fun d => JS.ge (Fin (p_freq d)) freq) (d0 :: data)) in E;
        fold i0 in E; lia. }
    destruct (Z.eqb_spec idx 0) as [E|E].
    + simpl. discriminate.
    + destruct (at_index_Some (d0 :: data) (idx - 1)) as [p1 ->]; [lia|].
      destruct (at_index_Some (d0 :: data) idx) as [p2 ->]; [lia|].
      simpl. discriminate.
  - intros (ph & c & -> & -> & ->). reflexivity.
Qed.

(** Without a phone, or with one that has no array of samples, the
    sampler answers [null]. *)
Lemma samplePhoneCurveAt_no_curve (D : deps) (phoneObj : option phone) (freq : num) :
  match phoneObj with
  | None => True
  | Some ph => pick_curveData ph = None \/ pick_curveData ph = Some DataObj
  end ->
  samplePhoneCurveAt D phoneObj freq = Returned None.
Proof.
  unfold samplePhoneCurveAt. destruct phoneObj as [ph|]; [|reflexivity].
  now intros [-> | ->].
Qed.

(** C1 (the code departs from it): [samplePhoneCurveAt] is claimed never
    to throw and to answer [null] for an empty array of samples.  With
    the phone [phone_empty] selected and no baseline, the index falls to
    [data.length - 1 = -1], [data[-2]] is [undefined], and reading its
    [0] throws. *)
Theorem samplePhoneCurveAt_empty_array_throws :
  getEQPhoneObj (plain_deps [phone_empty] []) "Acme One" = Some phone_empty /\
  samplePhoneCurveAt (plain_deps [phone_empty] []) (Some phone_empty) (Fin 1000) = Threw.
Proof. split; reflexivity. Qed.

(** On the same phone a scheduled drag frame dies in the sampler: no
    field is written and no midpoint is used. *)
Lemma runFrame_empty_array (s : state) (job : frameJob) :
  selectValue s = "Acme One" ->
  pendingFrame s = Some job ->
  runFrame (plain_deps [phone_empty] []) s = set_pendingFrame s None.
Proof.
  intros Hsel Hjob. unfold runFrame. rewrite Hjob.
  destruct s; simpl in *; subst. reflexivity.
Qed.

(** A curve whose last two samples coincide gives [NaN] above its range:
    [t] is [100/0 = Infinity] and [Infinity * 0] is [NaN]. *)
Lemma samplePhoneCurveAt_flat_tail_NaN :
  samplePhoneCurveAt (plain_deps [phone_flat_tail] []) (Some phone_flat_tail) (Fin 200)
  = Returned (Some NaN).
Proof.
  unfold samplePhoneCurveAt, findIndex. simpl.
  unfold JS.ge, JS.le. rdec. simpl.
  unfold JS.div, JS.sub, JS.add, JS.neg, JS.mul. rdec. reflexivity.
Qed.

(** [NaN] goes through the rounding and the clamp of the gain. *)
Lemma gain_at_NaN (D : deps) (targetY : R) : gain_at D targetY (Some NaN) = NaN.
Proof. reflexivity. Qed.

(** ** Type cycling *)

(** The successor of a stored type value in [types[(indexOf(v) + 1) % 3]]. *)
Lemma next_type_cases (value : string) :
  let next := default "" (at_index types (Z.rem (indexOf value types + 1) 3)) in
  In next types /\
  (value = "PK" -> next = "LSQ") /\
  (value = "LSQ" -> next = "HSQ") /\
  (value = "HSQ" -> next = "PK") /\
  (~ In value types -> next = "PK").
Proof.
  unfold indexOf, findIndex, types. simpl.
  destruct (String.eqb_spec value "PK") as [->|H1]; simpl.
  { repeat split; simpl; auto; try discriminate; intros H; exfalso; apply H; auto. }
  destruct (String.eqb_spec value "LSQ") as [->|H2]; simpl.
  { repeat split; simpl; auto; try discriminate; intros H; exfalso; apply H; auto. }
  destruct (String.eqb_spec value "HSQ") as [->|H3]; simpl.
  { repeat split; simpl; auto; try discriminate; intros H; exfalso; apply H; auto. }
  repeat split; simpl; auto; congruence.
Qed.

Lemma cycleFilterType_not_enabled (d : datum) (s : state) :
  enabled s = false -> cycleFilterType d s = s.
Proof. intros H. unfold cycleFilterType. now rewrite H. Qed.

(** C10: cycling the type of a filter whose type field exists, with the
    module enabled, stores the successor of the field's value in the
    cycle PK, LSQ, HSQ, PK, and stores PK for any value outside the cycle;
    so the stored type is one of PK, LSQ, HSQ afterwards, whatever was
    stored before. *)
Theorem cycleFilterType_total (d : datum) (s : state) (value : string) :
  enabled s = true ->
  in_type (inputs s) !! filterIndex d = Some value ->
  exists next,
    in_type (inputs (cycleFilterType d s)) !! filterIndex d = Some next /\
    In next types /\
    (value = "PK" -> next = "LSQ") /\
    (value = "LSQ" -> next = "HSQ") /\
    (value = "HSQ" -> next = "PK") /\
    (~ In value types -> next = "PK").
Proof.
  intros Hen Hv. unfold cycleFilterType. rewrite Hen, Hv. simpl.
  eexists. split; [|apply next_type_cases].
  destruct s as [? ? ? ? ? ? ? ? ? ? ? ? ? ? ? ? ? ? fi ?]. simpl in *.
  apply list_lookup_insert_eq. eapply lookup_lt_Some, Hv.
Qed.

Lemma cycleFilterType_total_witness :
  exists next,
    in_type (inputs (cycleFilterType (Datum false "XX" 1000 0 1 0) odd_type_state))
      !! 0%nat = Some next /\
    In next types /\
    ("XX" = "PK" -> next = "LSQ") /\
    ("XX" = "LSQ" -> next = "HSQ") /\
    ("XX" = "HSQ" -> next = "PK") /\
    (~ In "XX" types -> next = "PK").
Proof.
  apply (cycleFilterType_total (Datum false "XX" 1000 0 1 0) odd_type_state "XX");
    reflexivity.
Defined.

(** ** Lifecycle: listeners over enable/disable cycles *)

Section Registry.
Implicit Types (k j : listener) (l : list listener).

Lemma removeEventListener_app k l1 l2 :
  removeEventListener k (l1 ++ l2) = removeEventListener k l1 ++ removeEventListener k l2.
Proof. unfold removeEventListener. apply filter_app. Qed.

Lemma removeEventListener_add k l :
  removeEventListener k (addEventListener k l) = removeEventListener k l.
Proof.
  unfold addEventListener. destruct (decide (k ∈ l)); [reflexivity|].
  rewrite removeEventListener_app. unfold removeEventListener at 2.
  assert (Hk : ~ (k <> k)) by (intros H; apply H; reflexivity).
  rewrite (filter_cons_False _ k [] Hk), filter_nil.
  apply app_nil_r.
Qed.

Lemma elem_of_removeEventListener k j l :
  j ∈ removeEventListener k l <-> j <> k /\ j ∈ l.
Proof. unfold removeEventListener. now rewrite list_elem_of_filter. Qed.

Lemma removeEventListener_add_ne k j l :
  j <> k ->
  removeEventListener k (addEventListener j l) = addEventListener j (removeEventListener k l).
Proof.
  intros Hne. unfold addEventListener.
  destruct (decide (j ∈ l)) as [Hin|Hin];
    destruct (decide (j ∈ removeEventListener k l)) as [Hin'|Hin'].
  - reflexivity.
  - exfalso. apply Hin'. now apply elem_of_removeEventListener.
  - exfalso. apply Hin. now apply elem_of_removeEventListener in Hin'.
  - rewrite removeEventListener_app. f_equal.
    unfold removeEventListener. now rewrite filter_cons_True, filter_nil.
Qed.

Lemma removeEventListener_idemp k l :
  removeEventListener k (removeEventListener k l) = removeEventListener k l.
Proof.
  unfold removeEventListener. induction l as [|x l IH]; [reflexivity|].
  destruct (decide (x <> k)) as [H|H].
  - rewrite (filter_cons_True _ x l H), (filter_cons_True _ x _ H). now f_equal.
  - now rewrite (filter_cons_False _ x l H).
Qed.

Lemma removeEventListener_comm k j l :
  removeEventListener k (removeEventListener j l)
  = removeEventListener j (removeEventListener k l).
Proof.
  unfold removeEventListener. induction l as [|x l IH]; [reflexivity|].
  destruct (decide (x <> k)) as [Hk|Hk], (decide (x <> j)) as [Hj|Hj].
  - rewrite (filter_cons_True _ x l Hj), (filter_cons_True _ x l Hk),
      (filter_cons_True _ x _ Hk), (filter_cons_True _ x _ Hj). now f_equal.
  - rewrite (filter_cons_False _ x l Hj), (filter_cons_True _ x l Hk),
      (filter_cons_False _ x _ Hj). exact IH.
  - rewrite (filter_cons_True _ x l Hj), (filter_cons_False _ x l Hk),
      (filter_cons_False _ x _ Hk). exact IH.
  - rewrite (filter_cons_False _ x l Hj), (filter_cons_False _ x l Hk). exact IH.
Qed.

End Registry.

Lemma updateEQHandles_frame (D : deps) (s : state) :
  let s' := updateEQHandles D s in
  initialized s' = initialized s /\ enabled s' = enabled s /\
  svgListeners s' = svgListeners s /\ docListeners s' = docListeners s /\
  rectOn s' = rectOn s /\ closures s' = closures s /\
  inputs s' = inputs s /\ calls s' = calls s /\ bands s' = bands s /\
  filters s' = filters s /\ pendingFrame s' = pendingFrame s /\
  scrollLocked s' = scrollLocked s /\ selectValue s' = selectValue s.
Proof.
  unfold updateEQHandles.
  destruct (initialized s) eqn:Hi; simpl; [|now rewrite Hi].
  destruct (enabled s) eqn:He; simpl.
  - destruct (place_handles _ _ _) as [hs [|]]; destruct s; simpl in *; subst; auto 15.
  - destruct s; simpl in *; subst; auto 15.
Qed.

Lemma enable_registered (D : deps) (s : state) :
  initialized s = true ->
  initialized (enable D s) = true /\
  svgListeners (enable D s) =
    addEventListener ("touchmove", preventScrollOnHandles, true)
      (addEventListener ("touchstart", preventScrollOnHandles, true) (svgListeners s)) /\
  docListeners (enable D s) =
    addEventListener ("touchend", handleTouchEnd, true) (docListeners s) /\
  rectOn (enable D s) =
    <["touchend.interactive" := (closures s + 2)%nat]>
      (<["touchstart.interactive" := (closures s + 1)%nat]>
         (<["click.interactive" := closures s]> (rectOn s))).
Proof.
  intros Hi. unfold enable. rewrite Hi. cbv zeta. simpl negb. cbv iota.
  match goal with |- context [updateEQHandles D ?t] =>
    destruct (updateEQHandles_frame D t) as (-> & _ & -> & -> & -> & _)
  end.
  destruct s; simpl in *. auto.
Qed.

Lemma disable_registered (s : state) :
  initialized s = true ->
  initialized (disable s) = true /\
  registered (disable s) =
    (removeEventListener ("touchmove", preventScrollOnHandles, true)
       (removeEventListener ("touchstart", preventScrollOnHandles, true) (svgListeners s)),
     removeEventListener ("touchend", handleTouchEnd, true) (docListeners s),
     delete "touchend.interactive"
       (delete "touchstart.interactive" (delete "click.interactive" (rectOn s))),
     []).
Proof.
  intros Hi. unfold disable. rewrite Hi.
  destruct s; simpl in *. destruct scrollLocked0; auto.
Qed.

Lemma cycle_registered (D : deps) (s : state) :
  initialized s = true ->
  initialized (cycle D s) = true /\
  registered (cycle D s) = after_cycle (registered s).
Proof.
  intros Hi. unfold cycle.
  destruct (enable_registered D s Hi) as (Hi1 & Esvg & Edoc & Erect).
  destruct (disable_registered (enable D s) Hi1) as (Hi2 & ->).
  split; [exact Hi2|].
  rewrite Esvg, Edoc, Erect. unfold registered, after_cycle.
  f_equal. f_equal; [f_equal|].
  - rewrite removeEventListener_add_ne by discriminate.
    now rewrite !removeEventListener_add.
  - apply removeEventListener_add.
  - apply map_eq. intros k.
    destruct (decide (k = "touchend.interactive")) as [->|H3];
      [now rewrite !lookup_delete_eq|].
    rewrite !(lookup_delete_ne _ "touchend.interactive") by congruence.
    destruct (decide (k = "touchstart.interactive")) as [->|H2];
      [now rewrite !lookup_delete_eq|].
    rewrite !(lookup_delete_ne _ "touchstart.interactive") by congruence.
    destruct (decide (k = "click.interactive")) as [->|H1];
      [now rewrite !lookup_delete_eq|].
    rewrite !(lookup_delete_ne _ "click.interactive") by congruence.
    now rewrite !lookup_insert_ne by congruence.
Qed.

Lemma after_cycle_idemp r : after_cycle (after_cycle r) = after_cycle r.
Proof.
  destruct r as [[[svgL docL] on] hs]. simpl. f_equal. f_equal; [f_equal|].
  - rewrite (removeEventListener_comm ("touchstart", preventScrollOnHandles, true)
               ("touchmove", preventScrollOnHandles, true)
               (removeEventListener ("touchstart", preventScrollOnHandles, true) svgL)).
    now rewrite !removeEventListener_idemp.
  - apply removeEventListener_idemp.
  - apply map_eq. intros k.
    destruct (decide (k = "touchend.interactive")) as [->|H3];
      [now rewrite !lookup_delete_eq|].
    rewrite !(lookup_delete_ne _ "touchend.interactive") by congruence.
    destruct (decide (k = "touchstart.interactive")) as [->|H2];
      [now rewrite !lookup_delete_eq|].
    rewrite !(lookup_delete_ne _ "touchstart.interactive") by congruence.
    destruct (decide (k = "click.interactive")) as [->|H1];
      [now rewrite !lookup_delete_eq|].
    now rewrite !lookup_delete_ne by congruence.
Qed.

Lemma enable_not_initialized (D : deps) (s : state) :
  initialized s = false -> enable D s = s.
Proof. intros H. unfold enable. now rewrite H. Qed.

Lemma disable_not_initialized (s : state) :
  initialized s = false -> disable s = s.
Proof. intros H. unfold disable. now rewrite H. Qed.

(** C8: from an initialized state, [N >= 1] cycles of [enable()] then
    [disable()] leave registered exactly what one cycle leaves: the same
    listeners on the SVG element and on the document, the same
    [interactRect] handlers, and no handle; and on a module that is not
    initialized both calls change nothing. *)
Theorem enable_disable_cycles (D : deps) (s : state) (N : nat) :
  (initialized s = true -> (1 <= N)%nat ->
   registered (Nat.iter N (cycle D) s) = registered (cycle D s)) /\
  (initialized s = false -> enable D s = s /\ disable s = s).
Proof.
  split.
  - intros Hi HN.
    assert (H : initialized (Nat.iter N (cycle D) s) = true /\
                registered (Nat.iter N (cycle D) s) = after_cycle (registered s)).
    { induction N as [|n IH]; [lia|].
      destruct n as [|n].
      - simpl. now apply cycle_registered.
      - destruct IH as [IHi IHr]; [lia|].
        change (Nat.iter (S (S n)) (cycle D) s)
          with (cycle D (Nat.iter (S n) (cycle D) s)).
        destruct (cycle_registered D _ IHi) as [Hi' ->].
        split; [exact Hi'|]. rewrite IHr. apply after_cycle_idemp. }
    destruct H as [_ ->]. symmetry. now apply cycle_registered.
  - intros Hi. split; [now apply enable_not_initialized|now apply disable_not_initialized].
Qed.

(** Three cycles after [init] against one, and the two calls before [init]. *)
Lemma enable_disable_cycles_witness :
  registered (Nat.iter 3 (cycle (plain_deps [] []))
                (init (loaded "" [] 1 odd_type_inputs)))
  = registered (cycle (plain_deps [] []) (init (loaded "" [] 1 odd_type_inputs))) /\
  enable (plain_deps [] []) (loaded "" [] 1 odd_type_inputs)
  = loaded "" [] 1 odd_type_inputs.
Proof.
  split.
  - apply (enable_disable_cycles (plain_deps [] [])
             (init (loaded "" [] 1 odd_type_inputs)) 3); [reflexivity|lia].
  - apply (enable_disable_cycles (plain_deps [] [])
             (loaded "" [] 1 odd_type_inputs) 3). reflexivity.
Defined.

(** ** Handle reconciliation *)

(** A filter keeps a handle exactly when it has a positive frequency. *)
Lemma keeps_handle_spec (f : eqFilter) :
  keeps_handle f = true <-> exists x, f_freq f = Some x /\ 0 < x.
Proof.
  unfold keeps_handle. destruct (f_freq f) as [x|].
  - unfold JS.truthy, JS.lt. split.
    + intros H. exists x. split; [reflexivity|]. revert H. rdec; simpl; intros; try discriminate; lra.
    + intros (y & [= <-] & Hy). rdec. reflexivity.
  - split; [discriminate|]. intros (x & [=] & _).
Qed.

Lemma handle_data_keys_from (k : nat) (fs : list eqFilter) :
  map filterIndex (omap handle_datum (imap (fun i f => PreDatum f (k + i)) fs))
  = keys_from k fs.
Proof.
  revert k. induction fs as [|f fs IH]; intros k; [reflexivity|].
  rewrite imap_cons. simpl.
  rewrite (imap_ext _ (fun i f => PreDatum f (S k + i)))
    by (intros; simpl; f_equal; lia).
  unfold handle_datum at 1. simpl. rewrite <- (IH (S k)).
  destruct (f_freq f) as [x|] eqn:Hf.
  - destruct (keeps_handle f); simpl; [rewrite Nat.add_0_r|]; reflexivity.
  - unfold keeps_handle. rewrite Hf. reflexivity.
Qed.

Lemma handle_data_keys (fs : list eqFilter) :
  map filterIndex (handle_data fs) = keys_from 0 fs.
Proof. apply (handle_data_keys_from 0). Qed.

Lemma In_keys_from (k i : nat) (fs : list eqFilter) :
  In i (keys_from k fs) <->
  (k <= i)%nat /\ exists f, fs !! (i - k)%nat = Some f /\ keeps_handle f = true.
Proof.
  revert k. induction fs as [|f fs IH]; intros k; simpl.
  - split; [tauto|]. intros (_ & f & H & _). discriminate.
  - assert (Hrest : In i (keys_from (S k) fs) <->
                    (k <= i)%nat /\ i <> k /\
                    exists g, (f :: fs) !! (i - k)%nat = Some g /\ keeps_handle g = true).
    { rewrite IH. split.
      - intros (Hle & g & Hg & Hk). repeat split; [lia|lia|]. exists g. split; [|exact Hk].
        replace (i - k)%nat with (S (i - S k)) by lia. exact Hg.
      - intros (Hle & Hne & g & Hg & Hk). split; [lia|]. exists g. split; [|exact Hk].
        replace (i - k)%nat with (S (i - S k)) in Hg by lia. exact Hg. }
    destruct (keeps_handle f) eqn:Hf; simpl; rewrite Hrest; split.
    + intros [<-|H]; [|tauto]. split; [lia|]. exists f. now rewrite Nat.sub_diag.
    + intros (Hle & g & Hg & Hk). destruct (decide (i = k)) as [->|Hne]; [now left|].
      right. repeat split; eauto.
    + tauto.
    + intros (Hle & g & Hg & Hk). destruct (decide (i = k)) as [->|Hne]; [|eauto 6].
      rewrite Nat.sub_diag in Hg. simpl in Hg. congruence.
Qed.

Lemma NoDup_keys_from (k : nat) (fs : list eqFilter) : List.NoDup (keys_from k fs).
Proof.
  revert k. induction fs as [|f fs IH]; intros k; simpl; [constructor|].
  destruct (keeps_handle f); [|apply IH].
  constructor; [|apply IH]. rewrite In_keys_from. lia.
Qed.

Lemma join_keys (old : list handle) (data : list datum) :
  map h_key (join old data) = map filterIndex data.
Proof.
  unfold join. rewrite List.map_map. apply List.map_ext. intros d.
  destruct (List.find _ old) as [[]|]; reflexivity.
Qed.

Lemma place_handles_keys (D : deps) (phoneObj : option phone) (hs : list handle) :
  map h_key (fst (place_handles D phoneObj hs)) = map h_key hs.
Proof.
  induction hs as [|h hs IH]; [reflexivity|]. simpl.
  destruct (handle_position D phoneObj (h_datum h)); [reflexivity|].
  destruct (place_handles D phoneObj hs) as [rest ok]. simpl in *.
  rewrite IH. destruct h; reflexivity.
Qed.

Lemma updateEQHandles_keys (D : deps) (s : state) :
  initialized s = true -> enabled s = true ->
  map h_key (handles (updateEQHandles D s)) = keys_from 0 (filters s).
Proof.
  intros Hi He. unfold updateEQHandles. rewrite Hi, He. simpl.
  pose proof (place_handles_keys D (getEQPhoneObj D (selectValue s))
                (join (handles s) (handle_data (filters s)))) as Hk.
  rewrite join_keys, handle_data_keys in Hk. rewrite <- Hk.
  destruct (place_handles _ _ _) as [hs [|]]; destruct s; simpl; [|reflexivity].
  rewrite !List.map_map. apply List.map_ext. intros []; reflexivity.
Qed.

(** C2 (as stated, refuted): a disabled filter with a positive frequency
    does get a handle.  With the single filter
    [{disabled: true, type: "PK", freq: 1000, gain: 0, q: 1}] the render
    pass leaves one handle, keyed 0, where the sentence allows none. *)
Lemma disabled_filter_gets_handle :
  map h_key (handles (updateEQHandles (plain_deps [] []) disabled_filter_state)) = [0%nat] /\
  spec_keys_from 0 (filters disabled_filter_state) = [].
Proof.
  split; [|reflexivity].
  rewrite updateEQHandles_keys by reflexivity.
  change (filters disabled_filter_state) with [MkFilter true "PK" (Some 1000) 0 1].
  simpl. assert (H : keeps_handle (MkFilter true "PK" (Some 1000) 0 1) = true).
  { apply keeps_handle_spec. exists 1000. split; [reflexivity|lra]. }
  now rewrite H.
Qed.

(** C2 (amended): with the module enabled, a render pass leaves exactly
    one handle per filter of the current list whose frequency is present
    and positive, keyed by the filter's position, whether or not the
    filter is disabled; a filter with no frequency or one that is not
    positive has no handle, so the handle of a filter that was removed or
    lost its frequency is gone after the pass.  With the module not
    enabled the pass removes every handle. *)
Theorem updateEQHandles_reconciles (D : deps) (s : state) :
  initialized s = true ->
  (enabled s = true ->
   let keys := map h_key (handles (updateEQHandles D s)) in
   List.NoDup keys /\
   forall i, In i keys <->
             exists f x, filters s !! i = Some f /\ f_freq f = Some x /\ 0 < x) /\
  (enabled s = false -> handles (updateEQHandles D s) = []).
Proof.
  intros Hi. split.
  - intros He. cbv zeta. rewrite updateEQHandles_keys by assumption. split.
    + apply NoDup_keys_from.
    + intros i. rewrite In_keys_from, Nat.sub_0_r. split.
      * intros (_ & f & Hf & Hk). apply keeps_handle_spec in Hk as (x & Hx & Hpos).
        now exists f, x.
      * intros (f & x & Hf & Hx & Hpos). split; [lia|]. exists f. split; [exact Hf|].
        apply keeps_handle_spec. now exists x.
  - intros He. unfold updateEQHandles. rewrite Hi, He. destruct s; reflexivity.
Qed.

Lemma updateEQHandles_reconciles_witness :
  let keys := map h_key (handles (updateEQHandles (plain_deps [] []) disabled_filter_state)) in
  List.NoDup keys /\
  forall i, In i keys <->
            exists f x, filters disabled_filter_state !! i = Some f
                        /\ f_freq f = Some x /\ 0 < x.
Proof.
  apply (updateEQHandles_reconciles (plain_deps [] []) disabled_filter_state);
    reflexivity.
Defined.

(** ** Gain writes *)

Lemma round_to_tenth_not_NaN (a : num) :
  a <> NaN -> JS.div (JS.round (JS.mul a (Fin 10))) (Fin 10) <> NaN.
Proof.
  destruct a as [|p|x]; [congruence| |]; intros _; unfold JS.mul, JS.div; rdec; discriminate.
Qed.

(** Every level but [NaN] gives a gain within [-40, 40]. *)
Lemma gain_at_in_range (D : deps) (targetY : R) (curveY : option num) :
  curveY <> Some NaN -> JS.in_range (-40) 40 (gain_at D targetY curveY).
Proof.
  intros Hc. unfold gain_at.
  apply (clamp_in_range (-40) 40); [lra|].
  apply round_to_tenth_not_NaN.
  destruct curveY as [[|p|c]|]; [congruence| | |]; try discriminate.
  destruct (y_domain D) as [yd0 yd1]. unfold JS.div, JS.add. rdec. discriminate.
Qed.

(** On a real level the stored gain is the rounded difference, clamped. *)
Lemma gain_at_real (D : deps) (targetY c : R) :
  gain_at D targetY (Some (Fin c))
  = Fin (clampR (-40) 40 (JS.round_real ((targetY + - c) * 10) / 10)).
Proof.
  unfold gain_at. simpl. unfold JS.div. rdec.
  apply (clamp_Fin (-40) 40).
Qed.

(** Without a curve the gain is taken from the middle of the visible
    gain axis. *)
Lemma gain_at_midpoint (D : deps) (targetY : R) :
  gain_at D targetY None
  = Fin (clampR (-40) 40
           (JS.round_real ((targetY + - ((fst (y_domain D) + snd (y_domain D)) / 2)) * 10) / 10)).
Proof.
  unfold gain_at. destruct (y_domain D) as [yd0 yd1]. simpl. unfold JS.div. rdec.
  apply (clamp_Fin (-40) 40).
Qed.

Lemma calls_updateEQHandles (D : deps) (s : state) :
  calls (updateEQHandles D s) = calls s.
Proof. apply updateEQHandles_frame. Qed.

(** The gain writes of a drag frame. *)
Lemma runFrame_gain_writes (D : deps) (s : state) (idx : nat) (g : num) :
  In (WriteGain idx g) (calls (runFrame D s)) ->
  In (WriteGain idx g) (calls s) \/
  exists (targetY : R) curveY (freq : R),
    samplePhoneCurveAt D (getEQPhoneObj D (selectValue s)) (Fin freq) = Returned curveY /\
    g = gain_at D targetY curveY.
Proof.
  unfold runFrame. destruct (pendingFrame s) as [job|] eqn:Hp; [|now left].
  destruct (screen_to_svg D (job_cx job) (job_cy job)) as [x y].
  assert (Hsel : selectValue (set_pendingFrame s None) = selectValue s)
    by (destruct s; reflexivity).
  rewrite Hsel.
  destruct (samplePhoneCurveAt D _ _) as [|curveY] eqn:Hs.
  { destruct s; simpl; now left. }
  intros H. destruct s. simpl in *.
  destruct (in_freq inputs0 !! job_filterIndex job); simpl in H.
  all: destruct (in_gain inputs0 !! job_filterIndex job); simpl in H.
  all: rewrite ?in_app_iff in H; simpl in H.
  all: repeat (destruct H as [H|H]); try discriminate; try tauto.
  all: injection H as <- <-; right; eauto.
Qed.

(** A gain field that a drag frame changed holds a gain the frame
    logged. *)
Lemma runFrame_gain_stored (D : deps) (s : state) (i : nat) (g : num) :
  in_gain (inputs (runFrame D s)) !! i = Some g ->
  in_gain (inputs s) !! i = Some g \/ In (WriteGain i g) (calls (runFrame D s)).
Proof.
  unfold runFrame. destruct (pendingFrame s) as [job|] eqn:Hp; [|now left].
  destruct (screen_to_svg D (job_cx job) (job_cy job)) as [x y].
  destruct (samplePhoneCurveAt D _ _) as [|curveY] eqn:Hs.
  { destruct s; simpl; now left. }
  destruct s as [? ? ? ? ? ? ? ? ? ? ? ? ? ? ? ? ? ? [en ty fr ga qs] ?]. simpl in *.
  destruct (fr !! job_filterIndex job); simpl.
  all: destruct (ga !! job_filterIndex job) eqn:Hg; simpl; [|now left].
  all: destruct (decide (i = job_filterIndex job)) as [->|Hne].
  all: try (rewrite list_lookup_insert_ne by congruence; now left).
  all: rewrite list_lookup_insert_eq by (eapply lookup_lt_Some, Hg).
  all: intros [= <-]; right; rewrite !in_app_iff; simpl; tauto.
Qed.

Lemma fill_slot_calls (idx : Z) (freq gain : num) (s : state) :
  exists n, calls (fst (fill_slot idx freq gain s))
            = calls s ++ take n (slot_writes (Z.to_nat idx) freq gain).
Proof.
  unfold fill_slot. destruct s. simpl.
  destruct (at_index (in_enabled inputs0) idx); simpl;
    [|exists 0%nat; simpl; now rewrite app_nil_r].
  destruct (at_index (in_type inputs0) idx); simpl; [|now exists 1%nat].
  destruct (at_index (in_freq inputs0) idx); simpl;
    [|exists 2%nat; simpl; now rewrite <- app_assoc].
  destruct (at_index (in_gain inputs0) idx); simpl;
    [|exists 3%nat; simpl; now rewrite <- !app_assoc].
  destruct (at_index (in_q inputs0) idx); simpl.
  - exists 5%nat. simpl. now rewrite <- !app_assoc.
  - exists 4%nat. simpl. now rewrite <- !app_assoc.
Qed.

Lemma fill_slot_bands (idx : Z) (freq gain : num) (s : state) :
  bands (fst (fill_slot idx freq gain s)) = bands s.
Proof.
  unfold fill_slot. destruct s. simpl.
  repeat (match goal with |- context [at_index ?l ?i] => destruct (at_index l i) end; simpl);
    reflexivity.
Qed.

(** [claim_slot] writes no field. *)
Lemma claim_slot_calls (D : deps) (s s' : state) (idx : Z) :
  claim_slot D s = Some (idx, s') ->
  calls s' = calls s \/
  calls s' = calls s ++ [SetBands (bands s + 1)%Z; CallUpdateFilterElements].
Proof.
  unfold claim_slot. destruct (Z.eqb_spec (findIndex unassigned (filters s)) (-1)).
  - destruct (Z.ltb_spec (bands s) (getBandsMax D)); [|discriminate].
    intros [= <- <-]. right. destruct s. simpl. now rewrite <- app_assoc.
  - intros [= <- <-]. now left.
Qed.

Lemma In_take_In {A} (x : A) (n : nat) (l : list A) : In x (take n l) -> In x l.
Proof.
  rewrite <- !list_elem_of_In. apply subseteq_take.
Qed.

(** The first half of a graph click touches nothing of the host but the
    selected phone. *)
Lemma click_params_frame (D : deps) (clientX clientY : R) (s : state) :
  let s1 := fst (click_params D clientX clientY s) in
  calls s1 = calls s /\ bands s1 = bands s /\ filters s1 = filters s /\
  inputs s1 = inputs s.
Proof.
  unfold click_params.
  destruct (negb (enabled s) || isDragging s || justDeletedFilter s); [simpl; auto|].
  destruct (screen_to_svg D clientX clientY) as [x y].
  repeat (destruct (Rlt_dec _ _); [simpl; auto|]).
  match goal with |- context [samplePhoneCurveAt D (getEQPhoneObj D (selectValue ?t)) ?f] =>
    set (s2 := t)
  end.
  assert (H : calls s2 = calls s /\ bands s2 = bands s /\ filters s2 = filters s /\
              inputs s2 = inputs s).
  { subst s2. destruct (String.eqb _ _); [|auto].
    destruct (select_options D !! 1%nat); [|auto]. destruct s; simpl; auto. }
  destruct (samplePhoneCurveAt D _ _); exact H.
Qed.

Lemma click_params_gain (D : deps) (clientX clientY : R) (s s1 : state) (freq : R) (gain : num) :
  click_params D clientX clientY s = (s1, Some (freq, gain)) ->
  exists targetY curveY,
    samplePhoneCurveAt D (getEQPhoneObj D (selectValue s1)) (Fin freq) = Returned curveY /\
    gain = gain_at D targetY curveY.
Proof.
  unfold click_params.
  destruct (negb (enabled s) || isDragging s || justDeletedFilter s); [discriminate|].
  destruct (screen_to_svg D clientX clientY) as [x y].
  repeat (destruct (Rlt_dec _ _); [discriminate|]).
  match goal with |- context [samplePhoneCurveAt D (getEQPhoneObj D (selectValue ?t)) ?f] =>
    set (s2 := t); destruct (samplePhoneCurveAt D (getEQPhoneObj D (selectValue s2)) f)
      as [|curveY] eqn:Hs; [discriminate|]
  end.
  intros [= <- <- <-]. eauto.
Qed.

(** The gain writes of a graph click. *)
Lemma handleGraphClick_gain_writes (D : deps) (clientX clientY : R) (s : state)
      (idx : nat) (g : num) :
  In (WriteGain idx g) (calls (handleGraphClick D clientX clientY s)) ->
  In (WriteGain idx g) (calls s) \/
  exists (targetY : R) curveY sel (freq : R),
    samplePhoneCurveAt D (getEQPhoneObj D sel) (Fin freq) = Returned curveY /\
    g = gain_at D targetY curveY.
Proof.
  unfold handleGraphClick.
  destruct (click_params_frame D clientX clientY s) as (Hcalls & _).
  destruct (click_params D clientX clientY s) as [s1 [[freq gain]|]] eqn:Hc;
    simpl in Hcalls.
  - apply click_params_gain in Hc as (targetY & curveY & Hs & ->).
    destruct (claim_slot D s1) as [[i s2]|] eqn:Hcl; [|rewrite Hcalls; now left].
    apply claim_slot_calls in Hcl.
    destruct (fill_slot_calls i (Fin freq) (gain_at D targetY curveY) s2) as [n Hn].
    destruct (fill_slot i (Fin freq) (gain_at D targetY curveY) s2) as [s3 ok]. simpl in Hn.
    assert (Hin : In (WriteGain idx g) (calls s3 ++ [ApplyEQ]) ->
                  In (WriteGain idx g) (calls s) \/ g = gain_at D targetY curveY).
    { rewrite Hn, !in_app_iff. intros [[H|H]|H].
      - left. rewrite <- Hcalls. destruct Hcl as [<-|Hcl]; [exact H|].
        rewrite Hcl, in_app_iff in H. destruct H as [H|H]; [exact H|].
        simpl in H. intuition discriminate.
      - apply In_take_In in H. simpl in H.
        repeat (destruct H as [H|H]; try discriminate); [|contradiction].
        injection H as _ <-. now right.
      - simpl in H. intuition discriminate. }
    intros H.
    assert (H' : In (WriteGain idx g) (calls s3 ++ [ApplyEQ])).
    { destruct ok.
      - rewrite calls_updateEQHandles in H. destruct s3; exact H.
      - apply in_app_iff. now left. }
    destruct (Hin H') as [?|?]; [now left|right; eauto 8].
  - rewrite Hcalls. now left.
Qed.

Ltac no_gain_tac :=
  intros idx g H; simpl in *; rewrite ?in_app_iff in H; simpl in H;
  intuition discriminate.

Lemma cycleFilterType_no_gain (d : datum) (s : state) :
  writes_no_gain s (cycleFilterType d s).
Proof.
  unfold cycleFilterType. destruct (enabled s); simpl; [|now intros ? ?].
  destruct (in_type (inputs s) !! filterIndex d); [|now intros ? ?].
  destruct s. no_gain_tac.
Qed.

Lemma onWheel_no_gain (d : datum) (shiftKey : bool) (deltaY : R) (s : state) :
  writes_no_gain s (onWheel d shiftKey deltaY s).
Proof.
  unfold onWheel. destruct (enabled s); simpl; [|now intros ? ?].
  destruct (in_q (inputs s) !! filterIndex d); [|now intros ? ?].
  destruct s. no_gain_tac.
Qed.

Lemma whiskerDrag_drag_no_gain (D : deps) (sd : side) (key : nat) (event_x : R) (s : state) :
  writes_no_gain s (whiskerDrag_drag D sd key event_x s).
Proof.
  unfold whiskerDrag_drag. destruct (List.find _ _) as [h|]; [|now intros ? ?].
  destruct (qFromEdge _ _ _); [|now intros ? ?].
  destruct (in_q (inputs s) !! _); [|now intros ? ?].
  destruct (h_transform h) as [[x y]|]; destruct s; no_gain_tac.
Qed.

Lemma whiskerDrag_end_no_gain (s : state) : writes_no_gain s (whiskerDrag_end s).
Proof. destruct s. unfold whiskerDrag_end. no_gain_tac. Qed.

Lemma deleteFilter_no_gain (D : deps) (d : datum) (s : state) :
  writes_no_gain s (deleteFilter D d s).
Proof. destruct s. unfold deleteFilter. no_gain_tac. Qed.

Lemma session_onMove_no_gain (ss : session) (cx cy : R) (s : state) :
  writes_no_gain s (snd (session_onMove ss cx cy s)).
Proof.
  unfold session_onMove. destruct (negb (moved ss) && _); [now intros ? ?|].
  destruct s as [? ? ? ? [j|] ? ? ? ? ? ? ? ? ? ? ? ? ? ? ?]; no_gain_tac.
Qed.

Lemma session_onUp_no_gain (ss : session) (s : state) :
  writes_no_gain s (session_onUp ss s).
Proof.
  unfold session_onUp. destruct (moved ss); destruct s; no_gain_tac.
Qed.

Lemma startDrag_no_gain (d : datum) (x y : R) (s : state) :
  writes_no_gain s (fst (startDrag d x y s)).
Proof.
  unfold startDrag. destruct (enabled s); destruct s; no_gain_tac.
Qed.

Lemma updateEQHandles_no_gain (D : deps) (s : state) :
  writes_no_gain s (updateEQHandles D s).
Proof. intros idx g. now rewrite calls_updateEQHandles. Qed.

Lemma enable_no_gain (D : deps) (s : state) : writes_no_gain s (enable D s).
Proof.
  unfold enable. destruct (initialized s); simpl; [|now intros ? ?].
  intros idx g. rewrite calls_updateEQHandles. revert idx g.
  destruct s. no_gain_tac.
Qed.

Lemma disable_no_gain (s : state) : writes_no_gain s (disable s).
Proof.
  unfold disable. destruct (initialized s); simpl; [|now intros ? ?].
  destruct s as [? ? ? ? ? ? [|] ? ? ? ? ? ? ? ? ? ? ? ? ?]; no_gain_tac.
Qed.

Lemma getEQPhoneObj_In (D : deps) (sel : string) (ph : phone) :
  getEQPhoneObj D sel = Some ph -> In ph (getActivePhones D).
Proof.
  unfold getEQPhoneObj. destruct (String.eqb sel ""); [discriminate|].
  intros H. now apply List.find_some in H as [H _].
Qed.

(** On a sorted curve the level sampled at a real frequency is real. *)
Lemma samplePhoneCurveAt_real (D : deps) (ph : phone) (c : list point) (freq : R) (v : num) :
  pick_curveData ph = Some (DataArr c) ->
  ascending (baseline_fn D c) ->
  samplePhoneCurveAt D (Some ph) (Fin freq) = Returned (Some v) ->
  exists r, v = Fin r.
Proof.
  intros Hp Hasc. unfold samplePhoneCurveAt. rewrite Hp.
  set (data := baseline_fn D c) in *.
  set (i0 := findIndex _ data).
  set (idx := if (i0 <? 0)%Z then _ else i0).
  destruct (Z.eqb_spec idx 0) as [E|E].
  - destruct (at_index data 0) as [d0|]; [|discriminate]. simpl. intros [= <-]. eauto.
  - destruct (at_index data (idx - 1)) as [p1|] eqn:H1; [|discriminate].
    destruct (at_index data idx) as [p2|] eqn:H2; [|discriminate].
    simpl. intros [= <-].
    unfold at_index in H1, H2.
    destruct (Z.ltb_spec (idx - 1) 0); [discriminate|].
    destruct (Z.ltb_spec idx 0); [discriminate|].
    replace (Z.to_nat idx) with (S (Z.to_nat (idx - 1))) in H2 by lia.
    pose proof (Hasc _ _ _ H1 H2) as Hlt.
    unfold JS.div, JS.sub, JS.add, JS.neg, JS.mul. rdec. eauto.
Qed.

Lemma sorted_curves_not_NaN (D : deps) (sel : string) (freq : R) :
  sorted_curves D ->
  samplePhoneCurveAt D (getEQPhoneObj D sel) (Fin freq) <> Returned (Some NaN).
Proof.
  intros Hsorted Hs.
  destruct (getEQPhoneObj D sel) as [ph|] eqn:Hph; [|discriminate].
  apply getEQPhoneObj_In in Hph.
  destruct (pick_curveData ph) as [[c|]|] eqn:Hp;
    try (unfold samplePhoneCurveAt in Hs; rewrite Hp in Hs; discriminate).
  destruct (samplePhoneCurveAt_real D ph c freq NaN Hp (Hsorted ph c Hph Hp) Hs) as [r Hr].
  discriminate.
Qed.

(** Where the clamp does hold: gain is written by the drag frame and by
    the graph click, both of which clamp it as they compute it, before
    the write.  Over reference curves whose frequencies strictly
    increase, every gain either of them writes, for every pointer
    position, lies in [-40, 40]. *)
Lemma gain_writes_clamped (D : deps) (s : state) (idx : nat) (g : num) :
  sorted_curves D ->
  (In (WriteGain idx g) (calls (runFrame D s)) ->
   In (WriteGain idx g) (calls s) \/ JS.in_range (-40) 40 g) /\
  (forall clientX clientY,
      In (WriteGain idx g) (calls (handleGraphClick D clientX clientY s)) ->
      In (WriteGain idx g) (calls s) \/ JS.in_range (-40) 40 g).
Proof.
  intros Hsorted. split.
  - intros H. apply runFrame_gain_writes in H as [H|(targetY & curveY & freq & Hs & ->)];
      [now left|right].
    apply gain_at_in_range. intros ->. exact (sorted_curves_not_NaN D _ _ Hsorted Hs).
  - intros clientX clientY H.
    apply handleGraphClick_gain_writes
      in H as [H|(targetY & curveY & sel & freq & Hs & ->)]; [now left|right].
    apply gain_at_in_range. intros ->. exact (sorted_curves_not_NaN D _ _ Hsorted Hs).
Qed.

Lemma plain_deps_sorted : sorted_curves (plain_deps [phone_three] []).
Proof.
  intros ph c [<-|[]] [= <-]. simpl.
  intros [|[|[|i]]] p1 p2; simpl; intros [= <-] [= <-]; simpl; lra.
Qed.

(** Sampling that curve at 500 Hz interpolates between its first two
    samples: [0 + (500 - 20)/(1000 - 20) * (3 - 0)], about 1.469. *)
Example samplePhoneCurveAt_500 :
  samplePhoneCurveAt (plain_deps [phone_three] []) (Some phone_three) (Fin 500)
  = Returned (Some (Fin (0 + (500 + - 20) / (1000 + - 20) * (3 + - 0) + 0))).
Proof.
  unfold samplePhoneCurveAt, findIndex. simpl.
  unfold JS.ge, JS.le. rdec. simpl.
  unfold JS.div, JS.sub, JS.add, JS.neg, JS.mul. rdec. reflexivity.
Qed.

(** The frame scheduled in [dragging_state], no phone selected: the
    pointer at (1000, 8) stands for 1000 Hz and 2 dB above the middle
    (0 dB) of the gain axis, and these are written to filter 0. *)
Example runFrame_writes :
  calls (runFrame (plain_deps [phone_three] []) dragging_state)
  = [WriteFreq 0 (Fin 1000); WriteGain 0 (Fin 2); UpdateEQPreview].
Proof.
  unfold runFrame, dragging_state. simpl.
  assert (Hf : clampR 20 20000 (JS.round_real 1000) = 1000).
  { rewrite (round_real_int 1000). apply clampR_id. lra. }
  rewrite Hf.
  assert (Hg : gain_at (plain_deps [phone_three] []) (10 - 8) None = Fin 2).
  { rewrite gain_at_midpoint. simpl. f_equal.
    rewrite (round_real_eq 20) by lra.
    replace (20 / 10) with 2 by lra. apply clampR_id. lra. }
  rewrite Hg. reflexivity.
Qed.

(** What a drag frame writes when both fields of its filter exist. *)
Lemma runFrame_at (D : deps) (s : state) (job : frameJob) (x y : R) (curveY : option num) :
  pendingFrame s = Some job ->
  screen_to_svg D (job_cx job) (job_cy job) = (x, y) ->
  samplePhoneCurveAt D (getEQPhoneObj D (selectValue s))
                     (Fin (clampR 20 20000 (JS.round_real (x_invert D x)))) = Returned curveY ->
  is_Some (in_freq (inputs s) !! job_filterIndex job) ->
  is_Some (in_gain (inputs s) !! job_filterIndex job) ->
  calls (runFrame D s)
  = calls s ++ [WriteFreq (job_filterIndex job)
                          (Fin (clampR 20 20000 (JS.round_real (x_invert D x))));
                WriteGain (job_filterIndex job) (gain_at D (y_invert D y) curveY);
                UpdateEQPreview] /\
  in_gain (inputs (runFrame D s)) !! job_filterIndex job
  = Some (gain_at D (y_invert D y) curveY).
Proof.
  intros Hjob Hpt Hs [f0 Hf] [g0 Hg]. unfold runFrame. rewrite Hjob, Hpt.
  assert (Hsel : selectValue (set_pendingFrame s None) = selectValue s)
    by (destruct s; reflexivity).
  rewrite Hsel, Hs. apply lookup_lt_Some in Hg as Hlen.
  destruct s as [? ? ? ? ? ? ? ? ? ? ? ? ? ? ? ? ? ? [en ty fr ga qs] ?]. simpl in *.
  rewrite Hf. simpl. rewrite Hg. simpl. split.
  - now rewrite <- !app_assoc.
  - now apply list_lookup_insert_eq.
Qed.

Lemma click_params_flat_tail :
  click_params (plain_deps [phone_flat_tail] []) 200 8 flat_tail_click
  = (flat_tail_click, Some (200, NaN)).
Proof.
  assert (Hf : clampR 20 20000 (JS.round_real 200) = 200).
  { rewrite (round_real_int 200). apply clampR_id. lra. }
  unfold click_params, flat_tail_click, enabled_over. simpl screen_to_svg. cbv iota beta.
  cbn [negb orb enabled isDragging justDeletedFilter set_selectValue set_enabled
       set_initialized loaded pad_l pad_t geo_W geo_H plain_deps x_invert y_invert].
  rdec. cbn [selectValue set_selectValue set_enabled set_initialized loaded String.eqb
             Ascii.eqb Bool.eqb].
  rewrite Hf.
  change (getEQPhoneObj (plain_deps [phone_flat_tail] []) "Acme Two")
    with (Some phone_flat_tail).
  rewrite samplePhoneCurveAt_flat_tail_NaN. reflexivity.
Qed.

(** C3 (the code departs from it): the gain a drag frame or a graph click
    writes is claimed to lie in [-40, 40] for every pointer input.  With
    the phone [phone_flat_tail] selected, whose curve ends in two equal
    samples at 100 Hz, and the pointer at 200 Hz, the sampler divides by
    [100 - 100], [Infinity * 0] is [NaN], and [Math.max(-40,
    Math.min(40, NaN))] is [NaN]: both write paths store [NaN] as the
    gain. *)
Theorem gain_write_NaN :
  calls (runFrame (plain_deps [phone_flat_tail] []) flat_tail_drag)
  = [WriteFreq 0 (Fin 200); WriteGain 0 NaN; UpdateEQPreview] /\
  in_gain (inputs (runFrame (plain_deps [phone_flat_tail] []) flat_tail_drag)) !! 0%nat
  = Some NaN /\
  calls (handleGraphClick (plain_deps [phone_flat_tail] []) 200 8 flat_tail_click)
  = [SetBands 1; CallUpdateFilterElements] ++ slot_writes 0 (Fin 200) NaN ++ [ApplyEQ] /\
  in_gain (inputs (handleGraphClick (plain_deps [phone_flat_tail] []) 200 8 flat_tail_click))
    !! 0%nat = Some NaN /\
  ~ JS.in_range (-40) 40 NaN.
Proof.
  assert (Hf : clampR 20 20000 (JS.round_real 200) = 200).
  { rewrite (round_real_int 200). apply clampR_id. lra. }
  assert (Hframe := runFrame_at (plain_deps [phone_flat_tail] []) flat_tail_drag
                      (FrameJob 200 8 0) 200 8 (Some NaN) eq_refl eq_refl).
  cbn [x_invert plain_deps] in Hframe. rewrite Hf in Hframe.
  destruct Hframe as [Hcalls Hgain].
  { change (getEQPhoneObj (plain_deps [phone_flat_tail] []) (selectValue flat_tail_drag))
      with (Some phone_flat_tail).
    exact samplePhoneCurveAt_flat_tail_NaN. }
  { eexists; reflexivity. }
  { eexists; reflexivity. }
  split; [exact Hcalls|]. split; [exact Hgain|].
  unfold handleGraphClick. rewrite click_params_flat_tail.
  split; [reflexivity|]. split; [reflexivity|]. simpl. tauto.
Qed.

(** ** The drag threshold *)


Lemma hypot_ge_5 (dx dy : R) : 25 <= dx * dx + dy * dy -> 5 <= hypot dx dy.
Proof.
  intros H. unfold hypot.
  replace 5 with (sqrt 25) by (replace 25 with (5 * 5) by lra; apply sqrt_square; lra).
  apply sqrt_le_1; nra.
Qed.







(** ** Bandwidth math *)

Lemma ln_2_pos : 0 < ln 2.
Proof. rewrite <- ln_1. apply ln_increasing; lra. Qed.

Lemma arcsinh_pos (x : R) : 0 < x -> 0 < arcsinh x.
Proof. intros H. rewrite <- arcsinh_0. now apply arcsinh_lt. Qed.

(** [Math.pow(2, bw / 2)] for the bandwidth of [q] is [exp (asinh (1 / (2 q)))]. *)
Lemma pow2_half_bw (q : R) :
  Rpower 2 (bwFromQ q / 2) = exp (arcsinh (1 / (2 * q))).
Proof.
  unfold Rpower, bwFromQ. f_equal. pose proof ln_2_pos. field. lra.
Qed.

(** The Q recovered from edges [f0 / h] and [f0 * h], with [h = exp a]
    and [a > 0], is [1 / (2 sinh a)], rounded and clamped. *)
Lemma qFromEdge_exp (sd : side) (f0 a : R) :
  0 < f0 -> 0 < a ->
  qFromEdge sd f0 (match sd with left => f0 / exp a | right => f0 * exp a end)
  = Some (storeQR 100 (1 / (2 * sinh a))).
Proof.
  intros Hf Ha.
  pose proof (exp_increasing 0 a Ha) as Hh. rewrite exp_0 in Hh.
  pose proof ln_2_pos as Hln.
  set (h := exp a) in *.
  assert (Hinv : 0 < / h < 1).
  { split; [apply Rinv_0_lt_compat; lra|].
    rewrite <- Rinv_1. apply Rinv_lt_contravar; lra. }
  assert (Hedges : edgesFromEdge sd f0 (match sd with left => f0 / h | right => f0 * h end)
                   = (f0 / h, f0 * h)).
  { destruct sd; unfold edgesFromEdge; f_equal; field; lra. }
  unfold qFromEdge. rewrite Hedges.
  assert (Hlow : f0 / h < f0) by (unfold Rdiv; nra).
  assert (Hhigh : f0 < f0 * h) by nra.
  assert (Hpos : 0 < f0 / h) by (unfold Rdiv; nra).
  destruct (Rle_dec (f0 * h) (f0 / h)); [lra|].
  destruct (Rle_dec (f0 / h) 0); [lra|].
  assert (Hbw : log2 (f0 * h / (f0 / h)) = (a + a) / ln 2).
  { unfold log2. f_equal.
    replace (f0 * h / (f0 / h)) with (h * h) by (field; lra).
    rewrite ln_mult by lra. unfold h. now rewrite ln_exp. }
  rewrite Hbw.
  destruct (Rle_dec ((a + a) / ln 2) 0) as [Hle|_].
  { exfalso. assert (0 < (a + a) / ln 2) by (apply Rdiv_lt_0_compat; lra). lra. }
  replace ((a + a) / ln 2 * ln 2 / 2) with a by (field; lra). reflexivity.
Qed.

(** Rounding to the nearest hundredth and clamping moves a Q of
    [0.1, 10] by at most half a hundredth. *)
Lemma storeQR_close (q : R) :
  1/10 <= q <= 10 -> Rabs (storeQR 100 q - q) <= 1/200.
Proof.
  intros Hq. unfold storeQR.
  pose proof (round_real_bound (q * 100)) as [H1 H2].
  set (r := JS.round_real (q * 100)) in *.
  unfold clampR, Rmax, Rmin.
  repeat (destruct (Rle_dec _ _)); apply Rabs_le; lra.
Qed.

(** C4: for a centre frequency [f0 > 0] and a Q in [0.1, 10], moving
    the right whisker to the high edge of the band of that Q, or the
    left whisker to its low edge, recovers the Q rounded to the nearest
    hundredth (and clamped), which is within 0.005 of the Q started
    from. *)
Theorem bandwidth_round_trip (f0 q : R) :
  0 < f0 -> 1/10 <= q <= 10 ->
  (exists q', qFromEdge right f0 (snd (edgesFromQ f0 q)) = Some q'
              /\ q' = storeQR 100 q /\ Rabs (q' - q) <= 1/200) /\
  (exists q', qFromEdge left f0 (fst (edgesFromQ f0 q)) = Some q'
              /\ q' = storeQR 100 q /\ Rabs (q' - q) <= 1/200).
Proof.
  intros Hf Hq.
  assert (Hx : 0 < 1 / (2 * q)) by (apply Rdiv_lt_0_compat; lra).
  pose proof (arcsinh_pos _ Hx) as Ha.
  assert (Hback : 1 / (2 * sinh (arcsinh (1 / (2 * q)))) = q).
  { rewrite sinh_arcsinh. field. lra. }
  unfold edgesFromQ. simpl. rewrite pow2_half_bw.
  split; exists (storeQR 100 q); (split; [|split; [reflexivity|now apply storeQR_close]]).
  - rewrite (qFromEdge_exp right f0 _ Hf Ha). now rewrite Hback.
  - rewrite (qFromEdge_exp left f0 _ Hf Ha). now rewrite Hback.
Qed.

Lemma bandwidth_round_trip_witness :
  (exists q', qFromEdge right 1000 (snd (edgesFromQ 1000 1)) = Some q'
              /\ q' = storeQR 100 1 /\ Rabs (q' - 1) <= 1/200) /\
  (exists q', qFromEdge left 1000 (fst (edgesFromQ 1000 1)) = Some q'
              /\ q' = storeQR 100 1 /\ Rabs (q' - 1) <= 1/200).
Proof. apply (bandwidth_round_trip 1000 1); lra. Defined.

(** The two edges of a band multiply to the square of its centre. *)
Lemma edgesFromQ_symmetric (f0 q : R) :
  fst (edgesFromQ f0 q) * snd (edgesFromQ f0 q) = f0 * f0.
Proof.
  unfold edgesFromQ. simpl. rewrite pow2_half_bw.
  pose proof (exp_pos (arcsinh (1 / (2 * q)))). field. lra.
Qed.

(** ** Whisker drag *)

Lemma storeQR_bounds (precision q : R) : 1/10 <= storeQR precision q <= 10.
Proof. unfold storeQR. apply clampR_bounds. lra. Qed.

(** What a whisker drag event adds to the log: nothing, or one Q within
    [0.1, 10] and the redraw of the preview. *)
Lemma whiskerDrag_drag_calls (D : deps) (sd : side) (key : nat) (event_x : R) (s : state) :
  calls (whiskerDrag_drag D sd key event_x s) = calls s \/
  exists idx q, 1/10 <= q <= 10 /\
    calls (whiskerDrag_drag D sd key event_x s)
    = calls s ++ [WriteQ idx (Fin q); UpdateEQPreview].
Proof.
  unfold whiskerDrag_drag. destruct (List.find _ _) as [h|]; [|now left].
  destruct (qFromEdge _ _ _) as [newQ|] eqn:Hq; [|now left].
  destruct (in_q (inputs s) !! _); [|now left].
  right. exists (filterIndex (h_datum h)), newQ. split.
  - unfold qFromEdge in Hq. destruct (edgesFromEdge _ _ _) as [fLow fHigh].
    repeat (destruct (Rle_dec _ _); [discriminate|]).
    injection Hq as <-. apply storeQR_bounds.
  - destruct (h_transform h) as [[x y]|]; destruct s; simpl; now rewrite <- app_assoc.
Qed.

(** C5: a whisker drag event whose reconstructed edges cross
    ([fHigh <= fLow]), whose low edge is not positive, or whose
    bandwidth [log2(fHigh / fLow)] is not positive leaves the whole state
    as it was: no Q, frequency or gain is written, and the handle, its
    datum and the tooltip keep their values.  And a whisker drag event
    that does write stores a Q within [0.1, 10], and nothing else. *)
Theorem whiskerDrag_degenerate (D : deps) (sd : side) (key : nat) (event_x : R) (s : state) :
  (forall h fLow fHigh,
      List.find (fun h => Nat.eqb (h_key h) key) (handles s) = Some h ->
      edgesFromEdge sd (whisker_freq h) (whisker_edge D h event_x) = (fLow, fHigh) ->
      fHigh <= fLow \/ fLow <= 0 \/ log2 (fHigh / fLow) <= 0 ->
      whiskerDrag_drag D sd key event_x s = s) /\
  (calls (whiskerDrag_drag D sd key event_x s) = calls s \/
   exists idx q, 1/10 <= q <= 10 /\
     calls (whiskerDrag_drag D sd key event_x s)
     = calls s ++ [WriteQ idx (Fin q); UpdateEQPreview]).
Proof.
  split; [|apply whiskerDrag_drag_calls].
  intros h fLow fHigh Hfind Hedges Hdeg.
  unfold whiskerDrag_drag. rewrite Hfind.
  fold (whisker_freq h). fold (whisker_edge D h event_x).
  unfold qFromEdge. rewrite Hedges.
  destruct (Rle_dec fHigh fLow); [reflexivity|].
  destruct (Rle_dec fLow 0); [reflexivity|].
  destruct (Rle_dec (log2 (fHigh / fLow)) 0); [reflexivity|].
  exfalso. tauto.
Qed.

Lemma whiskerDrag_degenerate_witness :
  whiskerDrag_drag (plain_deps [] []) right 0 (-980) whisker_state = whisker_state.
Proof.
  destruct (whiskerDrag_degenerate (plain_deps [] []) right 0 (-980) whisker_state)
    as [Hdeg _].
  assert (Hf : or_elseR 1000 1000 = 1000) by (unfold or_elseR; rdec; reflexivity).
  apply (Hdeg whisker_handle (1000 * 1000 / 20) 20).
  - reflexivity.
  - unfold whisker_edge, whisker_freq. simpl. rewrite Hf.
    replace (-980 + 1000) with 20 by lra.
    rewrite (clampR_id 20 20000 20) by lra. reflexivity.
  - left. lra.
Defined.

(** ** Rounding of Q *)

Lemma storeQ_Fin (p x : R) : p <> 0 -> storeQ p (Fin x) = Fin (storeQR p x).
Proof.
  intros Hp. unfold storeQ, storeQR. simpl. unfold JS.div.
  destruct (Req_dec_T p 0); [contradiction|]. apply clamp_Fin.
Qed.

Lemma storeQ_Inf (p : R) (b : bool) :
  0 < p -> storeQ p (Inf b) = Fin (if b then 10 else 1/10).
Proof.
  intros Hp. unfold storeQ, JS.mul, JS.div, JS.sign_pos. rdec. simpl.
  destruct b; simpl; rewrite clamp_Inf; [|reflexivity].
  f_equal. unfold Rmax. destruct (Rle_dec _ _); lra.
Qed.

(** What is stored is a whole number of steps [1/p], within [0.1, 10]. *)
Lemma storeQR_multiple (p x : R) :
  p = 10 \/ p = 100 ->
  exists k : Z, storeQR p x = IZR k / p /\ 1/10 <= IZR k / p <= 10.
Proof.
  intros Hp. pose proof (storeQR_bounds p x) as Hb. revert Hb.
  unfold storeQR, JS.round_real. set (k0 := Zfloor (x * p + / 2)).
  unfold clampR, Rmax, Rmin.
  destruct (Rle_dec 10 (IZR k0 / p)), (Rle_dec (1/10) _); intros Hb.
  - destruct Hp as [-> | ->]; [exists 100%Z|exists 1000%Z]; split; lra.
  - lra.
  - exists k0. split; [reflexivity|lra].
  - destruct Hp as [-> | ->]; [exists 1%Z|exists 10%Z]; split; lra.
Qed.

Lemma storeQ_multiple (p : R) (a : num) :
  p = 10 \/ p = 100 -> a <> NaN ->
  exists k : Z, storeQ p a = Fin (IZR k / p) /\ 1/10 <= IZR k / p <= 10.
Proof.
  intros Hp Ha. destruct a as [|b|x]; [congruence| |].
  - rewrite storeQ_Inf by (destruct Hp; lra).
    destruct b, Hp as [-> | ->];
      [exists 100%Z|exists 1000%Z|exists 1%Z|exists 10%Z]; split; try f_equal; lra.
  - rewrite storeQ_Fin by (destruct Hp; lra).
    destruct (storeQR_multiple p x Hp) as (k & -> & Hk). eauto.
Qed.



(** Whatever the wheel writes is a whole number of its steps, tenths in
    coarse mode and hundredths with the modifier held, and whatever a
    whisker drag writes is a whole number of hundredths; both within
    [0.1, 10]. *)
Lemma written_Q_on_grid (idx : nat) (v : num) (s : state) :
  (forall d shiftKey deltaY,
      In (WriteQ idx v) (calls (onWheel d shiftKey deltaY s)) ->
      In (WriteQ idx v) (calls s) \/
      exists k : Z, v = Fin (IZR k / (if shiftKey then 100 else 10))
                    /\ 1/10 <= IZR k / (if shiftKey then 100 else 10) <= 10) /\
  (forall D sd key event_x,
      In (WriteQ idx v) (calls (whiskerDrag_drag D sd key event_x s)) ->
      In (WriteQ idx v) (calls s) \/
      exists k : Z, v = Fin (IZR k / 100) /\ 1/10 <= IZR k / 100 <= 10).
Proof.
  split.
  - intros d shiftKey deltaY. unfold onWheel.
    destruct (enabled s); simpl; [|now left].
    destruct (in_q (inputs s) !! filterIndex d) as [value|]; [|now left].
    set (q := JS.add _ _).
    assert (Hq : q <> NaN).
    { subst q. unfold JS.or_else. destruct (JS.truthy value) eqn:Ht.
      - destruct value; [discriminate| |]; destruct (Rlt_dec deltaY 0); discriminate.
      - destruct (Rlt_dec deltaY 0); discriminate. }
    destruct (storeQ_multiple (if shiftKey then 100 else 10) q) as (k & Hk & Hr);
      [destruct shiftKey; auto|exact Hq|].
    destruct s. simpl. rewrite !in_app_iff. simpl.
    intros [[H|[H|[]]]|[H|[]]]; [now left| |discriminate].
    injection H as _ <-. right. exists k. split; [exact Hk|exact Hr].
  - intros D sd key event_x.
    unfold whiskerDrag_drag. destruct (List.find _ _) as [h|]; [|now left].
    destruct (qFromEdge _ _ _) as [newQ|] eqn:Hq; [|now left].
    destruct (in_q (inputs s) !! _); [|now left].
    assert (HnewQ : exists k : Z, newQ = IZR k / 100 /\ 1/10 <= IZR k / 100 <= 10).
    { unfold qFromEdge in Hq. destruct (edgesFromEdge _ _ _) as [fLow fHigh].
      repeat (destruct (Rle_dec _ _); [discriminate|]).
      injection Hq as <-. apply storeQR_multiple. now right. }
    destruct HnewQ as (k & -> & Hr).
    intros H. assert (H' : In (WriteQ idx v) (calls s) \/
                           WriteQ (filterIndex (h_datum h)) (Fin (IZR k / 100)) = WriteQ idx v).
    { destruct (h_transform h) as [[x y]|]; destruct s; simpl in H;
        rewrite !in_app_iff in H; simpl in H; intuition discriminate. }
    destruct H' as [H'|H']; [now left|]. injection H' as _ <-. right. eauto.
Qed.

Lemma nearest_unique (step x r1 r2 : R) :
  0 < step -> nearest_multiple step x r1 -> nearest_multiple step x r2 -> r1 = r2.
Proof.
  intros Hs [[k1 ->] H1] [[k2 ->] H2].
  assert (Hlt : IZR (k1 - k2) * step < step /\ - step < IZR (k1 - k2) * step)
    by (rewrite minus_IZR; split; lra).
  destruct Hlt as [Hu Hl].
  assert (Hk : (k1 - k2 < 1)%Z).
  { apply lt_IZR. apply (Rmult_lt_reg_r step); [exact Hs|]. lra. }
  assert (Hk' : (-1 < k1 - k2)%Z).
  { apply lt_IZR. apply (Rmult_lt_reg_r step); [exact Hs|]. lra. }
  replace k1 with k2 by lia. reflexivity.
Qed.







(** ** Creating a filter by a click on the graph *)

(** A filter is unassigned: it has no frequency, or the frequency 0. *)
Lemma unassigned_spec (f : eqFilter) :
  unassigned f = true <-> f_freq f = None \/ f_freq f = Some 0.
Proof.
  unfold unassigned. destruct (f_freq f) as [x|]; [|intuition].
  unfold JS.truthy, JS.eq. split.
  - destruct (Req_dec_T x 0) as [->|]; [now right|discriminate].
  - intros [| [= ->]]; [discriminate|]. destruct (Req_dec_T 0 0); [reflexivity|lra].
Qed.

(** [findIndex] is the position of the first element that satisfies the
    predicate, or -1 when none does. *)
Lemma findIndex_from_first {A} (p : A -> bool) (l : list A) (k : Z) (i : nat) (x : A) :
  l !! i = Some x -> p x = true ->
  (forall j y, (j < i)%nat -> l !! j = Some y -> p y = false) ->
  findIndex_from p l k = (k + Z.of_nat i)%Z.
Proof.
  revert k i. induction l as [|a l IH]; intros k i Hx Hp Hfirst; [discriminate|].
  destruct i as [|i]; simpl in *.
  - injection Hx as ->. rewrite Hp. lia.
  - rewrite (Hfirst 0%nat a) by (auto; lia).
    rewrite (IH (k + 1)%Z i Hx Hp); [lia|].
    intros j y Hj Hy. apply (Hfirst (S j) y); [lia|exact Hy].
Qed.

Lemma findIndex_from_none {A} (p : A -> bool) (l : list A) (k : Z) :
  (forall x, In x l -> p x = false) -> findIndex_from p l k = (-1)%Z.
Proof.
  revert k. induction l as [|a l IH]; intros k H; [reflexivity|]. simpl.
  rewrite (H a) by now left. apply IH. intros x Hx. apply H. now right.
Qed.

Lemma at_index_insert {A} (l : list A) (idx : Z) (v : A) :
  is_Some (at_index l idx) -> <[Z.to_nat idx := v]> l !! Z.to_nat idx = Some v.
Proof.
  unfold at_index. destruct (Z.ltb_spec idx 0); intros [x Hx]; [discriminate|].
  apply list_lookup_insert_eq. eapply lookup_lt_Some, Hx.
Qed.

Lemma fill_slot_full (idx : Z) (freq gain : num) (s : state) :
  has_rows idx (inputs s) ->
  exists s', fill_slot idx freq gain s = (s', true) /\
             bands s' = bands s /\
             slot_filled (Z.to_nat idx) freq gain (inputs s') /\
             calls s' = calls s ++ slot_writes (Z.to_nat idx) freq gain.
Proof.
  intros (He & Ht & Hf & Hg & Hq). unfold fill_slot.
  destruct s as [? ? ? ? ? ? ? ? ? ? ? ? ? ? ? ? ? ? [en ty fr ga qs] ?]. simpl in *.
  destruct He as [? He'], Ht as [? Ht'], Hf as [? Hf'], Hg as [? Hg'], Hq as [? Hq'].
  rewrite He', Ht', Hf', Hg', Hq'. eexists. split; [reflexivity|]. simpl.
  split; [reflexivity|]. split.
  - unfold slot_filled. simpl.
    repeat split; apply at_index_insert; eauto.
  - unfold slot_writes. now rewrite <- !app_assoc.
Qed.

(** C9: a graph click that gets as far as creating a filter, of
    frequency [freq] and gain [gain], reuses the first unassigned slot
    (a filter with no frequency or frequency 0), the band count staying
    as it is; with no unassigned filter and the band count below the
    maximum it raises the count by one and fills the new last slot; with
    the count at the maximum it does nothing.  The slot it fills gets
    enabled, type PK, the frequency, the gain and Q 1.  (The fields of
    the slot are taken to exist: for a reused slot among the current
    fields, for a new one after [updateFilterElements].) *)
Theorem graph_click_slot (D : deps) (clientX clientY : R) (s s1 : state)
        (freq : R) (gain : num) :
  click_params D clientX clientY s = (s1, Some (freq, gain)) ->
  let s' := handleGraphClick D clientX clientY s in
  (forall i f,
      filters s !! i = Some f ->
      f_freq f = None \/ f_freq f = Some 0 ->
      (forall j g, (j < i)%nat -> filters s !! j = Some g ->
                   f_freq g <> None /\ f_freq g <> Some 0) ->
      has_rows (Z.of_nat i) (inputs s) ->
      bands s' = bands s /\
      slot_filled i (Fin freq) gain (inputs s') /\
      calls s' = calls s ++ slot_writes i (Fin freq) gain ++ [ApplyEQ]) /\
  ((forall f, In f (filters s) -> f_freq f <> None /\ f_freq f <> Some 0) ->
   ((bands s < getBandsMax D)%Z ->
    has_rows (bands s) (updateFilterElements D (bands s + 1)%Z (inputs s)) ->
    bands s' = (bands s + 1)%Z /\
    slot_filled (Z.to_nat (bands s)) (Fin freq) gain (inputs s') /\
    calls s' = calls s ++ [SetBands (bands s + 1)%Z; CallUpdateFilterElements]
                       ++ slot_writes (Z.to_nat (bands s)) (Fin freq) gain ++ [ApplyEQ]) /\
   ((getBandsMax D <= bands s)%Z ->
    bands s' = bands s /\ inputs s' = inputs s /\ calls s' = calls s)).
Proof.
  intros Hc s'. subst s'. unfold handleGraphClick.
  destruct (click_params_frame D clientX clientY s) as (Hcalls & Hbands & Hfilters & Hinputs).
  rewrite Hc in *. simpl in Hcalls, Hbands, Hfilters, Hinputs.
  assert (Hfinish : forall idx s2,
             has_rows idx (inputs s2) ->
             let '(s3, ok) := fill_slot idx (Fin freq) gain s2 in
             let s' := if ok then updateEQHandles D (do_call s3 ApplyEQ) else s3 in
             bands s' = bands s2 /\
             slot_filled (Z.to_nat idx) (Fin freq) gain (inputs s') /\
             calls s' = calls s2 ++ slot_writes (Z.to_nat idx) (Fin freq) gain ++ [ApplyEQ]).
  { intros idx s2 Hrows.
    destruct (fill_slot_full idx (Fin freq) gain s2 Hrows) as (s3 & -> & Hb & Hsl & Hcl).
    cbv beta iota zeta.
    destruct (updateEQHandles_frame D (do_call s3 ApplyEQ))
      as (_ & _ & _ & _ & _ & _ & -> & -> & -> & _).
    destruct s3; simpl in *. subst. rewrite <- app_assoc. auto. }
  split.
  - intros i f Hf Hun Hfirst Hrows. unfold claim_slot.
    assert (Hidx : findIndex unassigned (filters s1) = Z.of_nat i).
    { rewrite Hfilters. unfold findIndex.
      rewrite (findIndex_from_first unassigned (filters s) 0 i f Hf); [lia| |].
      - now apply unassigned_spec.
      - intros j g Hj Hg. destruct (unassigned g) eqn:Hu; [|reflexivity].
        apply unassigned_spec in Hu. destruct (Hfirst j g Hj Hg). tauto. }
    rewrite Hidx. destruct (Z.eqb_spec (Z.of_nat i) (-1)); [lia|].
    rewrite <- Hinputs in Hrows. specialize (Hfinish (Z.of_nat i) s1 Hrows).
    destruct (fill_slot (Z.of_nat i) (Fin freq) gain s1) as [s3 ok].
    rewrite Nat2Z.id in Hfinish.
    destruct ok; now rewrite <- Hbands, <- Hcalls.
  - intros Hnone.
    assert (Hidx : findIndex unassigned (filters s1) = (-1)%Z).
    { rewrite Hfilters. apply findIndex_from_none. intros f Hf.
      destruct (unassigned f) eqn:Hu; [|reflexivity].
      apply unassigned_spec in Hu. destruct (Hnone f Hf). tauto. }
    unfold claim_slot. rewrite Hidx. simpl. rewrite Hbands. split.
    + intros Hlt Hrows. destruct (Z.ltb_spec (bands s) (getBandsMax D)); [|lia].
      match goal with |- context [fill_slot _ _ _ ?t] => set (s2 := t) end.
      assert (Hs2 : inputs s2 = updateFilterElements D (bands s + 1) (inputs s) /\
                    bands s2 = (bands s + 1)%Z /\
                    calls s2 = calls s ++ [SetBands (bands s + 1)%Z; CallUpdateFilterElements]).
      { subst s2. rewrite <- Hinputs, <- Hcalls. destruct s1. simpl.
        now rewrite <- app_assoc. }
      destruct Hs2 as (Hi2 & Hb2 & Hc2). rewrite <- Hi2 in Hrows.
      specialize (Hfinish (bands s) s2 Hrows).
      destruct (fill_slot (bands s) (Fin freq) gain s2) as [s3 ok].
      rewrite Hb2, Hc2, <- app_assoc in Hfinish. destruct ok; exact Hfinish.
    + intros Hge. destruct (Z.ltb_spec (bands s) (getBandsMax D)); [lia|]. auto.
Qed.

(** A click at (1000, 8) with no phone to select: 1000 Hz, and 2 dB
    above the middle of the gain axis. *)
Lemma click_params_plain (fs : list eqFilter) (n : Z) (fi : filterInputs) :
  click_params (plain_deps [] []) 1000 8 (enabled_over fs n fi)
  = (enabled_over fs n fi, Some (1000, Fin 2)).
Proof.
  unfold click_params, enabled_over. simpl. rdec.
  assert (Hf : clampR 20 20000 (JS.round_real 1000) = 1000).
  { rewrite (round_real_int 1000). apply clampR_id. lra. }
  assert (Hg : gain_at (plain_deps [] []) (10 - 8) None = Fin 2).
  { rewrite gain_at_midpoint. simpl. f_equal.
    rewrite (round_real_eq 20) by lra.
    replace (20 / 10) with 2 by lra. apply clampR_id. lra. }
  rewrite Hf, Hg. reflexivity.
Qed.

(** The click on a host with no filter and no band raises the band
    count to 1 and fills slot 0; on a host whose second filter is
    unassigned it fills slot 1 and leaves the band count at 2. *)
Lemma graph_click_slot_witness :
  (let s' := handleGraphClick (plain_deps [] []) 1000 8 (enabled_over [] 0 no_rows) in
   bands s' = 1%Z /\
   slot_filled 0 (Fin 1000) (Fin 2) (inputs s') /\
   calls s' = [SetBands 1; CallUpdateFilterElements]
                ++ slot_writes 0 (Fin 1000) (Fin 2) ++ [ApplyEQ]) /\
  (let s' := handleGraphClick (plain_deps [] []) 1000 8 (enabled_over two_filters 2 two_rows) in
   bands s' = 2%Z /\
   slot_filled 1 (Fin 1000) (Fin 2) (inputs s') /\
   calls s' = slot_writes 1 (Fin 1000) (Fin 2) ++ [ApplyEQ]).
Proof.
  split.
  - destruct (graph_click_slot (plain_deps [] []) 1000 8 (enabled_over [] 0 no_rows)
                (enabled_over [] 0 no_rows) 1000 (Fin 2)
                (click_params_plain [] 0 no_rows)) as [_ Hgrow].
    destruct Hgrow as [Hgrow _]; [intros f []|].
    apply Hgrow; [reflexivity|].
    repeat split; eexists; reflexivity.
  - destruct (graph_click_slot (plain_deps [] []) 1000 8 (enabled_over two_filters 2 two_rows)
                (enabled_over two_filters 2 two_rows) 1000 (Fin 2)
                (click_params_plain two_filters 2 two_rows)) as [Hreuse _].
    apply (Hreuse 1%nat (MkFilter true "PK" (Some 0) 0 0)).
    + reflexivity.
    + now right.
    + intros [|j] g Hj; [|lia]. intros [= <-]. simpl. split; [discriminate|].
      intros [= H]. lra.
    + repeat split; eexists; reflexivity.
Defined.

(** A gesture that does cross the threshold: pressed at (990, 8), moved
    10 pixels to (1000, 8), one frame, released.  The frame writes
    1000 Hz and 2 dB, and the release commits. *)
Example gesture_crossing :
  calls (gesture (plain_deps [] []) (Datum false "PK" 500 0 1 0) 990 8
                 [EvMove 1000 8; EvFrame] pressing_state)
  = [WriteFreq 0 (Fin 1000); WriteGain 0 (Fin 2); UpdateEQPreview; ApplyEQ].
Proof.
  unfold gesture, startDrag, pressing_state, dragging_state. simpl.
  unfold session_onMove. simpl.
  destruct (Rlt_dec (hypot (1000 - 990) (8 - 8)) 5) as [Hlt|_].
  { exfalso. assert (5 <= hypot (1000 - 990) (8 - 8)) by (apply hypot_ge_5; lra). lra. }
  simpl. unfold runFrame. simpl.
  assert (Hf : clampR 20 20000 (JS.round_real 1000) = 1000).
  { rewrite (round_real_int 1000). apply clampR_id. lra. }
  assert (Hg : gain_at (plain_deps [] []) (10 - 8) None = Fin 2).
  { rewrite gain_at_midpoint. simpl. f_equal.
    rewrite (round_real_eq 20) by lra.
    replace (20 / 10) with 2 by lra. apply clampR_id. lra. }
  rewrite Hf, Hg. reflexivity.
Qed.

(** * Further properties of the code *)

(** ** Radius and band edges *)

Lemma log10_tenth : log10 (1/10) = -1.
Proof.
  unfold log10. replace (1/10) with (/ 10) by lra.
  rewrite ln_Rinv by lra.
  assert (0 < ln 10) by (rewrite <- ln_1; apply ln_increasing; lra).
  field. lra.
Qed.

Lemma log10_ten : log10 10 = 1.
Proof.
  unfold log10.
  assert (0 < ln 10) by (rewrite <- ln_1; apply ln_increasing; lra).
  field. lra.
Qed.

Lemma log10_le (x y : R) : 0 < x -> x <= y -> log10 x <= log10 y.
Proof.
  intros Hx Hxy. unfold log10.
  assert (0 < ln 10) by (rewrite <- ln_1; apply ln_increasing; lra).
  apply Rmult_le_compat_r; [left; now apply Rinv_0_lt_compat|].
  destruct Hxy as [Hlt| ->]; [left; now apply ln_increasing|right; reflexivity].
Qed.

Lemma clampR_le (lo hi x y : R) : x <= y -> clampR lo hi x <= clampR lo hi y.
Proof.
  intros H. unfold clampR, Rmax, Rmin.
  repeat (destruct (Rle_dec _ _)); lra.
Qed.

(** X1: the radius of a handle lies between 12 and 28 and does not grow
    with Q: for [0 < q1 <= q2] the radius of [q2] is at most that of
    [q1]; a Q of 0.1 or less gives 28 and a Q of 10 or more gives 12. *)
Theorem qToRadius_monotone (q1 q2 : R) :
  0 < q1 -> q1 <= q2 ->
  12 <= qToRadius q2 <= qToRadius q1 /\ qToRadius q1 <= 28 /\
  (q1 <= 1/10 -> qToRadius q1 = 28) /\
  (10 <= q2 -> qToRadius q2 = 12).
Proof.
  intros H1 H12. unfold qToRadius, or_elseR.
  destruct (Req_dec_T q1 0); [lra|]. destruct (Req_dec_T q2 0); [lra|].
  pose proof (clampR_bounds (1/10) 10 q1 ltac:(lra)) as [Ha1 Ha2].
  pose proof (clampR_bounds (1/10) 10 q2 ltac:(lra)) as [Hb1 Hb2].
  pose proof (clampR_le (1/10) 10 q1 q2 H12) as Hc.
  assert (L1 : log10 (1/10) <= log10 (clampR (1/10) 10 q1)) by (apply log10_le; lra).
  rewrite log10_tenth in L1.
  assert (L2 : log10 (clampR (1/10) 10 q2) <= log10 10) by (apply log10_le; lra).
  rewrite log10_ten in L2.
  assert (L3 : log10 (clampR (1/10) 10 q1) <= log10 (clampR (1/10) 10 q2))
    by (apply log10_le; lra).
  repeat split; try lra.
  - intros Hq. replace (clampR (1/10) 10 q1) with (1/10).
    + rewrite log10_tenth. lra.
    + unfold clampR, Rmax, Rmin. repeat (destruct (Rle_dec _ _)); lra.
  - intros Hq. replace (clampR (1/10) 10 q2) with 10.
    + rewrite log10_ten. lra.
    + unfold clampR, Rmax, Rmin. repeat (destruct (Rle_dec _ _)); lra.
Qed.

Lemma qToRadius_monotone_witness :
  12 <= qToRadius 2 <= qToRadius 1 /\ qToRadius 1 <= 28 /\
  (1 <= 1/10 -> qToRadius 1 = 28) /\
  (10 <= 2 -> qToRadius 2 = 12).
Proof. apply (qToRadius_monotone 1 2); lra. Defined.

(** [exp (asinh x)] is [x + sqrt (x^2 + 1)], above [1 + x] for a
    positive [x]. *)
Lemma exp_arcsinh_above (x : R) : 0 < x -> 1 + x < exp (arcsinh x).
Proof.
  intros Hx. unfold arcsinh.
  assert (Hs : 1 < sqrt (x ^ 2 + 1)).
  { rewrite <- sqrt_1 at 1. apply sqrt_lt_1; nra. }
  rewrite exp_ln by lra. lra.
Qed.

(** X2: the band is at least as wide as its Q says.  For a positive
    centre [f0] and a Q in [0.1, 10], the range of Q the module stores,
    the high edge lies above [f0 * (1 + 1/(2Q))] and the low edge,
    which is positive, below [f0 / (1 + 1/(2Q))]: the edges lie on
    either side of the centre, each more than the factor [1 + 1/(2Q)]
    away from it. *)
Theorem edgesFromQ_around_centre (f0 q : R) :
  0 < f0 -> 1/10 <= q <= 10 ->
  0 < fst (edgesFromQ f0 q) /\
  fst (edgesFromQ f0 q) * (1 + 1 / (2 * q)) < f0 /\
  f0 * (1 + 1 / (2 * q)) < snd (edgesFromQ f0 q).
Proof.
  intros Hf [Hq _]. unfold edgesFromQ. simpl. rewrite pow2_half_bw.
  assert (Hx : 0 < 1 / (2 * q)) by (apply Rdiv_lt_0_compat; lra).
  pose proof (exp_arcsinh_above _ Hx) as Hh.
  set (x := 1 / (2 * q)) in *. set (h := exp (arcsinh x)) in *.
  assert (Hpos : 0 < h) by lra.
  assert (Hinv : 0 < / h) by now apply Rinv_0_lt_compat.
  split; [unfold Rdiv; now apply Rmult_lt_0_compat|]. split.
  - unfold Rdiv. apply (Rmult_lt_reg_r h); [exact Hpos|].
    replace (f0 * / h * (1 + x) * h) with (f0 * (1 + x) * (/ h * h)) by ring.
    rewrite Rinv_l by lra. rewrite Rmult_1_r.
    apply Rmult_lt_compat_l; lra.
  - apply Rmult_lt_compat_l; lra.
Qed.

Lemma edgesFromQ_around_centre_witness :
  0 < fst (edgesFromQ 1000 1) /\
  fst (edgesFromQ 1000 1) * (1 + 1 / (2 * 1)) < 1000 /\
  1000 * (1 + 1 / (2 * 1)) < snd (edgesFromQ 1000 1).
Proof. apply (edgesFromQ_around_centre 1000 1); lra. Defined.

(** X3: a higher Q gives a narrower band: for a positive centre and
    [0 < q1 < q2] the low edge of [q2] is above that of [q1] and its high
    edge below. *)
Theorem edgesFromQ_narrower (f0 q1 q2 : R) :
  0 < f0 -> 0 < q1 -> q1 < q2 ->
  fst (edgesFromQ f0 q1) < fst (edgesFromQ f0 q2) /\
  snd (edgesFromQ f0 q2) < snd (edgesFromQ f0 q1).
Proof.
  intros Hf H1 H12. unfold edgesFromQ. simpl. rewrite !pow2_half_bw.
  assert (Hx : 1 / (2 * q2) < 1 / (2 * q1)).
  { unfold Rdiv. rewrite !Rmult_1_l. apply Rinv_lt_contravar; nra. }
  pose proof (arcsinh_lt _ _ Hx) as Ha.
  pose proof (exp_increasing _ _ Ha) as Hh.
  pose proof (exp_pos (arcsinh (1 / (2 * q2)))) as Hp.
  set (h1 := exp (arcsinh (1 / (2 * q1)))) in *.
  set (h2 := exp (arcsinh (1 / (2 * q2)))) in *.
  split; [|nra].
  unfold Rdiv. apply Rmult_lt_compat_l; [lra|].
  apply Rinv_lt_contravar; nra.
Qed.

Lemma edgesFromQ_narrower_witness :
  fst (edgesFromQ 1000 1) < fst (edgesFromQ 1000 2) /\
  snd (edgesFromQ 1000 2) < snd (edgesFromQ 1000 1).
Proof. apply (edgesFromQ_narrower 1000 1 2); lra. Defined.

(** ** Sampling a curve *)

Lemma ascending_lt (data : list point) (i j : nat) (pi pj : point) :
  ascending data -> (i < j)%nat ->
  data !! i = Some pi -> data !! j = Some pj -> p_freq pi < p_freq pj.
Proof.
  intros Hasc Hij Hi. revert pj. induction j as [|j IH]; intros pj Hj; [lia|].
  destruct (lookup_lt_is_Some_2 data j) as [pm Hm];
    [apply lookup_lt_Some in Hj; lia|].
  pose proof (Hasc j pm pj Hm Hj) as Hstep.
  destruct (decide (i = j)) as [->|Hne].
  - rewrite Hi in Hm. injection Hm as ->. exact Hstep.
  - assert (p_freq pi < p_freq pm) by (apply IH; [lia|exact Hm]). lra.
Qed.

(** The index the sampler settles on. *)
Lemma sample_index_found (data : list point) (f : R) (n : nat) (p : point) :
  data !! n = Some p -> f <= p_freq p ->
  (forall j q, (j < n)%nat -> data !! j = Some q -> p_freq q < f) ->
  findIndex (fun d => JS.ge (Fin (p_freq d)) (Fin f)) data = Z.of_nat n.
Proof.
  intros Hn Hle Hbefore. unfold findIndex.
  rewrite (findIndex_from_first _ data 0 n p Hn); [lia| |].
  - unfold JS.ge, JS.le. destruct (Rle_dec f (p_freq p)); [reflexivity|lra].
  - intros j q Hj Hq. unfold JS.ge, JS.le.
    pose proof (Hbefore j q Hj Hq). destruct (Rle_dec f (p_freq q)); [lra|reflexivity].
Qed.


(** The value between two samples, when the index is that of the second. *)
Lemma sample_between (D : deps) (ph : phone) (c : list point) (f : R)
      (n : nat) (p1 p2 : point) :
  pick_curveData ph = Some (DataArr c) ->
  baseline_fn D c !! n = Some p1 -> baseline_fn D c !! S n = Some p2 ->
  p_freq p1 <> p_freq p2 ->
  (let i0 := findIndex (fun d => JS.ge (Fin (p_freq d)) (Fin f)) (baseline_fn D c) in
   if (i0 <? 0)%Z then (Z.of_nat (length (baseline_fn D c)) - 1)%Z else i0)
  = Z.of_nat (S n) ->
  samplePhoneCurveAt D (Some ph) (Fin f)
  = Returned (Some (Fin (p_level p1
                         + (f - p_freq p1) / (p_freq p2 - p_freq p1)
                           * (p_level p2 - p_level p1)
                         + getOffset D ph))).
Proof.
  intros Hp H1 H2 Hne Hidx. unfold samplePhoneCurveAt. rewrite Hp.
  cbv zeta in *. rewrite Hidx.
  destruct (Z.eqb_spec (Z.of_nat (S n)) 0); [lia|].
  unfold at_index.
  destruct (Z.ltb_spec (Z.of_nat (S n) - 1) 0); [lia|].
  destruct (Z.ltb_spec (Z.of_nat (S n)) 0); [lia|].
  replace (Z.to_nat (Z.of_nat (S n) - 1)) with n by lia.
  rewrite Nat2Z.id, H1, H2. simpl.
  unfold JS.div, JS.sub, JS.add, JS.neg, JS.mul.
  destruct (Req_dec_T (p_freq p2 + - p_freq p1) 0); [lra|].
  do 3 f_equal.
Qed.

(** In exact arithmetic, sampling a curve sorted by frequency at the
    frequency of one of its samples gives that sample's level plus the
    offset. *)
Lemma sample_on_sample_exact (D : deps) (ph : phone) (c : list point)
      (i : nat) (p : point) :
  pick_curveData ph = Some (DataArr c) ->
  ascending (baseline_fn D c) ->
  baseline_fn D c !! i = Some p ->
  samplePhoneCurveAt D (Some ph) (Fin (p_freq p))
  = Returned (Some (Fin (p_level p + getOffset D ph))).
Proof.
  intros Hp Hasc Hi.
  assert (Hidx : findIndex (fun d => JS.ge (Fin (p_freq d)) (Fin (p_freq p)))
                           (baseline_fn D c) = Z.of_nat i).
  { apply (sample_index_found _ _ i p Hi); [lra|].
    intros j q Hj Hq. exact (ascending_lt _ j i q p Hasc Hj Hq Hi). }
  destruct i as [|n].
  - unfold samplePhoneCurveAt. rewrite Hp. cbv zeta. rewrite Hidx. simpl.
    change (at_index (baseline_fn D c) 0) with (baseline_fn D c !! 0%nat).
    rewrite Hi. reflexivity.
  - destruct (lookup_lt_is_Some_2 (baseline_fn D c) n) as [p1 H1];
      [apply lookup_lt_Some in Hi; lia|].
    pose proof (Hasc n p1 p H1 Hi) as Hlt.
    rewrite (sample_between D ph c (p_freq p) n p1 p Hp H1 Hi); [|lra|].
    + do 3 f_equal. field. lra.
    + cbv zeta. rewrite Hidx. destruct (Z.ltb_spec (Z.of_nat (S n)) 0); [lia|reflexivity].
Qed.

(** X4: on a curve sorted by frequency, sampling at the frequency of one
    of its samples returns a real number that is that sample's level
    plus the offset up to rounding: within [M / 10^9] of it, for [M] a
    bound on the levels of the curve and on the offset.  (The sampler
    computes [p1 + 1 * (p2 - p1)] there, which binary64 rounds; the
    arithmetic of this model is exact.) *)
Theorem samplePhoneCurveAt_on_sample (D : deps) (ph : phone) (c : list point)
        (i : nat) (p : point) (M : R) :
  pick_curveData ph = Some (DataArr c) ->
  ascending (baseline_fn D c) ->
  baseline_fn D c !! i = Some p ->
  (forall q, In q (baseline_fn D c) -> Rabs (p_level q) <= M) ->
  Rabs (getOffset D ph) <= M ->
  exists v,
    samplePhoneCurveAt D (Some ph) (Fin (p_freq p)) = Returned (Some (Fin v)) /\
    Rabs (v - (p_level p + getOffset D ph)) <= M / 1000000000.
Proof.
  intros Hp Hasc Hi Hlev Hoff.
  exists (p_level p + getOffset D ph).
  split; [exact (sample_on_sample_exact D ph c i p Hp Hasc Hi)|].
  pose proof (Rabs_pos (getOffset D ph)).
  replace (p_level p + getOffset D ph - (p_level p + getOffset D ph)) with 0 by ring.
  rewrite Rabs_R0. lra.
Qed.

Lemma samplePhoneCurveAt_on_sample_witness :
  exists v,
    samplePhoneCurveAt (plain_deps [phone_three] []) (Some phone_three)
                       (Fin (p_freq (Point 1000 3)))
    = Returned (Some (Fin v)) /\
    Rabs (v - (p_level (Point 1000 3)
               + getOffset (plain_deps [phone_three] []) phone_three))
    <= 3 / 1000000000.
Proof.
  apply (samplePhoneCurveAt_on_sample (plain_deps [phone_three] []) phone_three
           [Point 20 0; Point 1000 3; Point 20000 0] 1 (Point 1000 3) 3).
  - reflexivity.
  - apply (plain_deps_sorted phone_three); [now left|reflexivity].
  - reflexivity.
  - simpl. intros q [<-|[<-|[<-|[]]]]; simpl;
      rewrite ?Rabs_R0; rewrite ?(Rabs_right 3) by lra; lra.
  - simpl. rewrite Rabs_R0. lra.
Defined.

(** X5: at or below the frequency of the first sample the sampler
    returns the first sample's level plus the offset, whatever follows in
    the curve: it does not extrapolate downwards. *)
Theorem samplePhoneCurveAt_below_range (D : deps) (ph : phone) (c : list point)
        (p0 : point) (rest : list point) (f : R) :
  pick_curveData ph = Some (DataArr c) ->
  baseline_fn D c = p0 :: rest ->
  f <= p_freq p0 ->
  samplePhoneCurveAt D (Some ph) (Fin f)
  = Returned (Some (Fin (p_level p0 + getOffset D ph))).
Proof.
  intros Hp Hd Hf. unfold samplePhoneCurveAt. rewrite Hp, Hd. cbv zeta.
  unfold findIndex. simpl. unfold JS.ge, JS.le.
  destruct (Rle_dec f (p_freq p0)); [|lra]. reflexivity.
Qed.

Lemma samplePhoneCurveAt_below_range_witness :
  samplePhoneCurveAt (plain_deps [phone_three] []) (Some phone_three) (Fin 10)
  = Returned (Some (Fin (p_level (Point 20 0)
                         + getOffset (plain_deps [phone_three] []) phone_three))).
Proof.
  apply (samplePhoneCurveAt_below_range (plain_deps [phone_three] []) phone_three
           [Point 20 0; Point 1000 3; Point 20000 0] (Point 20 0)
           [Point 1000 3; Point 20000 0] 10).
  - reflexivity.
  - reflexivity.
  - simpl. lra.
Defined.

(** In exact arithmetic, on a curve sorted by frequency, a frequency
    above one sample and at most the next gets the level on the
    straight line between the two plus the offset, and that level lies
    between the two samples' levels. *)
Lemma sample_interpolates_exact (D : deps) (ph : phone) (c : list point)
      (n : nat) (p1 p2 : point) (f : R) :
  pick_curveData ph = Some (DataArr c) ->
  ascending (baseline_fn D c) ->
  baseline_fn D c !! n = Some p1 -> baseline_fn D c !! S n = Some p2 ->
  p_freq p1 < f <= p_freq p2 ->
  exists v,
    samplePhoneCurveAt D (Some ph) (Fin f) = Returned (Some (Fin (v + getOffset D ph))) /\
    v = p_level p1 + (f - p_freq p1) / (p_freq p2 - p_freq p1) * (p_level p2 - p_level p1) /\
    Rmin (p_level p1) (p_level p2) <= v <= Rmax (p_level p1) (p_level p2).
Proof.
  intros Hp Hasc H1 H2 [Hlo Hhi].
  eexists. split; [|split; [reflexivity|]].
  - apply (sample_between D ph c f n p1 p2 Hp H1 H2); [lra|].
    cbv zeta. rewrite (sample_index_found _ f (S n) p2 H2 Hhi).
    + destruct (Z.ltb_spec (Z.of_nat (S n)) 0); [lia|reflexivity].
    + intros j q Hj Hq. destruct (decide (j = n)) as [->|Hne].
      * rewrite H1 in Hq. injection Hq as <-. exact Hlo.
      * assert (p_freq q < p_freq p1)
          by (apply (ascending_lt _ j n q p1 Hasc); [lia|exact Hq|exact H1]).
        lra.
  - set (t := (f - p_freq p1) / (p_freq p2 - p_freq p1)).
    assert (Ht : 0 <= t <= 1).
    { unfold t. split.
      - apply Rmult_le_pos; [lra|]. left. apply Rinv_0_lt_compat. lra.
      - apply (Rmult_le_reg_r (p_freq p2 - p_freq p1)); [lra|].
        unfold Rdiv. rewrite Rmult_assoc, Rinv_l by lra. lra. }
    unfold Rmin, Rmax. destruct (Rle_dec (p_level p1) (p_level p2)); nra.
Qed.

(** X6: on a curve sorted by frequency, a frequency above one sample and
    at most the next gets the level the code's formula
    [p1 + (f - f1) / (f2 - f1) * (p2 - p1)] gives, plus the offset: the
    straight line between the two samples.  That level lies between the
    two samples' levels up to rounding, within [(|p1| + |p2|) / 10^9]
    beyond either.  (At [f = f2] binary64 can leave the line's end by a
    unit in the last place; the arithmetic of this model is exact.) *)
Theorem samplePhoneCurveAt_interpolates (D : deps) (ph : phone) (c : list point)
        (n : nat) (p1 p2 : point) (f : R) :
  pick_curveData ph = Some (DataArr c) ->
  ascending (baseline_fn D c) ->
  baseline_fn D c !! n = Some p1 -> baseline_fn D c !! S n = Some p2 ->
  p_freq p1 < f <= p_freq p2 ->
  exists v,
    samplePhoneCurveAt D (Some ph) (Fin f) = Returned (Some (Fin (v + getOffset D ph))) /\
    v = p_level p1 + (f - p_freq p1) / (p_freq p2 - p_freq p1) * (p_level p2 - p_level p1) /\
    Rmin (p_level p1) (p_level p2) - (Rabs (p_level p1) + Rabs (p_level p2)) / 1000000000
    <= v
    <= Rmax (p_level p1) (p_level p2) + (Rabs (p_level p1) + Rabs (p_level p2)) / 1000000000.
Proof.
  intros Hp Hasc H1 H2 Hf.
  destruct (sample_interpolates_exact D ph c n p1 p2 f Hp Hasc H1 H2 Hf)
    as (v & Hs & Hv & Hlo & Hhi).
  exists v. split; [exact Hs|]. split; [exact Hv|].
  pose proof (Rabs_pos (p_level p1)). pose proof (Rabs_pos (p_level p2)). lra.
Qed.

Lemma samplePhoneCurveAt_interpolates_witness :
  exists v,
    samplePhoneCurveAt (plain_deps [phone_three] []) (Some phone_three) (Fin 500)
    = Returned (Some (Fin (v + getOffset (plain_deps [phone_three] []) phone_three))) /\
    v = p_level (Point 20 0)
        + (500 - p_freq (Point 20 0)) / (p_freq (Point 1000 3) - p_freq (Point 20 0))
          * (p_level (Point 1000 3) - p_level (Point 20 0)) /\
    Rmin (p_level (Point 20 0)) (p_level (Point 1000 3))
    - (Rabs (p_level (Point 20 0)) + Rabs (p_level (Point 1000 3))) / 1000000000
    <= v
    <= Rmax (p_level (Point 20 0)) (p_level (Point 1000 3))
       + (Rabs (p_level (Point 20 0)) + Rabs (p_level (Point 1000 3))) / 1000000000.
Proof.
  apply (samplePhoneCurveAt_interpolates (plain_deps [phone_three] []) phone_three
           [Point 20 0; Point 1000 3; Point 20000 0] 0 (Point 20 0) (Point 1000 3) 500).
  - reflexivity.
  - apply (plain_deps_sorted phone_three); [now left|reflexivity].
  - reflexivity.
  - reflexivity.
  - simpl. lra.
Defined.



(** X8: the three outcomes of the sampler.  It returns [null] exactly
    when there is no phone or the phone has no array of samples, throws
    exactly when the baseline makes the array empty, and returns a
    number in every other case. *)
Theorem samplePhoneCurveAt_outcomes (D : deps) (phoneObj : option phone) (freq : num) :
  (samplePhoneCurveAt D phoneObj freq = Returned None <->
   match phoneObj with
   | None => True
   | Some ph => pick_curveData ph = None \/ pick_curveData ph = Some DataObj
   end) /\
  (samplePhoneCurveAt D phoneObj freq = Threw <->
   exists ph c, phoneObj = Some ph /\ pick_curveData ph = Some (DataArr c)
                /\ baseline_fn D c = []) /\
  ((exists v, samplePhoneCurveAt D phoneObj freq = Returned (Some v)) <->
   exists ph c, phoneObj = Some ph /\ pick_curveData ph = Some (DataArr c)
                /\ baseline_fn D c <> []).
Proof.
  pose proof (samplePhoneCurveAt_throws D phoneObj freq) as Hthrow.
  assert (Hsome : forall ph c,
             phoneObj = Some ph -> pick_curveData ph = Some (DataArr c) ->
             samplePhoneCurveAt D phoneObj freq <> Returned None).
  { intros ph c -> Hp. unfold samplePhoneCurveAt. rewrite Hp. cbv zeta.
    destruct (_ =? 0)%Z;
      repeat (match goal with |- context [read_point ?x] => destruct x; simpl end);
      intros H0; discriminate H0. }
  split; [|split; [exact Hthrow|]].
  - split; [|apply samplePhoneCurveAt_no_curve].
    destruct phoneObj as [ph|]; [|trivial].
    destruct (pick_curveData ph) as [[c|]|] eqn:Hp; auto.
    intros H. exfalso. exact (Hsome ph c eq_refl Hp H).
  - split.
    + intros [v Hv]. destruct phoneObj as [ph|]; [|discriminate].
      destruct (pick_curveData ph) as [[c|]|] eqn:Hp;
        try (unfold samplePhoneCurveAt in Hv; rewrite Hp in Hv; discriminate).
      exists ph, c. repeat split; [exact Hp|]. intros He.
      assert (samplePhoneCurveAt D (Some ph) freq = Threw)
        by (apply Hthrow; eauto). congruence.
    + intros (ph & c & -> & Hp & Hne).
      destruct (samplePhoneCurveAt D (Some ph) freq) as [|[v|]] eqn:Hs.
      * exfalso.
        apply (samplePhoneCurveAt_throws D (Some ph) freq)
          in Hs as (ph' & c' & [= <-] & Hp' & He).
        congruence.
      * eauto.
      * exfalso. exact (Hsome ph c eq_refl Hp eq_refl).
Qed.

(** ** What the drag frame and the graph click write *)

Lemma clamped_round_integer (x : R) :
  exists k : Z, clampR 20 20000 (JS.round_real x) = IZR k /\ (20 <= k <= 20000)%Z.
Proof.
  pose proof (clampR_bounds 20 20000 (JS.round_real x) ltac:(lra)) as Hb. revert Hb.
  unfold JS.round_real. set (k0 := Zfloor (x + / 2)).
  unfold clampR, Rmax, Rmin.
  destruct (Rle_dec 20000 (IZR k0)), (Rle_dec 20 _); intros Hb.
  - exists 20000%Z. split; [reflexivity|lia].
  - lra.
  - exists k0. split; [reflexivity|]. split; apply le_IZR; lra.
  - exists 20%Z. split; [reflexivity|lia].
Qed.

Lemma runFrame_freq_writes (D : deps) (s : state) (idx : nat) (v : num) :
  In (WriteFreq idx v) (calls (runFrame D s)) ->
  In (WriteFreq idx v) (calls s) \/
  exists x, v = Fin (clampR 20 20000 (JS.round_real x)).
Proof.
  unfold runFrame. destruct (pendingFrame s) as [job|] eqn:Hp; [|now left].
  destruct (screen_to_svg D (job_cx job) (job_cy job)) as [x y].
  destruct (samplePhoneCurveAt D _ _) as [|curveY] eqn:Hs.
  { destruct s; simpl; now left. }
  intros H. destruct s. simpl in *.
  destruct (in_freq inputs0 !! job_filterIndex job); simpl in H.
  all: destruct (in_gain inputs0 !! job_filterIndex job); simpl in H.
  all: rewrite ?in_app_iff in H; simpl in H.
  all: repeat (destruct H as [H|H]); try discriminate; try tauto.
  all: injection H as <- <-; right; eauto.
Qed.

Lemma click_params_freq (D : deps) (clientX clientY : R) (s s1 : state)
      (freq : R) (gain : num) :
  click_params D clientX clientY s = (s1, Some (freq, gain)) ->
  exists x, freq = clampR 20 20000 (JS.round_real x).
Proof.
  unfold click_params.
  destruct (negb (enabled s) || isDragging s || justDeletedFilter s); [discriminate|].
  destruct (screen_to_svg D clientX clientY) as [x y].
  repeat (destruct (Rlt_dec _ _); [discriminate|]).
  destruct (samplePhoneCurveAt D _ _); [discriminate|].
  intros [= <- <- <-]. eauto.
Qed.

(** What a graph click adds to the log: nothing, or the band-count calls
    and then some of the five assignments and [applyEQ]. *)
Lemma handleGraphClick_calls (D : deps) (clientX clientY : R) (s : state) :
  calls (handleGraphClick D clientX clientY s) = calls s \/
  exists s1 freq gain i pre n post,
    click_params D clientX clientY s = (s1, Some (freq, gain)) /\
    (pre = [] \/ pre = [SetBands (bands s + 1)%Z; CallUpdateFilterElements]) /\
    (post = [] \/ post = [ApplyEQ]) /\
    calls (handleGraphClick D clientX clientY s)
    = calls s ++ pre ++ take n (slot_writes i (Fin freq) gain) ++ post.
Proof.
  unfold handleGraphClick.
  destruct (click_params_frame D clientX clientY s) as (Hcalls & Hbands & _).
  destruct (click_params D clientX clientY s) as [s1 [[freq gain]|]] eqn:Hc;
    simpl in Hcalls, Hbands; [|now left].
  destruct (claim_slot D s1) as [[i s2]|] eqn:Hcl; [|now left].
  right. apply claim_slot_calls in Hcl.
  destruct (fill_slot_calls i (Fin freq) gain s2) as [n Hn].
  destruct (fill_slot i (Fin freq) gain s2) as [s3 ok]. simpl in Hn.
  assert (Hpre : exists pre,
             (pre = [] \/ pre = [SetBands (bands s + 1)%Z; CallUpdateFilterElements]) /\
             calls s2 = calls s ++ pre).
  { destruct Hcl as [Hcl|Hcl].
    - exists []. split; [now left|]. now rewrite Hcl, Hcalls, app_nil_r.
    - eexists. split; [now right|]. now rewrite Hcl, Hcalls, Hbands. }
  destruct Hpre as (pre & Hpre & Hs2).
  exists s1, freq, gain, (Z.to_nat i), pre, n, (if ok then [ApplyEQ] else []).
  split; [reflexivity|]. split; [exact Hpre|].
  split; [destruct ok; auto|].
  destruct ok.
  - rewrite calls_updateEQHandles.
    replace (calls (do_call s3 ApplyEQ)) with (calls s3 ++ [ApplyEQ])
      by (destruct s3; reflexivity).
    rewrite Hn, Hs2. now rewrite <- !app_assoc.
  - rewrite Hn, Hs2. now rewrite app_nil_r, <- !app_assoc.
Qed.

Lemma In_slot_writes (c : call) (n i : nat) (freq gain : num) :
  In c (take n (slot_writes i freq gain)) ->
  c = WriteEnabled i true \/ c = WriteType i "PK" \/ c = WriteFreq i freq \/
  c = WriteGain i gain \/ c = WriteQ i (Fin 1).
Proof.
  intros H. apply In_take_In in H. simpl in H.
  repeat (destruct H as [H|H]; [symmetry in H; tauto|]). contradiction.
Qed.

(** X9: every frequency the drag frame or the graph click writes is a
    whole number of hertz between 20 and 20000, wherever the pointer
    is. *)
Theorem freq_writes_clamped (D : deps) (s : state) (idx : nat) (v : num) :
  (In (WriteFreq idx v) (calls (runFrame D s)) ->
   In (WriteFreq idx v) (calls s) \/
   exists k : Z, v = Fin (IZR k) /\ (20 <= k <= 20000)%Z) /\
  (forall clientX clientY,
      In (WriteFreq idx v) (calls (handleGraphClick D clientX clientY s)) ->
      In (WriteFreq idx v) (calls s) \/
      exists k : Z, v = Fin (IZR k) /\ (20 <= k <= 20000)%Z).
Proof.
  split.
  - intros H. apply runFrame_freq_writes in H as [H|[x ->]]; [now left|right].
    destruct (clamped_round_integer x) as (k & -> & Hk). eauto.
  - intros clientX clientY H.
    destruct (handleGraphClick_calls D clientX clientY s)
      as [E|(s1 & freq & gain & i & pre & n & post & Hc & Hpre & Hpost & E)];
      rewrite E in H; [now left|].
    rewrite !in_app_iff in H. destruct H as [H|[H|[H|H]]].
    + now left.
    + destruct Hpre as [-> | ->]; simpl in H; intuition discriminate.
    + apply In_slot_writes in H.
      destruct H as [H|[H|[H|[H|H]]]]; try discriminate. injection H as _ ->.
      apply click_params_freq in Hc as [x ->].
      destruct (clamped_round_integer x) as (k & -> & Hk). right. eauto.
    + destruct Hpost as [-> | ->]; simpl in H; intuition discriminate.
Qed.

Lemma freq_writes_clamped_witness :
  In (WriteFreq 0 (Fin 1000)) (calls dragging_state) \/
  exists k : Z, Fin 1000 = Fin (IZR k) /\ (20 <= k <= 20000)%Z.
Proof.
  apply (proj1 (freq_writes_clamped (plain_deps [phone_three] []) dragging_state 0
                                    (Fin 1000))).
  rewrite runFrame_writes. now left.
Defined.

Lemma sorted_curves_real (D : deps) (sel : string) (freq : R) (v : num) :
  sorted_curves D ->
  samplePhoneCurveAt D (getEQPhoneObj D sel) (Fin freq) = Returned (Some v) ->
  exists r, v = Fin r.
Proof.
  intros Hsorted Hs.
  destruct (getEQPhoneObj D sel) as [ph|] eqn:Hph; [|discriminate].
  apply getEQPhoneObj_In in Hph.
  destruct (pick_curveData ph) as [[c|]|] eqn:Hp;
    try (unfold samplePhoneCurveAt in Hs; rewrite Hp in Hs; discriminate).
  exact (samplePhoneCurveAt_real D ph c freq v Hp (Hsorted ph c Hph Hp) Hs).
Qed.

Lemma clamped_tenths (x : R) :
  exists k : Z, clampR (-40) 40 (JS.round_real x / 10) = IZR k / 10
                /\ (-400 <= k <= 400)%Z.
Proof.
  pose proof (clampR_bounds (-40) 40 (JS.round_real x / 10) ltac:(lra)) as Hb.
  revert Hb. unfold JS.round_real. set (k0 := Zfloor (x + / 2)).
  unfold clampR, Rmax, Rmin.
  destruct (Rle_dec 40 (IZR k0 / 10)), (Rle_dec (-40) _); intros Hb.
  - exists 400%Z. split; [lra|lia].
  - lra.
  - exists k0. split; [reflexivity|]. split; apply le_IZR; lra.
  - exists (-400)%Z. split; [lra|lia].
Qed.

Lemma gain_at_tenths (D : deps) (targetY : R) (curveY : option num) :
  (forall v, curveY = Some v -> exists r, v = Fin r) ->
  exists k : Z, gain_at D targetY curveY = Fin (IZR k / 10) /\ (-400 <= k <= 400)%Z.
Proof.
  intros Hreal. destruct curveY as [v|].
  - destruct (Hreal v eq_refl) as [r ->]. rewrite gain_at_real.
    destruct (clamped_tenths ((targetY + - r) * 10)) as (k & -> & Hk). eauto.
  - rewrite gain_at_midpoint.
    match goal with |- context [JS.round_real ?x] =>
      destruct (clamped_tenths x) as (k & -> & Hk)
    end. eauto.
Qed.

(** X10: over reference curves sorted by frequency, every gain the drag
    frame or the graph click writes is a whole number of tenths of a
    decibel, between -400 and 400 of them. *)
Theorem gain_writes_tenths (D : deps) (s : state) (idx : nat) (g : num) :
  sorted_curves D ->
  (In (WriteGain idx g) (calls (runFrame D s)) ->
   In (WriteGain idx g) (calls s) \/
   exists k : Z, g = Fin (IZR k / 10) /\ (-400 <= k <= 400)%Z) /\
  (forall clientX clientY,
      In (WriteGain idx g) (calls (handleGraphClick D clientX clientY s)) ->
      In (WriteGain idx g) (calls s) \/
      exists k : Z, g = Fin (IZR k / 10) /\ (-400 <= k <= 400)%Z).
Proof.
  intros Hsorted. split.
  - intros H. apply runFrame_gain_writes in H as [H|(targetY & curveY & freq & Hs & ->)];
      [now left|right].
    apply gain_at_tenths. intros v ->. exact (sorted_curves_real D _ _ v Hsorted Hs).
  - intros clientX clientY H.
    apply handleGraphClick_gain_writes
      in H as [H|(targetY & curveY & sel & freq & Hs & ->)]; [now left|right].
    apply gain_at_tenths. intros v ->. exact (sorted_curves_real D _ _ v Hsorted Hs).
Qed.

Lemma gain_writes_tenths_witness :
  In (WriteGain 0 (Fin 2)) (calls dragging_state) \/
  exists k : Z, Fin 2 = Fin (IZR k / 10) /\ (-400 <= k <= 400)%Z.
Proof.
  apply (proj1 (gain_writes_tenths (plain_deps [phone_three] []) dragging_state 0 (Fin 2)
                                   plain_deps_sorted)).
  rewrite runFrame_writes. right. now left.
Defined.

(** ** Drag sessions *)

Lemma session_onMove_pending (ss : session) (cx cy : R) (s : state) (job : frameJob) :
  pendingFrame s = Some job ->
  pendingFrame (snd (session_onMove ss cx cy s)) = Some job /\
  inputs (snd (session_onMove ss cx cy s)) = inputs s /\
  calls (snd (session_onMove ss cx cy s)) = calls s /\
  sess_filterIndex (fst (session_onMove ss cx cy s)) = sess_filterIndex ss.
Proof.
  intros Hp. unfold session_onMove.
  destruct (negb (moved ss) && _); [auto|].
  assert (Hp' : pendingFrame (set_wasDragged s true) = Some job)
    by (destruct s; exact Hp).
  rewrite Hp'. destruct s; simpl in *. auto.
Qed.

(** X11: moves are coalesced onto the first of them.  Once a move at or
    beyond the threshold has scheduled a frame, the moves that follow
    before the frame runs neither replace the scheduled position nor
    write anything: the frame will use the position of the move that
    scheduled it. *)
Theorem moves_coalesce_to_first (D : deps) (ss : session) (cx cy : R) (s : state)
        (later : list (R * R)) :
  pendingFrame s = None ->
  5 <= hypot (cx - startX ss) (cy - startY ss) ->
  let p := drag_run D (map (fun q => EvMove (fst q) (snd q)) later)
                    (session_onMove ss cx cy s) in
  pendingFrame (snd p) = Some (FrameJob cx cy (sess_filterIndex ss)) /\
  inputs (snd p) = inputs s /\ calls (snd p) = calls s.
Proof.
  intros Hp Hd. cbv zeta.
  assert (H0 : pendingFrame (snd (session_onMove ss cx cy s))
               = Some (FrameJob cx cy (sess_filterIndex ss)) /\
               inputs (snd (session_onMove ss cx cy s)) = inputs s /\
               calls (snd (session_onMove ss cx cy s)) = calls s).
  { unfold session_onMove. destruct (Rlt_dec _ 5); [lra|]. rewrite andb_false_r.
    assert (Hp' : pendingFrame (set_wasDragged s true) = None)
      by (destruct s; exact Hp).
    rewrite Hp'. destruct s; simpl. auto. }
  destruct (session_onMove ss cx cy s) as [ss1 s1]. simpl in H0.
  revert ss1 s1 H0. unfold drag_run.
  induction later as [|[x y] later IH]; intros ss1 s1 H0; [exact H0|].
  simpl. destruct H0 as (Hj & Hi & Hc).
  destruct (session_onMove_pending ss1 x y s1 _ Hj) as (Hj' & Hi' & Hc' & _).
  destruct (session_onMove ss1 x y s1) as [ss2 s2] eqn:E. simpl in *.
  apply IH. rewrite Hj', Hi', Hc'. auto.
Qed.

Lemma moves_coalesce_to_first_witness :
  let p := drag_run (plain_deps [] [])
                    (map (fun q => EvMove (fst q) (snd q)) [(1010, 9); (1020, 3)])
                    (session_onMove (Session 0 0 990 8 false) 1000 8 pressing_state) in
  pendingFrame (snd p) = Some (FrameJob 1000 8 0) /\
  inputs (snd p) = inputs pressing_state /\ calls (snd p) = calls pressing_state.
Proof.
  apply (moves_coalesce_to_first (plain_deps [] []) (Session 0 0 990 8 false) 1000 8
                                 pressing_state [(1010, 9); (1020, 3)]).
  - reflexivity.
  - simpl. apply hypot_ge_5. lra.
Defined.

Lemma removeEventListener_notin (k : listener) (l : list listener) :
  k ∉ l -> removeEventListener k l = l.
Proof.
  intros H. unfold removeEventListener. induction l as [|x l IH]; [reflexivity|].
  apply not_elem_of_cons in H as [Hx Hl].
  rewrite filter_cons_True by congruence. f_equal. now apply IH.
Qed.

Lemma drag_run_listeners (D : deps) (evs : list dragEvent) (ss : session) (s : state) :
  docListeners (snd (drag_run D evs (ss, s))) = docListeners s /\
  svgListeners (snd (drag_run D evs (ss, s))) = svgListeners s /\
  sess_id (fst (drag_run D evs (ss, s))) = sess_id ss.
Proof.
  unfold drag_run. revert ss s. induction evs as [|ev evs IH]; intros ss s; [auto|].
  simpl.
  assert (Hstep : docListeners (snd (drag_step D ev (ss, s))) = docListeners s /\
                  svgListeners (snd (drag_step D ev (ss, s))) = svgListeners s /\
                  sess_id (fst (drag_step D ev (ss, s))) = sess_id ss).
  { destruct ev as [cx cy|]; simpl.
    - unfold session_onMove. destruct (negb (moved ss) && _); [auto|].
      destruct s as [? ? ? ? [j|] ? ? ? ? ? ? ? ? ? ? ? ? ? ? ?]; simpl; auto.
    - unfold runFrame. destruct (pendingFrame s) as [job|]; [|auto].
      destruct (screen_to_svg D _ _) as [x y].
      destruct (samplePhoneCurveAt D _ _); [destruct s; simpl; auto|].
      destruct s. simpl.
      destruct (in_freq inputs0 !! job_filterIndex job); simpl;
        destruct (in_gain inputs0 !! job_filterIndex job); simpl; auto. }
  destruct (drag_step D ev (ss, s)) as [ss1 s1]. simpl in Hstep.
  destruct Hstep as (<- & <- & <-). apply IH.
Qed.

(** X12: a gesture on a handle leaves the listeners as they were: the
    four document listeners [startDrag] registers are all removed by
    [onUp], whatever happened in between (the functions of a new
    gesture being new, none of them is registered beforehand). *)
Theorem gesture_restores_listeners (D : deps) (d : datum) (x0 y0 : R)
        (evs : list dragEvent) (s : state) :
  (forall k, In k (drag_listeners (closures s)) -> k ∉ docListeners s) ->
  docListeners (gesture D d x0 y0 evs s) = docListeners s /\
  svgListeners (gesture D d x0 y0 evs s) = svgListeners s.
Proof.
  intros Hfresh. unfold gesture, startDrag.
  destruct (enabled s); simpl; [|auto].
  match goal with |- context [drag_run D evs (?ss0, ?s0)] =>
    destruct (drag_run_listeners D evs ss0 s0) as (Hdoc & Hsvg & Hid);
    destruct (drag_run D evs (ss0, s0)) as [ss1 s1]
  end.
  simpl in Hdoc, Hsvg, Hid.
  assert (H1 : docListeners (session_onUp ss1 s1)
               = foldl (fun l k => removeEventListener k l) (docListeners s1)
                       (drag_listeners (sess_id ss1)) /\
               svgListeners (session_onUp ss1 s1) = svgListeners s1).
  { unfold session_onUp. destruct (moved ss1); destruct s1; simpl; auto. }
  destruct H1 as [-> ->]. rewrite Hdoc, Hsvg, Hid.
  split; [|destruct s; reflexivity].
  replace (docListeners _) with
    (foldl (fun l k => addEventListener k l) (docListeners s) (drag_listeners (closures s)))
    by (destruct s; reflexivity).
  set (l := docListeners s) in *. set (id := closures s) in *.
  assert (Ha : ("mousemove", onMove id, false) ∉ l) by (apply Hfresh; simpl; auto).
  assert (Hb : ("mouseup", onUp id, false) ∉ l) by (apply Hfresh; simpl; auto).
  assert (Hc : ("touchmove", onMove id, false) ∉ l) by (apply Hfresh; simpl; auto).
  assert (Hd : ("touchend", onUp id, false) ∉ l) by (apply Hfresh; simpl; auto).
  simpl.
  repeat first
    [ rewrite removeEventListener_add
    | rewrite (removeEventListener_notin _ l) by assumption
    | rewrite removeEventListener_add_ne by discriminate ].
  reflexivity.
Qed.

Lemma gesture_restores_listeners_witness :
  docListeners (gesture (plain_deps [] []) (Datum false "PK" 500 0 1 0) 990 8
                        [EvMove 1000 8; EvFrame] pressing_state)
  = docListeners pressing_state /\
  svgListeners (gesture (plain_deps [] []) (Datum false "PK" 500 0 1 0) 990 8
                        [EvMove 1000 8; EvFrame] pressing_state)
  = svgListeners pressing_state.
Proof.
  apply (gesture_restores_listeners (plain_deps [] []) (Datum false "PK" 500 0 1 0) 990 8
                                    [EvMove 1000 8; EvFrame] pressing_state).
  intros k _. apply not_elem_of_nil.
Defined.

Lemma drag_run_flags (D : deps) (evs : list dragEvent) (ss : session) (s : state) :
  isDragging (snd (drag_run D evs (ss, s))) = isDragging s /\
  enabled (snd (drag_run D evs (ss, s))) = enabled s.
Proof.
  unfold drag_run. revert ss s. induction evs as [|ev evs IH]; intros ss s; [auto|].
  simpl.
  assert (Hstep : isDragging (snd (drag_step D ev (ss, s))) = isDragging s /\
                  enabled (snd (drag_step D ev (ss, s))) = enabled s).
  { destruct ev as [cx cy|]; simpl.
    - unfold session_onMove. destruct (negb (moved ss) && _); [auto|].
      destruct s as [? ? ? ? [j|] ? ? ? ? ? ? ? ? ? ? ? ? ? ? ?]; simpl; auto.
    - unfold runFrame. destruct (pendingFrame s) as [job|]; [|auto].
      destruct (screen_to_svg D _ _) as [x y].
      destruct (samplePhoneCurveAt D _ _); [destruct s; simpl; auto|].
      destruct s. simpl.
      destruct (in_freq inputs0 !! job_filterIndex job); simpl;
        destruct (in_gain inputs0 !! job_filterIndex job); simpl; auto. }
  destruct (drag_step D ev (ss, s)) as [ss1 s1]. simpl in Hstep.
  destruct Hstep as (<- & <-). apply IH.
Qed.

Lemma handleGraphClick_ignored (D : deps) (x y : R) (s : state) :
  enabled s = false \/ isDragging s = true \/ justDeletedFilter s = true ->
  handleGraphClick D x y s = s.
Proof.
  intros H. unfold handleGraphClick, click_params.
  assert (Hb : negb (enabled s) || isDragging s || justDeletedFilter s = true).
  { destruct H as [-> | [-> | ->]]; simpl; [reflexivity| |];
      repeat (rewrite ?orb_true_r, ?orb_true_l); reflexivity. }
  now rewrite Hb.
Qed.

(** X13: deleting a filter.  The band count goes down by one but never
    below one; the filters before the deleted index stay where they
    are and the ones after it move down by one; and a graph click that
    arrives before the 100 ms timer has cleared [justDeletedFilter]
    (the click the tap on the delete button produces) changes nothing:
    it does not create a filter in the slot just freed. *)
Theorem deleteFilter_bookkeeping (D : deps) (d : datum) (s : state) :
  let s' := deleteFilter D d s in
  bands s' = Z.max (bands s - 1) 1 /\ (1 <= bands s')%Z /\
  (forall j, (j < filterIndex d)%nat -> filters s' !! j = filters s !! j) /\
  (forall j, (filterIndex d <= j)%nat -> filters s' !! j = filters s !! S j) /\
  (forall x y, handleGraphClick D x y s' = s').
Proof.
  cbv zeta.
  assert (Hb : bands (deleteFilter D d s) = Z.max (bands s - 1) 1)
    by (destruct s; reflexivity).
  assert (Hf : filters (deleteFilter D d s) = delete (filterIndex d) (filters s))
    by (destruct s; reflexivity).
  assert (Hj : justDeletedFilter (deleteFilter D d s) = true)
    by (destruct s; reflexivity).
  rewrite Hb, Hf. repeat split.
  - lia.
  - intros j Hlt. now apply list_lookup_delete_lt.
  - intros j Hge. now apply list_lookup_delete_ge.
  - intros x y. apply handleGraphClick_ignored. auto.
Qed.

Lemma press_run_flags (D : deps) (evs : list pressEvent) (ss : session) (s : state) :
  enabled (snd (press_run D evs (ss, s))) = enabled s /\
  isDragging (snd (press_run D evs (ss, s)))
  = isDragging s && negb (existsb is_stale evs).
Proof.
  unfold press_run. revert ss s. induction evs as [|ev evs IH]; intros ss s.
  - simpl. now rewrite andb_true_r.
  - simpl.
    assert (Hstep : enabled (snd (press_step D ev (ss, s))) = enabled s /\
                    isDragging (snd (press_step D ev (ss, s)))
                    = isDragging s && negb (is_stale ev)).
    { destruct ev as [ev|]; simpl.
      - destruct (drag_run_flags D [ev] ss s) as [Hd He]. unfold drag_run in Hd, He.
        simpl in Hd, He. now rewrite Hd, He, andb_true_r.
      - destruct s; simpl. now rewrite andb_false_r. }
    destruct (press_step D ev (ss, s)) as [ss1 s1]. simpl in Hstep.
    destruct Hstep as [He Hd]. destruct (IH ss1 s1) as [IHe IHd].
    rewrite IHe, IHd, He, Hd. split; [reflexivity|].
    rewrite negb_orb. now rewrite andb_assoc.
Qed.

(** X14: the click that ends a press on a handle is not taken for a
    click on the graph, unless a timer of an earlier gesture gets in
    the way.  While none of the 120 ms timers that earlier [onUp]s left
    behind runs during the press, [handleGraphClick] returns without a
    change from pointer-down until after [onUp], whatever moves and
    frames came in between.  A timer of an earlier gesture that runs
    during the press clears [isDragging] for good, and the guard of
    [handleGraphClick] no longer holds the click back. *)
Theorem click_guard_during_press (D : deps) (d : datum) (x0 y0 : R)
        (evs : list pressEvent) (s : state) (cx cy : R) :
  (existsb is_stale evs = false ->
   handleGraphClick D cx cy (press D d x0 y0 evs s) = press D d x0 y0 evs s) /\
  (enabled s = true -> existsb is_stale evs = true ->
   enabled (press D d x0 y0 evs s) = true /\
   isDragging (press D d x0 y0 evs s) = false).
Proof.
  assert (Hup : forall ss1 s1, isDragging (session_onUp ss1 s1) = isDragging s1 /\
                               enabled (session_onUp ss1 s1) = enabled s1)
    by (intros ss1 s1; unfold session_onUp; destruct (moved ss1); destruct s1; auto).
  split.
  - intros Hns. apply handleGraphClick_ignored. unfold press, startDrag.
    destruct (enabled s) eqn:He; simpl; [|auto].
    right; left.
    match goal with |- context [press_run D evs (?ss0, ?s0)] =>
      destruct (press_run_flags D evs ss0 s0) as (_ & Hd);
      destruct (press_run D evs (ss0, s0)) as [ss1 s1]
    end.
    simpl in Hd. rewrite (proj1 (Hup ss1 s1)), Hd, Hns.
    destruct s; reflexivity.
  - intros He Hst. unfold press, startDrag. rewrite He. simpl.
    match goal with |- context [press_run D evs (?ss0, ?s0)] =>
      destruct (press_run_flags D evs ss0 s0) as (Hen & Hd);
      destruct (press_run D evs (ss0, s0)) as [ss1 s1]
    end.
    simpl in Hd, Hen. destruct (Hup ss1 s1) as [-> ->]. rewrite Hen, Hd, Hst.
    split; [destruct s; exact He|apply andb_false_r].
Qed.

Lemma click_guard_during_press_witness :
  handleGraphClick (plain_deps [] []) 1000 8
    (press (plain_deps [] []) (Datum false "PK" 500 0 1 0) 990 8
           [Drag (EvMove 1000 8); Drag EvFrame] pressing_state)
  = press (plain_deps [] []) (Datum false "PK" 500 0 1 0) 990 8
          [Drag (EvMove 1000 8); Drag EvFrame] pressing_state /\
  isDragging (press (plain_deps [] []) (Datum false "PK" 500 0 1 0) 990 8
                    [Drag (EvMove 1000 8); StaleCooldown] pressing_state) = false.
Proof.
  split.
  - apply (proj1 (click_guard_during_press (plain_deps [] []) (Datum false "PK" 500 0 1 0)
                   990 8 [Drag (EvMove 1000 8); Drag EvFrame] pressing_state 1000 8)).
    reflexivity.
  - apply (proj2 (click_guard_during_press (plain_deps [] []) (Datum false "PK" 500 0 1 0)
                   990 8 [Drag (EvMove 1000 8); StaleCooldown] pressing_state 1000 8));
      reflexivity.
Defined.

(** ** Type cycling and the wheel, repeated *)

Lemma set_in_type_same (fi : filterInputs) : set_in_type fi (in_type fi) = fi.
Proof. destruct fi; reflexivity. Qed.

Lemma set_in_q_same (fi : filterInputs) : set_in_q fi (in_q fi) = fi.
Proof. destruct fi; reflexivity. Qed.

Lemma cycleFilterType_step (d : datum) (s : state) (value : string) :
  enabled s = true -> in_type (inputs s) !! filterIndex d = Some value ->
  let next := default "" (at_index types (Z.rem (indexOf value types + 1) 3)) in
  let s' := cycleFilterType d s in
  enabled s' = true /\
  inputs s' = set_in_type (inputs s) (<[filterIndex d := next]> (in_type (inputs s))) /\
  in_type (inputs s') !! filterIndex d = Some next.
Proof.
  intros He Hv. cbv zeta. unfold cycleFilterType. rewrite He, Hv. simpl.
  apply lookup_lt_Some in Hv.
  destruct s as [? ? ? ? ? ? ? ? ? ? ? ? ? ? ? ? ? ? [] ?]; simpl in *.
  repeat split; [exact He|]. now apply list_lookup_insert_eq.
Qed.

(** X15: the type button has period three.  Starting from a type of
    the cycle, one and two presses give a different type and the
    third press gives the form fields back as they were. *)
Theorem cycleFilterType_period (d : datum) (s : state) (value : string) :
  enabled s = true -> in_type (inputs s) !! filterIndex d = Some value ->
  In value types ->
  let s1 := cycleFilterType d s in
  let s2 := cycleFilterType d s1 in
  let s3 := cycleFilterType d s2 in
  in_type (inputs s1) !! filterIndex d <> Some value /\
  in_type (inputs s2) !! filterIndex d <> Some value /\
  inputs s3 = inputs s.
Proof.
  intros He Hv Hin. cbv zeta.
  destruct (cycleFilterType_step d s value He Hv) as (He1 & Hi1 & Hv1).
  destruct (cycleFilterType_step d _ _ He1 Hv1) as (He2 & Hi2 & Hv2).
  destruct (cycleFilterType_step d _ _ He2 Hv2) as (He3 & Hi3 & Hv3).
  rewrite Hv1, Hv2, Hi3, Hi2, Hi1.
  assert (Hcases : value = "PK" \/ value = "LSQ" \/ value = "HSQ")
    by (simpl in Hin; intuition).
  assert (Hback : <[filterIndex d := value]> (in_type (inputs s)) = in_type (inputs s))
    by now apply list_insert_id.
  destruct Hcases as [-> | [-> | ->]]; (split; [discriminate|split; [discriminate|]]);
    destruct (inputs s) as [e t f g q]; simpl in *; unfold set_in_type; simpl;
    rewrite !list_insert_insert_eq; f_equal; exact Hback.
Qed.

Lemma cycleFilterType_period_witness :
  in_type (inputs (cycleFilterType (Datum false "PK" 500 0 1 0) wheel_state)) !! 0%nat
    <> Some "PK" /\
  in_type (inputs (cycleFilterType (Datum false "PK" 500 0 1 0)
                     (cycleFilterType (Datum false "PK" 500 0 1 0) wheel_state))) !! 0%nat
    <> Some "PK" /\
  inputs (cycleFilterType (Datum false "PK" 500 0 1 0)
            (cycleFilterType (Datum false "PK" 500 0 1 0)
               (cycleFilterType (Datum false "PK" 500 0 1 0) wheel_state)))
  = inputs wheel_state.
Proof.
  apply (cycleFilterType_period (Datum false "PK" 500 0 1 0) wheel_state "PK").
  - reflexivity.
  - reflexivity.
  - simpl. auto.
Defined.

(** Rounding a multiple [k] of the step moved by one step: the next
    multiple, or the end of the range. *)
Lemma storeQR_grid (shiftKey up : bool) (k : Z) :
  let n := if shiftKey then 100 else 10 in
  let m := (if shiftKey then 10 else 1)%Z in
  (m <= k <= 100 * m)%Z ->
  storeQR n (IZR k / n + (if up then (if shiftKey then 1/100 else 1/10)
                          else - (if shiftKey then 1/100 else 1/10)))
  = IZR (Z.max m (Z.min (100 * m) (k + (if up then 1 else -1)))) / n.
Proof.
  destruct shiftKey, up; cbv zeta beta iota; intros Hk; unfold storeQR.
  all: match goal with
       | |- context [JS.round_real (?e * ?n)] =>
           match e with
           | _ + - _ => replace (e * n) with (IZR (k + -1)) by (rewrite plus_IZR; lra)
           | _ => replace (e * n) with (IZR (k + 1)) by (rewrite plus_IZR; lra)
           end
       end; rewrite round_real_int.
  all: match goal with
       | |- context [Z.max ?m (Z.min ?M ?x)] =>
           destruct (Z_lt_le_dec x m) as [Hlo|Hlo];
           [ replace (Z.max m (Z.min M x)) with m by lia;
             assert (IZR x <= IZR m) by (apply IZR_le; lia)
           | destruct (Z_lt_le_dec M x) as [Hhi|Hhi];
             [ replace (Z.max m (Z.min M x)) with M by lia;
               assert (IZR M <= IZR x) by (apply IZR_le; lia)
             | replace (Z.max m (Z.min M x)) with x by lia;
               assert (IZR m <= IZR x <= IZR M) by (split; apply IZR_le; lia) ] ]
       end.
  all: try (exfalso; lia).
  all: change (100 * 10)%Z with 1000%Z in *; change (100 * 1)%Z with 100%Z in *.
  all: unfold clampR, Rmax, Rmin; repeat (destruct (Rle_dec _ _)); lra.
Qed.

(** One tick of the wheel on a Q field that holds a multiple [k] of the
    step, within the range: the field moves to the next multiple, or
    stays at the end of the range. *)
Lemma onWheel_grid (d : datum) (shiftKey : bool) (deltaY : R) (s : state) (k : Z) :
  let n := if shiftKey then 100 else 10 in
  let m := (if shiftKey then 10 else 1)%Z in
  enabled s = true -> (m <= k <= 100 * m)%Z ->
  in_q (inputs s) !! filterIndex d = Some (Fin (IZR k / n)) ->
  let k' := Z.max m (Z.min (100 * m) (k + (if Rlt_dec deltaY 0 then 1 else -1))) in
  let s' := onWheel d shiftKey deltaY s in
  enabled s' = true /\
  inputs s' = set_in_q (inputs s) (<[filterIndex d := Fin (IZR k' / n)]> (in_q (inputs s))) /\
  in_q (inputs s') !! filterIndex d = Some (Fin (IZR k' / n)).
Proof.
  cbv zeta. intros He Hk Hq. unfold onWheel. rewrite He, Hq. simpl.
  assert (Hk1 : IZR (if shiftKey then 10 else 1)%Z <= IZR k) by (apply IZR_le; lia).
  assert (Hor : JS.or_else (Fin (IZR k / (if shiftKey then 100 else 10))) (Fin 1)
                = Fin (IZR k / (if shiftKey then 100 else 10))).
  { unfold JS.or_else, JS.truthy.
    destruct (Req_dec_T _ 0) as [Hz|_]; [|reflexivity].
    exfalso. destruct shiftKey; simpl in Hk1; lra. }
  rewrite Hor.
  pose proof (storeQR_grid shiftKey (if Rlt_dec deltaY 0 then true else false) k Hk) as Hg.
  cbv zeta in Hg.
  assert (Hnum : storeQ (if shiftKey then 100 else 10)
                   (JS.add (Fin (IZR k / (if shiftKey then 100 else 10)))
                           (if Rlt_dec deltaY 0
                            then Fin (if shiftKey then 1/100 else 1/10)
                            else Fin (- (if shiftKey then 1/100 else 1/10))))
                 = Fin (IZR (Z.max (if shiftKey then 10 else 1)
                           (Z.min (100 * (if shiftKey then 10 else 1))
                              (k + (if Rlt_dec deltaY 0 then 1 else -1))))
                        / (if shiftKey then 100 else 10))).
  { destruct (Rlt_dec deltaY 0); simpl JS.add;
      (rewrite storeQ_Fin by (destruct shiftKey; lra)); f_equal; exact Hg. }
  rewrite Hnum. apply lookup_lt_Some in Hq.
  destruct s as [? ? ? ? ? ? ? ? ? ? ? ? ? ? ? ? ? ? [] ?]; simpl in *.
  repeat split; [exact He|]. now apply list_lookup_insert_eq.
Qed.

(** X16: the wheel on the step grid.  With the Q field on a multiple
    of the step within [0.1, 10] (0.1 without the modifier, 0.01 with
    it), a tick up followed by a tick down, or down followed by up,
    gives the form fields back as they were, unless the first tick
    starts at the end of the range it moves towards; there the tick
    changes no field. *)
Theorem onWheel_up_down (d : datum) (shiftKey : bool) (up down : R) (s : state) (k : Z) :
  let n := if shiftKey then 100 else 10 in
  let m := (if shiftKey then 10 else 1)%Z in
  enabled s = true -> up < 0 -> 0 <= down -> (m <= k <= 100 * m)%Z ->
  in_q (inputs s) !! filterIndex d = Some (Fin (IZR k / n)) ->
  ((k < 100 * m)%Z ->
   inputs (onWheel d shiftKey down (onWheel d shiftKey up s)) = inputs s) /\
  ((m < k)%Z ->
   inputs (onWheel d shiftKey up (onWheel d shiftKey down s)) = inputs s) /\
  (k = (100 * m)%Z -> inputs (onWheel d shiftKey up s) = inputs s) /\
  (k = m -> inputs (onWheel d shiftKey down s) = inputs s).
Proof.
  cbv zeta. intros He Hup Hdown Hk Hq.
  pose proof (onWheel_grid d shiftKey up s k He Hk Hq) as Hu.
  pose proof (onWheel_grid d shiftKey down s k He Hk Hq) as Hd.
  cbv zeta in Hu, Hd.
  destruct (Rlt_dec up 0) as [_|]; [|lra].
  destruct (Rlt_dec down 0) as [|_]; [lra|].
  destruct Hu as (Heu & Hiu & Hqu), Hd as (Hed & Hid & Hqd).
  assert (Hsame : set_in_q (inputs s)
                    (<[filterIndex d := Fin (IZR k / (if shiftKey then 100 else 10))]>
                       (in_q (inputs s))) = inputs s).
  { rewrite (list_insert_id _ _ _ Hq). apply set_in_q_same. }
  repeat split.
  - intros Hlt.
    assert (Hm : Z.max (if shiftKey then 10 else 1)
                   (Z.min (100 * (if shiftKey then 10 else 1)) (k + 1)) = (k + 1)%Z) by lia.
    rewrite Hm in Hiu, Hqu. clear Hm.
    assert (Hk' : ((if shiftKey then 10 else 1) <= k + 1
                   <= 100 * (if shiftKey then 10 else 1))%Z) by lia.
    pose proof (onWheel_grid d shiftKey down _ (k + 1) Heu Hk' Hqu) as H2.
    cbv zeta in H2. destruct (Rlt_dec down 0); [lra|].
    destruct H2 as (_ & -> & _). rewrite Hiu.
    replace (Z.max _ _) with k by lia.
    rewrite <- Hsame at 3. destruct (inputs s); unfold set_in_q; simpl.
    now rewrite list_insert_insert_eq.
  - intros Hlt.
    assert (Hm : Z.max (if shiftKey then 10 else 1)
                   (Z.min (100 * (if shiftKey then 10 else 1)) (k + -1)) = (k + -1)%Z) by lia.
    rewrite Hm in Hid, Hqd. clear Hm.
    assert (Hk' : ((if shiftKey then 10 else 1) <= k + -1
                   <= 100 * (if shiftKey then 10 else 1))%Z) by lia.
    pose proof (onWheel_grid d shiftKey up _ (k + -1) Hed Hk' Hqd) as H2.
    cbv zeta in H2. destruct (Rlt_dec up 0); [|lra].
    destruct H2 as (_ & -> & _). rewrite Hid.
    replace (Z.max _ _) with k by lia.
    rewrite <- Hsame at 3. destruct (inputs s); unfold set_in_q; simpl.
    now rewrite list_insert_insert_eq.
  - intros Heq. rewrite Hiu. replace (Z.max _ _) with k by lia. exact Hsame.
  - intros Heq. rewrite Hid. replace (Z.max _ _) with k by lia. exact Hsame.
Qed.

Lemma onWheel_up_down_witness :
  inputs (onWheel (Datum false "PK" 1000 0 (123/100) 0) true 1
            (onWheel (Datum false "PK" 1000 0 (123/100) 0) true (-1) wheel_state))
  = inputs wheel_state.
Proof.
  apply (proj1 (onWheel_up_down (Datum false "PK" 1000 0 (123/100) 0) true (-1) 1
                                wheel_state 123 eq_refl ltac:(lra) ltac:(lra)
                                ltac:(lia) eq_refl)).
  lia.
Defined.

(** ** Rendering the handles again *)

Lemma find_handle_self (hs : list handle) (h : handle) :
  List.NoDup (map h_key hs) -> In h hs ->
  List.find (fun h' => Nat.eqb (h_key h') (h_key h)) hs = Some h.
Proof.
  induction hs as [|a l IH]; intros Hnd Hin; [destruct Hin|].
  simpl in *. apply List.NoDup_cons_iff in Hnd as [Ha Hl].
  destruct Hin as [->|Hin]; [now rewrite Nat.eqb_refl|].
  destruct (Nat.eqb (h_key a) (h_key h)) eqn:E; [|now apply IH].
  exfalso. apply Ha. apply Nat.eqb_eq in E. rewrite E. now apply List.in_map.
Qed.

Lemma join_self (hs : list handle) :
  List.NoDup (map h_key hs) -> join hs (map h_datum hs) = hs.
Proof.
  intros Hnd. unfold join. rewrite List.map_map.
  etransitivity; [|apply List.map_id]. apply List.map_ext_in. intros h Hin.
  change (filterIndex (h_datum h)) with (h_key h).
  rewrite (find_handle_self hs h Hnd Hin). destruct h; reflexivity.
Qed.

Lemma join_data (old : list handle) (data : list datum) :
  map h_datum (join old data) = data.
Proof.
  unfold join. rewrite List.map_map. etransitivity; [|apply List.map_id].
  apply List.map_ext. intros d. destruct (List.find _ old) as [[]|]; reflexivity.
Qed.

Lemma place_handles_data (D : deps) (phoneObj : option phone) (hs : list handle) :
  map h_datum (fst (place_handles D phoneObj hs)) = map h_datum hs.
Proof.
  induction hs as [|h hs IH]; [reflexivity|]. simpl.
  destruct (handle_position D phoneObj (h_datum h)); [reflexivity|].
  destruct (place_handles D phoneObj hs) as [rest ok]. simpl in *.
  rewrite IH. destruct h; reflexivity.
Qed.

Lemma place_handles_again (D : deps) (phoneObj : option phone) (hs : list handle) :
  place_handles D phoneObj (fst (place_handles D phoneObj hs))
  = place_handles D phoneObj hs.
Proof.
  induction hs as [|h hs IH]; [reflexivity|]. simpl.
  destruct (handle_position D phoneObj (h_datum h)) as [|p] eqn:E.
  - simpl. now rewrite E.
  - destruct (place_handles D phoneObj hs) as [rest ok]. simpl in *.
    assert (Hd : h_datum (h_set_transform h (Some p)) = h_datum h) by (destruct h; reflexivity).
    rewrite Hd, E, IH. destruct h; reflexivity.
Qed.

(** What [updateEQHandles] draws from the datum of a positioned handle. *)
Lemma place_handles_dressed (D : deps) (phoneObj : option phone) (hs : list handle)
      (g : handle -> handle) :
  (forall h, h_datum (g h) = h_datum h) ->
  (forall h p, g (h_set_transform h p) = h_set_transform (g h) p) ->
  place_handles D phoneObj (map g hs)
  = (map g (fst (place_handles D phoneObj hs)), snd (place_handles D phoneObj hs)).
Proof.
  intros Hd Hc. induction hs as [|h hs IH]; [reflexivity|]. simpl.
  rewrite Hd. destruct (handle_position D phoneObj (h_datum h)) as [|p]; [reflexivity|].
  rewrite IH. destruct (place_handles D phoneObj hs) as [rest ok]. simpl.
  now rewrite Hc.
Qed.

Lemma updateEQHandles_unfold (D : deps) (s : state) :
  initialized s = true -> enabled s = true ->
  let hs := fst (place_handles D (getEQPhoneObj D (selectValue s))
                   (join (handles s) (handle_data (filters s)))) in
  let ok := snd (place_handles D (getEQPhoneObj D (selectValue s))
                   (join (handles s) (handle_data (filters s)))) in
  updateEQHandles D s
  = set_handles s
      (if ok
       then map (fun h => dress_handle D (h_set_disabled h (d_disabled (h_datum h)))) hs
       else hs).
Proof.
  intros Hi He. cbv zeta. unfold updateEQHandles. rewrite Hi, He. simpl.
  destruct (place_handles D _ _) as [hs ok]. simpl.
  destruct ok; [|reflexivity]. now rewrite List.map_map.
Qed.

(** X17: rendering the handles again without a change in between is
    a no-op, whether or not the first pass was stopped by a sampler
    that threw: [updateEQHandles] is idempotent. *)
Theorem updateEQHandles_idempotent (D : deps) (s : state) :
  updateEQHandles D (updateEQHandles D s) = updateEQHandles D s.
Proof.
  destruct (initialized s) eqn:Hi.
  2:{ assert (H : updateEQHandles D s = s)
        by (unfold updateEQHandles; now rewrite Hi).
      now rewrite !H. }
  destruct (enabled s) eqn:He.
  2:{ assert (H : updateEQHandles D s = set_handles s [])
        by (unfold updateEQHandles; now rewrite Hi, He).
      rewrite H. unfold updateEQHandles.
      assert (H1 : initialized (set_handles s []) = true) by (destruct s; exact Hi).
      assert (H2 : enabled (set_handles s []) = false) by (destruct s; exact He).
      rewrite H1, H2. simpl. destruct s; reflexivity. }
  rewrite (updateEQHandles_unfold D s Hi He). cbv zeta.
  set (ph := getEQPhoneObj D (selectValue s)).
  set (data := handle_data (filters s)).
  set (hs0 := join (handles s) data).
  set (g := fun h => dress_handle D (h_set_disabled h (d_disabled (h_datum h)))).
  assert (Hgd : forall h, h_datum (g h) = h_datum h) by (intros []; reflexivity).
  assert (Hgc : forall h p, g (h_set_transform h p) = h_set_transform (g h) p)
    by (intros [] p; reflexivity).
  assert (Hgg : forall h, g (g h) = g h) by (intros []; reflexivity).
  assert (Hdata : map h_datum (fst (place_handles D ph hs0)) = data)
    by (rewrite place_handles_data; apply join_data).
  assert (Hnd : List.NoDup (map h_key (fst (place_handles D ph hs0)))).
  { rewrite place_handles_keys. unfold hs0. rewrite join_keys.
    unfold data. rewrite handle_data_keys. apply NoDup_keys_from. }
  pose proof (place_handles_again D ph hs0) as Hagain.
  destruct (place_handles D ph hs0) as [hs1 ok] eqn:E. simpl in *.
  set (hs2 := if ok then map g hs1 else hs1).
  assert (Hi2 : initialized (set_handles s hs2) = true) by (destruct s; exact Hi).
  assert (He2 : enabled (set_handles s hs2) = true) by (destruct s; exact He).
  rewrite (updateEQHandles_unfold D _ Hi2 He2). cbv zeta.
  replace (getEQPhoneObj D (selectValue (set_handles s hs2))) with ph
    by (destruct s; reflexivity).
  replace (handle_data (filters (set_handles s hs2))) with data
    by (destruct s; reflexivity).
  replace (handles (set_handles s hs2)) with hs2 by (destruct s; reflexivity).
  fold g.
  assert (Hj : join hs2 data = hs2).
  { assert (Hd2 : map h_datum hs2 = data).
    { unfold hs2. destruct ok; [|exact Hdata].
      rewrite List.map_map. rewrite <- Hdata. apply List.map_ext. exact Hgd. }
    rewrite <- Hd2. apply join_self.
    unfold hs2. destruct ok; [|exact Hnd].
    rewrite List.map_map.
    replace (map (fun x => h_key (g x)) hs1) with (map h_key hs1); [exact Hnd|].
    apply List.map_ext. intros h. unfold h_key. now rewrite Hgd. }
  rewrite Hj.
  assert (Hp : place_handles D ph hs2 = (hs2, ok)).
  { unfold hs2. destruct ok; [|exact Hagain].
    rewrite (place_handles_dressed D ph hs1 g Hgd Hgc), Hagain. reflexivity. }
  rewrite Hp. simpl.
  assert (Hfin : (if ok then map g hs2 else hs2) = hs2).
  { unfold hs2. destruct ok; [|reflexivity].
    rewrite List.map_map. apply List.map_ext. exact Hgg. }
  rewrite Hfin. destruct s; reflexivity.
Qed.

Lemma join_keeps (old : list handle) (data : list datum) (h : handle) :
  List.NoDup (map h_key old) -> In h old -> In (h_key h) (map filterIndex data) ->
  exists h', In h' (join old data) /\ h_key h' = h_key h /\
             h_selected h' = h_selected h /\
             h_secondary_opacity h' = h_secondary_opacity h.
Proof.
  intros Hnd Hin Hk. apply List.in_map_iff in Hk as (d & Hd & Hind).
  exists (h_set_datum h d). split.
  - unfold join. apply List.in_map_iff. exists d. split; [|exact Hind].
    rewrite Hd. now rewrite (find_handle_self old h Hnd Hin).
  - destruct h; simpl. unfold h_key. simpl. auto.
Qed.

Lemma join_new (old : list handle) (data : list datum) (h' : handle) :
  In h' (join old data) -> ~ In (h_key h') (map h_key old) ->
  h_selected h' = false /\ h_secondary_opacity h' = 0.
Proof.
  intros Hin Hnew. unfold join in Hin. apply List.in_map_iff in Hin as (d & <- & _).
  destruct (List.find _ old) as [h|] eqn:E; [|auto].
  exfalso. apply Hnew. apply List.find_some in E as [Hin E].
  apply Nat.eqb_eq in E. destruct h; unfold h_key in *; simpl in *.
  rewrite <- E. apply (List.in_map h_key) in Hin. exact Hin.
Qed.

Lemma place_handles_secondary (D : deps) (phoneObj : option phone) (hs : list handle)
      (P : nat -> bool -> R -> Prop) :
  forall h, In h hs ->
  P (h_key h) (h_selected h) (h_secondary_opacity h) ->
  exists h', In h' (fst (place_handles D phoneObj hs)) /\
             P (h_key h') (h_selected h') (h_secondary_opacity h').
Proof.
  induction hs as [|a hs IH]; intros h Hin HP; [destruct Hin|]. simpl.
  destruct (handle_position D phoneObj (h_datum a)) as [|p].
  - exists h. auto.
  - destruct (place_handles D phoneObj hs) as [rest ok]. simpl in *.
    destruct Hin as [->|Hin].
    + exists (h_set_transform h (Some p)). split; [now left|]. destruct h; exact HP.
    + destruct (IH h Hin HP) as (h' & Hin' & HP'). exists h'. auto.
Qed.

Lemma place_handles_secondary_inv (D : deps) (phoneObj : option phone) (hs : list handle) :
  forall h', In h' (fst (place_handles D phoneObj hs)) ->
  exists h, In h hs /\ h_key h = h_key h' /\ h_selected h = h_selected h' /\
            h_secondary_opacity h = h_secondary_opacity h'.
Proof.
  induction hs as [|a hs IH]; intros h' Hin; [destruct Hin|]. simpl in Hin.
  destruct (handle_position D phoneObj (h_datum a)) as [|p].
  - exists h'. auto.
  - destruct (place_handles D phoneObj hs) as [rest ok]. simpl in *.
    destruct Hin as [<-|Hin].
    + exists a. split; [now left|]. destruct a; auto.
    + destruct (IH h' Hin) as (h & Hh & Hrest). exists h. auto.
Qed.

(** X18: what a render pass keeps.  A handle whose filter still has a
    frequency keeps its whisker selection and the opacity of its
    whiskers and delete button across [updateEQHandles]; a handle
    created by the pass starts unselected with them hidden. *)
Theorem updateEQHandles_keeps_selection (D : deps) (s : state) :
  initialized s = true -> enabled s = true ->
  List.NoDup (map h_key (handles s)) ->
  (forall h, In h (handles s) -> In (h_key h) (keys_from 0 (filters s)) ->
     exists h', In h' (handles (updateEQHandles D s)) /\ h_key h' = h_key h /\
                h_selected h' = h_selected h /\
                h_secondary_opacity h' = h_secondary_opacity h) /\
  (forall h', In h' (handles (updateEQHandles D s)) ->
     ~ In (h_key h') (map h_key (handles s)) ->
     h_selected h' = false /\ h_secondary_opacity h' = 0).
Proof.
  intros Hi He Hnd. rewrite (updateEQHandles_unfold D s Hi He). cbv zeta.
  set (ph := getEQPhoneObj D (selectValue s)).
  set (hs0 := join (handles s) (handle_data (filters s))).
  set (g := fun h => dress_handle D (h_set_disabled h (d_disabled (h_datum h)))).
  replace (handles (set_handles s _)) with
    (if snd (place_handles D ph hs0) then map g (fst (place_handles D ph hs0))
     else fst (place_handles D ph hs0)) by (destruct s; reflexivity).
  assert (Hg : forall h, h_key (g h) = h_key h /\ h_selected (g h) = h_selected h /\
                         h_secondary_opacity (g h) = h_secondary_opacity h)
    by (intros []; auto).
  split.
  - intros h Hin Hk. rewrite <- handle_data_keys in Hk.
    destruct (join_keeps _ _ h Hnd Hin Hk) as (h1 & Hin1 & Hk1 & Hs1 & Ho1).
    destruct (place_handles_secondary D ph hs0
                (fun k sel op => k = h_key h /\ sel = h_selected h /\
                                 op = h_secondary_opacity h) h1 Hin1)
      as (h2 & Hin2 & Hk2 & Hs2 & Ho2); [auto|].
    destruct (snd (place_handles D ph hs0)).
    + exists (g h2). split; [now apply List.in_map|].
      destruct (Hg h2) as (-> & -> & ->). auto.
    + exists h2. auto.
  - intros h' Hin Hnew.
    assert (Hpre : exists h2, In h2 (fst (place_handles D ph hs0)) /\
                              h_key h2 = h_key h' /\ h_selected h2 = h_selected h' /\
                              h_secondary_opacity h2 = h_secondary_opacity h').
    { destruct (snd (place_handles D ph hs0)); [|exists h'; auto].
      apply List.in_map_iff in Hin as (h2 & <- & Hin2). exists h2.
      destruct (Hg h2) as (-> & -> & ->). auto. }
    destruct Hpre as (h2 & Hin2 & Hk2 & Hs2 & Ho2).
    destruct (place_handles_secondary_inv D ph hs0 h2 Hin2) as (h1 & Hin1 & Hk1 & Hs1 & Ho1).
    rewrite <- Hs2, <- Ho2, <- Hs1, <- Ho1.
    apply (join_new (handles s) (handle_data (filters s)) h1 Hin1).
    now rewrite Hk1, Hk2.
Qed.

Lemma updateEQHandles_keeps_selection_witness :
  (forall h, In h (handles whisker_state) ->
     In (h_key h) (keys_from 0 (filters whisker_state)) ->
     exists h', In h' (handles (updateEQHandles (plain_deps [] []) whisker_state)) /\
                h_key h' = h_key h /\ h_selected h' = h_selected h /\
                h_secondary_opacity h' = h_secondary_opacity h) /\
  (forall h', In h' (handles (updateEQHandles (plain_deps [] []) whisker_state)) ->
     ~ In (h_key h') (map h_key (handles whisker_state)) ->
     h_selected h' = false /\ h_secondary_opacity h' = 0).
Proof.
  apply (updateEQHandles_keeps_selection (plain_deps [] []) whisker_state).
  - reflexivity.
  - reflexivity.
  - simpl. constructor; [intros []|constructor].
Defined.

(** ** Handle colours *)

Lemma handleColors_NoDup : NoDup handleColors.
Proof. refine (bool_decide_unpack (NoDup handleColors) _). vm_compute. exact I. Qed.

(** X19: every filter index has a colour; the first ten indices have
    ten different colours, and the colours repeat from the eleventh
    filter on: filters ten apart are drawn alike. *)
Theorem getFilterColor_cycle (i : nat) :
  (exists c, getFilterColor i = Some c /\ In c handleColors) /\
  getFilterColor (i + 10) = getFilterColor i /\
  (forall j, (i < 10)%nat -> (j < 10)%nat ->
             getFilterColor i = getFilterColor j -> i = j).
Proof.
  unfold getFilterColor. change (length handleColors) with 10%nat.
  repeat split.
  - assert (Hlt : (i mod 10 < length handleColors)%nat)
      by (apply Nat.mod_upper_bound; discriminate).
    apply lookup_lt_is_Some_2 in Hlt as [c Hc]. exists c. split; [exact Hc|].
    apply list_elem_of_In. now apply list_elem_of_lookup_2 in Hc.
  - replace (i + 10)%nat with (i + 1 * 10)%nat by lia.
    now rewrite Nat.Div0.mod_add.
  - intros j Hi Hj. rewrite !Nat.mod_small by assumption. intros Heq.
    assert (His : is_Some (handleColors !! i))
      by (apply lookup_lt_is_Some_2; exact Hi).
    destruct His as [c Hc]. rewrite Hc in Heq. symmetry in Heq.
    exact (NoDup_lookup _ _ _ _ handleColors_NoDup Hc Heq).
Qed.

(** ** Double tap *)

Lemma onTouchstart_drag (d : datum) (e : nat) (now : Z) (p : R * R)
      (t : tapState) (s : state) :
  lastTapElement t <> Some e \/ (300 <= now - lastTapTime t)%Z ->
  onTouchstart d e now (Some p) t s
  = (TapState now (Some e), fst (startDrag d (fst p) (snd p) s)).
Proof.
  intros H. unfold onTouchstart. destruct p as [x y]. cbn [fst snd].
  destruct H as [Hne|Hlate].
  - now rewrite (bool_decide_eq_false_2 _ Hne).
  - assert (Hz : (now - lastTapTime t <? 300)%Z = false) by (apply Z.ltb_ge; lia).
    now rewrite Hz, andb_false_r.
Qed.

Lemma onTouchstart_cycle (d : datum) (e : nat) (now : Z) (p : R * R)
      (t : tapState) (s : state) :
  lastTapElement t = Some e -> (now - lastTapTime t < 300)%Z ->
  onTouchstart d e now (Some p) t s = (TapState 0 None, cycleFilterType d s).
Proof.
  intros He Hq. unfold onTouchstart. destruct p as [x y].
  rewrite (bool_decide_eq_true_2 _ He).
  assert (Hz : (now - lastTapTime t <? 300)%Z = true) by (apply Z.ltb_lt; lia).
  now rewrite Hz.
Qed.

Lemma tap_of_insert (ts : tapStates) (pass : nat) (t : tapState) :
  tap_of (<[pass := t]> ts) pass = t.
Proof. unfold tap_of, tapStates in *. now rewrite lookup_insert_eq. Qed.

Lemma tap_of_insert_ne (ts : tapStates) (pass pass' : nat) (t : tapState) :
  pass <> pass' -> tap_of (<[pass := t]> ts) pass' = tap_of ts pass'.
Proof. intros H. unfold tap_of, tapStates in *. now rewrite lookup_insert_ne. Qed.

(** X20: double tap on a handle.  After a tap that started a drag, a
    second tap on the same handle less than 300 ms later cycles the
    filter type and starts no drag; the tap after that one, on any
    handle of the same render pass and however soon, starts a drag:
    three quick taps cycle the type once.  The handles of another
    render pass have a tap state of their own, which these taps leave
    alone: a handle of another pass tapped before them and again less
    than 300 ms after its own tap cycles, whatever was tapped in
    between. *)
Theorem double_tap (d : datum) (pass e : nat) (t0 t1 : Z) (p0 p1 : R * R)
        (ts : tapStates) (s : state) :
  lastTapElement (tap_of ts pass) <> Some e \/ (300 <= t0 - lastTapTime (tap_of ts pass))%Z ->
  (t1 - t0 < 300)%Z ->
  let r1 := touch_handle d pass e t0 (Some p0) ts s in
  let r2 := touch_handle d pass e t1 (Some p1) (fst r1) (snd r1) in
  snd r1 = fst (startDrag d (fst p0) (snd p0) s) /\
  snd r2 = cycleFilterType d (snd r1) /\
  (forall d' e' t2 p2,
     snd (touch_handle d' pass e' t2 (Some p2) (fst r2) (snd r2))
     = fst (startDrag d' (fst p2) (snd p2) (snd r2))) /\
  (forall pass', pass' <> pass -> tap_of (fst r2) pass' = tap_of ts pass') /\
  (forall d' pass' e' tB t2 p2,
     pass' <> pass -> tap_of ts pass' = TapState tB (Some e') -> (t2 - tB < 300)%Z ->
     snd (touch_handle d' pass' e' t2 (Some p2) (fst r2) (snd r2))
     = cycleFilterType d' (snd r2)).
Proof.
  intros Hfirst Hq. cbv zeta.
  assert (H1 : touch_handle d pass e t0 (Some p0) ts s
               = (<[pass := TapState t0 (Some e)]> ts,
                  fst (startDrag d (fst p0) (snd p0) s))).
  { unfold touch_handle. now rewrite (onTouchstart_drag d e t0 p0 _ s Hfirst). }
  rewrite H1. cbn [fst snd].
  set (s1 := fst (startDrag d (fst p0) (snd p0) s)).
  assert (H2 : touch_handle d pass e t1 (Some p1) (<[pass := TapState t0 (Some e)]> ts) s1
               = (<[pass := TapState 0 None]> (<[pass := TapState t0 (Some e)]> ts),
                  cycleFilterType d s1)).
  { unfold touch_handle. rewrite tap_of_insert.
    now rewrite (onTouchstart_cycle d e t1 p1 (TapState t0 (Some e)) s1 eq_refl Hq). }
  rewrite H2. cbn [fst snd].
  split; [reflexivity|]. split; [reflexivity|]. split; [|split].
  - intros d' e' t2 p2. unfold touch_handle. rewrite tap_of_insert.
    rewrite (onTouchstart_drag d' e' t2 p2 (TapState 0 None));
      [reflexivity|left; discriminate].
  - intros pass' Hne. rewrite !tap_of_insert_ne by congruence. reflexivity.
  - intros d' pass' e' tB t2 p2 Hne HB Hq2. unfold touch_handle.
    rewrite !tap_of_insert_ne by congruence. rewrite HB.
    now rewrite (onTouchstart_cycle d' e' t2 p2 (TapState tB (Some e')) _ eq_refl Hq2).
Qed.

Lemma double_tap_witness :
  let r1 := touch_handle (Datum false "PK" 500 0 1 0) 1 0 1100 (Some (990, 8))
                         {[ 0%nat := TapState 1000 (Some 7%nat) ]} pressing_state in
  let r2 := touch_handle (Datum false "PK" 500 0 1 0) 1 0 1200 (Some (990, 8))
                         (fst r1) (snd r1) in
  snd r2 = cycleFilterType (Datum false "PK" 500 0 1 0) (snd r1) /\
  snd (touch_handle (Datum false "PK" 700 0 1 1) 0 7 1250 (Some (400, 8)) (fst r2) (snd r2))
  = cycleFilterType (Datum false "PK" 700 0 1 1) (snd r2).
Proof.
  intros r1 r2.
  assert (Hfirst : lastTapElement (tap_of {[ 0%nat := TapState 1000 (Some 7%nat) ]} 1)
                   <> Some 0%nat \/
                   (300 <= 1100 - lastTapTime
                                    (tap_of {[ 0%nat := TapState 1000 (Some 7%nat) ]} 1))%Z)
    by (left; discriminate).
  destruct (double_tap (Datum false "PK" 500 0 1 0) 1 0 1100 1200 (990, 8) (990, 8)
                       {[ 0%nat := TapState 1000 (Some 7%nat) ]} pressing_state
                       Hfirst ltac:(lia))
    as (_ & Hcycle & _ & _ & Hother).
  split; [exact Hcycle|].
  apply (Hother (Datum false "PK" 700 0 1 1) 0%nat 7%nat 1000%Z 1250%Z (400, 8)).
  - discriminate.
  - reflexivity.
  - lia.
Defined.

(** ** Scroll lock *)

(** X21: locking and unlocking the page scroll.  Locking twice is
    locking once, so what is saved is the style from before the lock.
    Outside mobile landscape, unlocking gives back the body style and
    the vertical scroll offset from before the lock, wherever the window
    was scrolled in between, and leaves the horizontal offset at 0
    whatever it was: [window.scrollTo(0, scrollY)] restores one axis
    only.  In mobile landscape the body style is never touched and the
    window stays scrolled where it ended up. *)
Theorem lock_unlock_round_trip (p : Scroll.page) (dx dy : R) :
  Scroll.scrollLockStyle p = None ->
  Scroll.lockBodyScroll (Scroll.lockBodyScroll p) = Scroll.lockBodyScroll p /\
  (Scroll.isMobileLandscape p = false ->
   Scroll.unlockBodyScroll (Scroll.scrolled (Scroll.lockBodyScroll p) dx dy)
   = Scroll.scrolled p 0 (Scroll.scrollY p)) /\
  (Scroll.isMobileLandscape p = true ->
   Scroll.body_style (Scroll.lockBodyScroll p) = Scroll.body_style p /\
   Scroll.unlockBodyScroll (Scroll.scrolled (Scroll.lockBodyScroll p) dx dy)
   = Scroll.scrolled p dx dy).
Proof.
  intros Hn. unfold Scroll.lockBodyScroll at 2 3 4 5 6. rewrite Hn.
  destruct (Scroll.isMobileLandscape p) eqn:E.
  - repeat split; try discriminate; destruct p; simpl in *; subst; reflexivity.
  - repeat split; try discriminate; destruct p; simpl in *; subst; reflexivity.
Qed.

Lemma lock_unlock_round_trip_witness :
  let p := Scroll.Page 1280 800
             (Scroll.BodyStyle (Scroll.Css "") (Scroll.Css "") (Scroll.Css "")
                               (Scroll.Css "") (Scroll.Css "auto")) 35 240 None in
  Scroll.unlockBodyScroll (Scroll.scrolled (Scroll.lockBodyScroll p) 35 0)
  = Scroll.scrolled p 0 (Scroll.scrollY p).
Proof.
  cbv zeta.
  apply (proj1 (proj2 (lock_unlock_round_trip
                         (Scroll.Page 1280 800
                            (Scroll.BodyStyle (Scroll.Css "") (Scroll.Css "") (Scroll.Css "")
                                              (Scroll.Css "") (Scroll.Css "auto")) 35 240 None)
                         35 0 eq_refl))).
  unfold Scroll.isMobileLandscape. simpl.
  destruct (Rle_dec 800 500); [lra|reflexivity].
Defined.

Lemma existsb_has_class (names : list string) (target : list Scroll.element) :
  existsb (Scroll.has_class names) target = true <->
  exists e, In e target /\ Scroll.has_class names e = true.
Proof. apply List.existsb_exists. Qed.

(** X22: touches and the scroll lock.  A touch on the delete button
    of a handle, or on anything inside it, is never taken for a touch
    on the handle: the default is not prevented and the page is not
    locked, although the button lies inside the handle.  A touch that
    starts on a handle with the module enabled prevents the default and
    locks the page, and once the timer of its [touchend] has run the
    lock is released: outside mobile landscape the body style and the
    vertical offset are those from before the touch and the horizontal
    offset is 0; in mobile landscape the window stays where it was
    scrolled to. *)
Theorem touch_and_scroll_lock (enabled : bool) (target : list Scroll.element)
        (p : Scroll.page) (dx dy : R) :
  ((exists e, In e target /\
              Scroll.has_class ["delete-btn"; "delete-border"; "delete-x"] e = true) ->
   forall type, Scroll.preventScrollOnHandles enabled type target p = (p, false)) /\
  (enabled = true -> Scroll.isEQHandleTarget target = true ->
   Scroll.scrollLockStyle p = None ->
   snd (Scroll.preventScrollOnHandles enabled "touchstart" target p) = true /\
   Scroll.scrollLockStyle (fst (Scroll.preventScrollOnHandles enabled "touchstart" target p))
     <> None /\
   Scroll.touch enabled target dx dy p
   = if Scroll.isMobileLandscape p then Scroll.scrolled p dx dy
     else Scroll.scrolled p 0 (Scroll.scrollY p)).
Proof.
  split.
  - intros Hdel type. unfold Scroll.preventScrollOnHandles, Scroll.isEQHandleTarget.
    apply existsb_has_class in Hdel. unfold Scroll.isDeleteButtonTarget. rewrite Hdel.
    now destruct enabled.
  - intros -> Ht Hn. unfold Scroll.touch, Scroll.preventScrollOnHandles. rewrite Ht. simpl.
    unfold Scroll.lockBodyScroll. rewrite Hn.
    destruct (Scroll.isMobileLandscape p) eqn:E; simpl;
      (split; [reflexivity|split; [discriminate|]]);
      unfold Scroll.handleTouchEnd; simpl;
      destruct p; simpl in *; subst; reflexivity.
Qed.

Lemma touch_and_scroll_lock_witness :
  Scroll.touch true [Some ["outer"]; Some ["eq-handle"]; Some ["eq-handles"]] 35 0
    (Scroll.Page 1280 800
       (Scroll.BodyStyle (Scroll.Css "") (Scroll.Css "") (Scroll.Css "")
                         (Scroll.Css "") (Scroll.Css "auto")) 35 240 None)
  = Scroll.Page 1280 800
      (Scroll.BodyStyle (Scroll.Css "") (Scroll.Css "") (Scroll.Css "")
                        (Scroll.Css "") (Scroll.Css "auto")) 0 240 None.
Proof.
  rewrite (proj2 (proj2 (proj2 (touch_and_scroll_lock true
                  [Some ["outer"]; Some ["eq-handle"]; Some ["eq-handles"]]
                  (Scroll.Page 1280 800
                     (Scroll.BodyStyle (Scroll.Css "") (Scroll.Css "") (Scroll.Css "")
                                       (Scroll.Css "") (Scroll.Css "auto")) 35 240 None)
                  35 0) eq_refl eq_refl eq_refl))).
  unfold Scroll.isMobileLandscape. simpl.
  destruct (Rle_dec 800 500); [lra|reflexivity].
Defined.

(** ** Lifecycle: what [destroy] leaves behind *)

Lemma elem_of_addEventListener (k j : listener) (l : list listener) :
  j ∈ addEventListener k l <-> j = k \/ j ∈ l.
Proof.
  unfold addEventListener. destruct (decide (k ∈ l)) as [Hin|Hin].
  - split; [auto|]. intros [->|H]; assumption.
  - rewrite elem_of_app, list_elem_of_singleton. tauto.
Qed.

Lemma disable_fields (s : state) :
  initialized s = true ->
  docListeners (disable s)
  = removeEventListener ("touchend", handleTouchEnd, true) (docListeners s) /\
  closures (disable s) = closures s.
Proof.
  intros Hi. unfold disable. rewrite Hi.
  destruct s as [? ? ? ? ? ? [|] ? ? ? ? ? ? ? ? ? ? ? ? ?]; split; reflexivity.
Qed.

Lemma init_fields (s : state) :
  initialized s = false ->
  initialized (init s) = true /\
  closures (init s) = S (closures s) /\
  docListeners (init s)
  = addEventListener ("focus", onFocus (closures s), true)
      (addEventListener ("keyup", onKeyup (closures s), false)
         (addEventListener ("keydown", onKeydown (closures s), false) (docListeners s))).
Proof.
  intros Hi. unfold init. rewrite Hi. destruct s; repeat split; reflexivity.
Qed.

Lemma destroy_init_step (s : state) :
  initialized s = false ->
  let id := closures s in
  let s1 := destroy (init s) in
  initialized s1 = false /\ closures s1 = S id /\
  (forall k, k ∈ docListeners s1 <->
             k <> ("touchend", handleTouchEnd, true) /\
             (k = ("focus", onFocus id, true) \/ k = ("keyup", onKeyup id, false) \/
              k = ("keydown", onKeydown id, false) \/ k ∈ docListeners s)).
Proof.
  intros Hi. cbv zeta.
  destruct (init_fields s Hi) as (Hi1 & Hc1 & Hd1).
  destruct (disable_fields (init s) Hi1) as (Hd2 & Hc2).
  assert (Hdes : destroy (init s) = set_initialized (disable (init s)) false)
    by (unfold destroy; now rewrite Hi1).
  rewrite Hdes.
  replace (initialized (set_initialized _ false)) with false
    by (destruct (disable (init s)); reflexivity).
  replace (closures (set_initialized (disable (init s)) false))
    with (closures (disable (init s))) by (destruct (disable (init s)); reflexivity).
  replace (docListeners (set_initialized (disable (init s)) false))
    with (docListeners (disable (init s))) by (destruct (disable (init s)); reflexivity).
  rewrite Hc2, Hc1, Hd2, Hd1. repeat split; try tauto.
  - apply elem_of_removeEventListener in H. tauto.
  - apply elem_of_removeEventListener in H as [_ H].
    rewrite !elem_of_addEventListener in H. exact H.
  - intros [Hne H]. apply elem_of_removeEventListener. split; [exact Hne|].
    rewrite !elem_of_addEventListener. exact H.
Qed.

Lemma destroy_init_iter (s : state) (n : nat) :
  initialized s = false ->
  initialized (Nat.iter n (fun s => destroy (init s)) s) = false /\
  closures (Nat.iter n (fun s => destroy (init s)) s) = (closures s + n)%nat.
Proof.
  intros Hi. induction n as [|n [IH1 IH2]]; simpl; [split; [exact Hi|lia]|].
  destruct (destroy_init_step _ IH1) as (H1 & H2 & _). cbv zeta in *.
  rewrite H1, H2, IH2. split; [reflexivity|lia].
Qed.

(** X23: [destroy] does not undo [init].  The three document listeners
    [init] registers (keydown, keyup, focus) are functions made by that
    call, and [destroy] removes none of them: after [n] rounds of
    [init] and [destroy] the three listeners of every one of the [n]
    rounds are still registered on the document. *)
Theorem init_destroy_accumulates (s : state) (n i : nat) :
  initialized s = false -> (i < n)%nat ->
  let s' := Nat.iter n (fun s => destroy (init s)) s in
  ("keydown", onKeydown (closures s + i), false) ∈ docListeners s' /\
  ("keyup", onKeyup (closures s + i), false) ∈ docListeners s' /\
  ("focus", onFocus (closures s + i), true) ∈ docListeners s'.
Proof.
  intros Hi. cbv zeta. induction n as [|n IH]; intros Hlt; [lia|]. simpl.
  destruct (destroy_init_iter s n Hi) as (Hin & Hcn).
  destruct (destroy_init_step _ Hin) as (_ & _ & Hmem). cbv zeta in Hmem.
  rewrite !Hmem, Hcn.
  destruct (Nat.eq_dec i n) as [->|Hne].
  - repeat split; try discriminate; auto.
  - assert (Hlt' : (i < n)%nat) by lia.
    destruct (IH Hlt') as (H1 & H2 & H3).
    repeat split; try discriminate; auto.
Qed.

Lemma init_destroy_accumulates_witness :
  let s' := Nat.iter 2 (fun s => destroy (init s)) (loaded "" [] 1 no_rows) in
  ("keydown", onKeydown (closures (loaded "" [] 1 no_rows) + 0), false) ∈ docListeners s' /\
  ("keyup", onKeyup (closures (loaded "" [] 1 no_rows) + 0), false) ∈ docListeners s' /\
  ("focus", onFocus (closures (loaded "" [] 1 no_rows) + 0), true) ∈ docListeners s'.
Proof.
  apply (init_destroy_accumulates (loaded "" [] 1 no_rows) 2 0); [reflexivity|lia].
Defined.

(** ** Whisker drag: wider band, lower Q *)

Lemma round_real_le (x y : R) : x <= y -> JS.round_real x <= JS.round_real y.
Proof.
  intros H. unfold JS.round_real. apply IZR_le. apply Zfloor_le. lra.
Qed.

Lemma storeQR_le (p x y : R) : 0 < p -> x <= y -> storeQR p x <= storeQR p y.
Proof.
  intros Hp H. unfold storeQR. apply clampR_le.
  apply Rmult_le_compat_r; [left; now apply Rinv_0_lt_compat|].
  apply round_real_le. apply Rmult_le_compat_r; lra.
Qed.

(** The edge at [e > f0] is [f0 * exp a] for [a = ln (e / f0) > 0]. *)
Lemma edge_as_exp (f0 e : R) :
  0 < f0 -> f0 < e ->
  0 < ln (e / f0) /\ f0 * exp (ln (e / f0)) = e /\ f0 / exp (ln (e / f0)) = f0 * f0 / e.
Proof.
  intros Hf He.
  assert (Hr : 1 < e / f0).
  { apply (Rmult_lt_reg_r f0); [exact Hf|]. unfold Rdiv.
    rewrite Rmult_assoc, Rinv_l by lra. lra. }
  split; [rewrite <- ln_1; apply ln_increasing; lra|].
  rewrite exp_ln by lra. split; field; lra.
Qed.

(** X24: pulling an end ball of the whisker outwards never raises Q.
    For a centre [f0 > 0] and right edges [f0 < e1 <= e2], a drag
    event always yields a Q, the one for [e2] is not above the one for
    [e1], and the left ball at the mirrored position [f0 * f0 / e]
    yields the same Q as the right ball at [e]. *)
Theorem whisker_wider_lower_Q (f0 e1 e2 : R) :
  0 < f0 -> f0 < e1 -> e1 <= e2 ->
  exists q1 q2,
    qFromEdge right f0 e1 = Some q1 /\ qFromEdge right f0 e2 = Some q2 /\
    qFromEdge left f0 (f0 * f0 / e1) = Some q1 /\
    qFromEdge left f0 (f0 * f0 / e2) = Some q2 /\
    q2 <= q1.
Proof.
  intros Hf H1 H12.
  destruct (edge_as_exp f0 e1 Hf H1) as (Ha1 & Hr1 & Hl1).
  destruct (edge_as_exp f0 e2 Hf ltac:(lra)) as (Ha2 & Hr2 & Hl2).
  set (a1 := ln (e1 / f0)) in *. set (a2 := ln (e2 / f0)) in *.
  pose proof (qFromEdge_exp right f0 a1 Hf Ha1) as Q1r.
  pose proof (qFromEdge_exp right f0 a2 Hf Ha2) as Q2r.
  pose proof (qFromEdge_exp left f0 a1 Hf Ha1) as Q1l.
  pose proof (qFromEdge_exp left f0 a2 Hf Ha2) as Q2l.
  simpl in Q1r, Q2r, Q1l, Q2l. rewrite Hr1 in Q1r. rewrite Hr2 in Q2r.
  rewrite Hl1 in Q1l. rewrite Hl2 in Q2l.
  exists (storeQR 100 (1 / (2 * sinh a1))), (storeQR 100 (1 / (2 * sinh a2))).
  repeat split; try assumption.
  apply storeQR_le; [lra|].
  assert (Ha12 : a1 <= a2).
  { unfold a1, a2. destruct H12 as [Hlt| ->]; [|lra]. left. apply ln_increasing.
    - apply Rdiv_lt_0_compat; lra.
    - unfold Rdiv. apply Rmult_lt_compat_r; [now apply Rinv_0_lt_compat|exact Hlt]. }
  assert (Hs1 : 0 < sinh a1) by (rewrite <- sinh_0; now apply sinh_lt).
  assert (Hs12 : sinh a1 <= sinh a2)
    by (destruct Ha12 as [Hlt| ->]; [left; now apply sinh_lt|lra]).
  unfold Rdiv. rewrite !Rmult_1_l. apply Rinv_le_contravar; lra.
Qed.

Lemma whisker_wider_lower_Q_witness :
  exists q1 q2,
    qFromEdge right 1000 2000 = Some q1 /\ qFromEdge right 1000 4000 = Some q2 /\
    qFromEdge left 1000 (1000 * 1000 / 2000) = Some q1 /\
    qFromEdge left 1000 (1000 * 1000 / 4000) = Some q2 /\
    q2 <= q1.
Proof.
  apply (whisker_wider_lower_Q 1000 2000 4000); lra.
Defined.

(** ** Confidence intervals *)

Lemma sum_Fin (vs : list R) (a : R) :
  fold_left (fun acc val => JS.add acc val) (map Fin vs) (Fin a)
  = Fin (fold_left Rplus vs a).
Proof. revert a. induction vs as [|v vs IH]; intros a; [reflexivity|]. simpl. apply IH. Qed.

Lemma squares_Fin (vs : list R) (m a : R) :
  fold_left (fun acc val => JS.add acc (Confidence.square (JS.sub val (Fin m))))
            (map Fin vs) (Fin a)
  = Fin (fold_left (fun acc v => acc + (v - m) * (v - m)) vs a).
Proof. revert a. induction vs as [|v vs IH]; intros a; [reflexivity|]. simpl. apply IH. Qed.

Lemma sum_between (vs : list R) (lo hi a : R) :
  (forall v, In v vs -> lo <= v <= hi) ->
  a + lo * INR (length vs) <= fold_left Rplus vs a <= a + hi * INR (length vs).
Proof.
  revert a. induction vs as [|v vs IH]; intros a H; [simpl; lra|].
  change (fold_left Rplus (v :: vs) a) with (fold_left Rplus vs (a + v)).
  change (length (v :: vs)) with (S (length vs)). rewrite S_INR.
  assert (Hv : lo <= v <= hi) by (apply H; now left).
  assert (IH' := IH (a + v) (fun w Hw => H w (or_intror Hw))). nra.
Qed.

Lemma squares_zero (vs : list R) (m a : R) :
  0 <= a ->
  a <= fold_left (fun acc v => acc + (v - m) * (v - m)) vs a /\
  (fold_left (fun acc v => acc + (v - m) * (v - m)) vs a = 0 <->
   a = 0 /\ forall v, In v vs -> v = m).
Proof.
  revert a. induction vs as [|v vs IH]; intros a Ha; simpl.
  - split; [lra|]. split; [intros ->; split; [reflexivity|tauto]|tauto].
  - assert (Hsq : 0 <= (v - m) * (v - m)) by exact (Rle_0_sqr (v - m)).
    destruct (IH (a + (v - m) * (v - m)) ltac:(lra)) as [Hge Hiff].
    split; [lra|]. rewrite Hiff. split.
    + intros [H0 Hall]. assert (a = 0) by lra. assert ((v - m) * (v - m) = 0) by lra.
      split; [assumption|]. intros w [<-|Hw]; [|now apply Hall].
      assert (Hz : v - m = 0) by (apply Rsqr_0_uniq; assumption). lra.
    + intros [-> Hall]. split; [|intros w Hw; apply Hall; now right].
      rewrite (Hall v) by now left. lra.
Qed.

Lemma div_len (x : R) (A : Type) (l : list A) :
  l <> [] -> JS.div (Fin x) (Confidence.len l) = Fin (x / INR (length l)).
Proof.
  intros Hne. unfold Confidence.len, JS.div.
  assert (0 < INR (length l)) by (apply lt_0_INR; destruct l; [congruence|simpl; lia]).
  destruct (Req_dec_T (INR (length l)) 0); [lra|reflexivity].
Qed.

Lemma div_eq_0 (a b : R) : 0 < b -> a / b = 0 -> a = 0.
Proof.
  intros Hb H. replace a with (a / b * b) by (field; lra). rewrite H. ring.
Qed.

Lemma squares_le (vs : list R) (m a d : R) :
  (forall v, In v vs -> (v - m) * (v - m) <= d) ->
  fold_left (fun acc v => acc + (v - m) * (v - m)) vs a <= a + INR (length vs) * d.
Proof.
  revert a. induction vs as [|v vs IH]; intros a H; [simpl; lra|].
  change (length (v :: vs)) with (S (length vs)). rewrite S_INR. simpl fold_left.
  assert (Hv : (v - m) * (v - m) <= d) by (apply H; now left).
  assert (IH' := IH (a + (v - m) * (v - m)) (fun w Hw => H w (or_intror Hw))). lra.
Qed.

(** The interval of a non-empty list of real values. *)
Lemma interval_real (vs : list R) :
  vs <> [] ->
  exists m e : R,
    0 <= e /\
    Confidence.calculateMean (map Fin vs) = Fin m /\
    Confidence.calculateConfidenceIntervalForFrequency (map Fin vs)
    = Confidence.Interval (Fin (m - e)) (Fin (m + e)) /\
    (e = 0 <-> forall v, In v vs -> v = m) /\
    (forall lo hi, (forall v, In v vs -> lo <= v <= hi) -> lo <= m <= hi) /\
    (forall lo hi, (forall v, In v vs -> lo <= v <= hi) ->
                   e <= 1645/1000 * ((hi - lo) / sqrt (INR (length vs)))).
Proof.
  intros Hne.
  assert (Hne' : map Fin vs <> []) by (destruct vs; [congruence|discriminate]).
  assert (Hn : 0 < INR (length vs)) by (apply lt_0_INR; destruct vs; [congruence|simpl; lia]).
  set (n := INR (length vs)) in *.
  set (m := fold_left Rplus vs 0 / n).
  set (S2 := fold_left (fun acc v => acc + (v - m) * (v - m)) vs 0).
  destruct (squares_zero vs m 0 ltac:(lra)) as [HS2 HS0]. fold S2 in HS2, HS0.
  assert (Hmean : Confidence.calculateMean (map Fin vs) = Fin m).
  { unfold Confidence.calculateMean. rewrite sum_Fin, (div_len _ _ _ Hne'), length_map.
    reflexivity. }
  assert (Hvar : 0 <= S2 / n) by (apply Rmult_le_pos; [lra|left; now apply Rinv_0_lt_compat]).
  assert (Hsd : Confidence.calculateStandardDeviation (map Fin vs) (Fin m)
                = Fin (sqrt (S2 / n))).
  { unfold Confidence.calculateStandardDeviation.
    rewrite squares_Fin, (div_len _ _ _ Hne'), length_map. fold S2. fold n.
    unfold Confidence.sqrt. destruct (Rlt_dec (S2 / n) 0); [lra|reflexivity]. }
  assert (Hsn : 0 < sqrt n) by now apply sqrt_lt_R0.
  set (e := 1645/1000 * (sqrt (S2 / n) / sqrt n)).
  assert (Hsd0 : 0 <= sqrt (S2 / n)) by apply sqrt_pos.
  assert (He : 0 <= e).
  { unfold e. apply Rmult_le_pos; [lra|].
    apply Rmult_le_pos; [exact Hsd0|left; now apply Rinv_0_lt_compat]. }
  assert (Hmean_between : forall lo hi, (forall v, In v vs -> lo <= v <= hi) -> lo <= m <= hi).
  { intros lo hi Hb. pose proof (sum_between vs lo hi 0 Hb) as [H1 H2]. fold n in H1, H2.
    unfold m. split.
    + apply (Rmult_le_reg_r n); [exact Hn|]. unfold Rdiv.
      rewrite Rmult_assoc, Rinv_l, Rmult_1_r by lra. lra.
    + apply (Rmult_le_reg_r n); [exact Hn|]. unfold Rdiv.
      rewrite Rmult_assoc, Rinv_l, Rmult_1_r by lra. lra. }
  exists m, e. split; [exact He|]. split; [exact Hmean|]. split; [|split; [|split]].
  - unfold Confidence.calculateConfidenceIntervalForFrequency.
    rewrite Hmean, Hsd.
    assert (Hsqn : Confidence.sqrt (Confidence.len (map Fin vs)) = Fin (sqrt n)).
    { unfold Confidence.len. rewrite length_map. fold n.
      unfold Confidence.sqrt. destruct (Rlt_dec n 0); [lra|reflexivity]. }
    assert (Hdiv : JS.div (Fin (sqrt (S2 / n))) (Fin (sqrt n))
                   = Fin (sqrt (S2 / n) / sqrt n)).
    { unfold JS.div. destruct (Req_dec_T (sqrt n) 0); [lra|reflexivity]. }
    rewrite Hsqn, Hdiv. reflexivity.
  - split.
    + intros He0. apply HS0.
      assert (Hq : sqrt (S2 / n) / sqrt n = 0) by (unfold e in He0; lra).
      assert (Hs : sqrt (S2 / n) = 0) by (apply (div_eq_0 _ (sqrt n)); assumption).
      apply sqrt_eq_0 in Hs; [|exact Hvar].
      apply (div_eq_0 _ n); assumption.
    + intros Hall. assert (HS : S2 = 0) by (apply HS0; auto).
      unfold e. replace (S2 / n) with 0 by (rewrite HS; unfold Rdiv; ring).
      rewrite sqrt_0. unfold Rdiv. ring.
  - intros lo hi Hb. exact (Hmean_between lo hi Hb).
  - intros lo hi Hb. pose proof (Hmean_between lo hi Hb) as Hm.
    assert (Hd : forall v, In v vs -> (v - m) * (v - m) <= (hi - lo) * (hi - lo)).
    { intros v Hv. pose proof (Hb v Hv). nra. }
    pose proof (squares_le vs m 0 _ Hd) as Hsq. fold S2 in Hsq. fold n in Hsq.
    assert (Hvar_le : S2 / n <= (hi - lo) * (hi - lo)).
    { apply (Rmult_le_reg_r n); [exact Hn|]. unfold Rdiv.
      rewrite Rmult_assoc, Rinv_l, Rmult_1_r by lra. lra. }
    assert (Hsd_le : sqrt (S2 / n) <= hi - lo).
    { rewrite <- (sqrt_square (hi - lo)) by lra. now apply sqrt_le_1_alt. }
    unfold e. apply Rmult_le_compat_l; [lra|].
    apply Rmult_le_compat_r; [left; now apply Rinv_0_lt_compat|exact Hsd_le].
Qed.

Lemma column_Returned (rawChannels : list Confidence.measurement) (i : nat) (dBs : list num) :
  Confidence.column rawChannels i = Returned dBs ->
  exists vs, dBs = map Fin vs /\
             Forall2 (fun m v => exists f, m !! i = Some (f, v)) rawChannels vs.
Proof.
  revert dBs. induction rawChannels as [|m rest IH]; intros dBs H; simpl in H.
  - injection H as <-. exists []. split; [reflexivity|constructor].
  - destruct (m !! i) as [[f v]|] eqn:E; [|discriminate].
    destruct (Confidence.column rest i) as [|dBs']; [discriminate|].
    simpl in H. injection H as <-.
    destruct (IH dBs' eq_refl) as (vs & -> & HF).
    exists (v :: vs). split; [reflexivity|]. constructor; [now exists f|exact HF].
Qed.

Lemma column_Threw (rawChannels : list Confidence.measurement) (i : nat) :
  Confidence.column rawChannels i = Threw <->
  exists m, In m rawChannels /\ (length m <= i)%nat.
Proof.
  induction rawChannels as [|m rest IH]; simpl.
  - split; [discriminate|]. intros (m & [] & _).
  - destruct (m !! i) as [[f v]|] eqn:E.
    + apply lookup_lt_Some in E.
      destruct (Confidence.column rest i) as [|dBs'] eqn:Ec; simpl.
      * split; [intros _|reflexivity].
        destruct (proj1 IH eq_refl) as (m' & Hin & Hl). exists m'. auto.
      * split; [discriminate|]. intros (m' & [<-|Hin] & Hl); [lia|].
        assert (Hbad : Returned dBs' = Threw) by (apply IH; exists m'; auto).
        discriminate.
    + apply lookup_ge_None in E. split; [|reflexivity]. intros _. exists m. auto.
Qed.

Lemma bounds_loop_Returned (stat : list num -> num * num)
      (rawChannels : list Confidence.measurement) (first : Confidence.measurement)
      (i0 : nat) (ub lb : list (R * num)) :
  Confidence.bounds_loop stat rawChannels first i0 = Returned (ub, lb) ->
  length ub = length first /\ length lb = length first /\
  forall j f v, first !! j = Some (f, v) ->
    exists dBs, Confidence.column rawChannels (i0 + j) = Returned dBs /\
                ub !! j = Some (f, fst (stat dBs)) /\
                lb !! j = Some (f, snd (stat dBs)).
Proof.
  revert i0 ub lb. induction first as [|[f0 v0] first IH]; intros i0 ub lb H; simpl in H.
  - injection H as <- <-. repeat split. intros j f v Hj. discriminate.
  - destruct (Confidence.column rawChannels i0) as [|dBs] eqn:Ec; [discriminate|].
    simpl in H. destruct (stat dBs) as [up low] eqn:Es.
    destruct (Confidence.bounds_loop stat rawChannels first (S i0)) as [|[ub' lb']] eqn:El;
      [discriminate|].
    simpl in H. injection H as <- <-.
    destruct (IH (S i0) ub' lb' El) as (Hu & Hl & Hrest).
    simpl. repeat split; [now rewrite Hu|now rewrite Hl|].
    intros [|j] f v Hj; simpl in Hj.
    + injection Hj as <- <-. exists dBs. rewrite Nat.add_0_r, Es. auto.
    + destruct (Hrest j f v Hj) as (dBs' & Hc & H1 & H2).
      exists dBs'. replace (i0 + S j)%nat with (S i0 + j)%nat by lia. auto.
Qed.

Lemma bounds_loop_Threw (stat : list num -> num * num)
      (rawChannels : list Confidence.measurement) (first : Confidence.measurement)
      (i0 : nat) :
  Confidence.bounds_loop stat rawChannels first i0 = Threw <->
  exists j, (j < length first)%nat /\ Confidence.column rawChannels (i0 + j) = Threw.
Proof.
  revert i0. induction first as [|[f0 v0] first IH]; intros i0; simpl.
  - split; [discriminate|]. intros (j & Hj & _). lia.
  - destruct (Confidence.column rawChannels i0) as [|dBs] eqn:Ec; simpl.
    + split; [intros _|reflexivity]. exists 0%nat. rewrite Nat.add_0_r. split; [lia|exact Ec].
    + destruct (stat dBs) as [up low].
      destruct (Confidence.bounds_loop stat rawChannels first (S i0)) as [|[ub' lb']] eqn:El;
        simpl.
      * split; [intros _|reflexivity]. destruct (proj1 (IH (S i0)) El) as (j & Hj & Hc).
        exists (S j). replace (i0 + S j)%nat with (S i0 + j)%nat by lia. split; [lia|exact Hc].
      * split; [discriminate|]. intros ([|j] & Hj & Hc).
        -- rewrite Nat.add_0_r, Ec in Hc. discriminate.
        -- assert (Ht : Confidence.bounds_loop stat rawChannels first (S i0) = Threw).
           { apply IH. exists j. replace (S i0 + j)%nat with (i0 + S j)%nat by lia.
             split; [lia|exact Hc]. }
           rewrite El in Ht. discriminate.
Qed.

Lemma bounds_Threw (stat : list num -> num * num) (rawChannels : list Confidence.measurement) :
  Confidence.bounds stat rawChannels = Threw <->
  rawChannels = [] \/
  exists first m, rawChannels !! 0%nat = Some first /\ In m rawChannels /\
                  (length m < length first)%nat.
Proof.
  unfold Confidence.bounds. destruct rawChannels as [|first rest] eqn:E.
  - simpl. split; auto.
  - change ((first :: rest) !! 0%nat) with (Some first). rewrite <- E.
    rewrite bounds_loop_Threw. split.
    + intros (j & Hj & Hc). right. apply column_Threw in Hc as (m & Hin & Hl).
      exists first, m. repeat split; [exact Hin|]. simpl in Hl. lia.
    + intros [Hnil|(first' & m & Hf & Hin & Hl)]; [subst; discriminate|].
      injection Hf as <-. exists (length m). split; [exact Hl|].
      apply column_Threw. exists m. auto.
Qed.

Lemma min_Fin (vs : list R) (a : R) :
  fold_left JS.min (map Fin vs) (Fin a) = Fin (fold_left Rmin vs a).
Proof.
  revert a. induction vs as [|v vs IH]; intros a; [reflexivity|].
  assert (H : JS.min (Fin a) (Fin v) = Fin (Rmin a v)).
  { unfold JS.min, JS.lt, Rmin.
    destruct (Rlt_dec v a), (Rle_dec a v); try reflexivity; f_equal; lra. }
  cbn [fold_left map]. rewrite H. apply IH.
Qed.

Lemma max_Fin (vs : list R) (a : R) :
  fold_left JS.max (map Fin vs) (Fin a) = Fin (fold_left Rmax vs a).
Proof.
  revert a. induction vs as [|v vs IH]; intros a; [reflexivity|].
  assert (H : JS.max (Fin a) (Fin v) = Fin (Rmax a v)).
  { unfold JS.max, JS.lt, Rmax.
    destruct (Rlt_dec a v), (Rle_dec a v); try reflexivity; f_equal; lra. }
  cbn [fold_left map]. rewrite H. apply IH.
Qed.

Lemma fold_Rmin (vs : list R) (a : R) :
  In (fold_left Rmin vs a) (a :: vs) /\
  forall v, In v (a :: vs) -> fold_left Rmin vs a <= v.
Proof.
  revert a. induction vs as [|v vs IH]; intros a; simpl.
  - split; [now left|]. intros w [<-|[]]. lra.
  - destruct (IH (Rmin a v)) as [Hin Hle]. split.
    + destruct Hin as [Heq|Hin]; [|now right; right].
      rewrite <- Heq. unfold Rmin. destruct (Rle_dec a v); auto.
    + intros w Hw. assert (Hm : fold_left Rmin vs (Rmin a v) <= Rmin a v)
        by (apply Hle; now left).
      destruct Hw as [<-|[<-|Hw]].
      * pose proof (Rmin_l a v). lra.
      * pose proof (Rmin_r a v). lra.
      * apply Hle. now right.
Qed.

Lemma fold_Rmax (vs : list R) (a : R) :
  In (fold_left Rmax vs a) (a :: vs) /\
  forall v, In v (a :: vs) -> v <= fold_left Rmax vs a.
Proof.
  revert a. induction vs as [|v vs IH]; intros a; simpl.
  - split; [now left|]. intros w [<-|[]]. lra.
  - destruct (IH (Rmax a v)) as [Hin Hle]. split.
    + destruct Hin as [Heq|Hin]; [|now right; right].
      rewrite <- Heq. unfold Rmax. destruct (Rle_dec a v); auto.
    + intros w Hw. assert (Hm : Rmax a v <= fold_left Rmax vs (Rmax a v))
        by (apply Hle; now left).
      destruct Hw as [<-|[<-|Hw]].
      * pose proof (Rmax_l a v). lra.
      * pose proof (Rmax_r a v). lra.
      * apply Hle. now right.
Qed.

(** [Math.min] and [Math.max] of a non-empty list of real values. *)
Lemma min_max_real (vs : list R) :
  vs <> [] ->
  exists lo hi,
    Confidence.min_of (map Fin vs) = Fin lo /\ Confidence.max_of (map Fin vs) = Fin hi /\
    In lo vs /\ In hi vs /\ forall v, In v vs -> lo <= v <= hi.
Proof.
  destruct vs as [|v vs]; [congruence|]. intros _.
  unfold Confidence.min_of, Confidence.max_of.
  change (fold_left JS.min (map Fin (v :: vs)) (Inf true))
    with (fold_left JS.min (map Fin vs) (Fin v)).
  change (fold_left JS.max (map Fin (v :: vs)) (Inf false))
    with (fold_left JS.max (map Fin vs) (Fin v)).
  rewrite min_Fin, max_Fin.
  destruct (fold_Rmin vs v) as [H1 H2], (fold_Rmax vs v) as [H3 H4].
  exists (fold_left Rmin vs v), (fold_left Rmax vs v). repeat split; auto.
Qed.

Lemma column_values (rawChannels : list Confidence.measurement) (j : nat) (vs : list R) :
  Forall2 (fun m v => exists f, m !! j = Some (f, v)) rawChannels vs ->
  (forall m, In m rawChannels -> exists f v, m !! j = Some (f, v) /\ In v vs) /\
  (forall v, In v vs -> exists m f, In m rawChannels /\ m !! j = Some (f, v)) /\
  length vs = length rawChannels.
Proof.
  induction 1 as [|m v rest vs (f & Hm) HF (IH1 & IH2 & IH3)]; simpl.
  - repeat split; intros ? [].
  - repeat split.
    + intros m' [<-|Hin]; [exists f, v; auto|].
      destruct (IH1 m' Hin) as (f' & v' & H1 & H2). exists f', v'. auto.
    + intros v' [<-|Hin]; [exists m, f; auto|].
      destruct (IH2 v' Hin) as (m' & f' & H1 & H2). exists m', f'. auto.
    + now rewrite IH3.
Qed.

(** The bounds on interval and mean, with the slack [tol] that makes
    room for rounding. *)
Lemma interval_within (vs : list R) (lo hi tol : R) :
  vs <> [] -> (forall v, In v vs -> lo <= v <= hi) -> 0 <= tol ->
  exists m l u : R,
    Confidence.calculateMean (map Fin vs) = Fin m /\
    Confidence.calculateConfidenceIntervalForFrequency (map Fin vs)
    = Confidence.Interval (Fin l) (Fin u) /\
    l <= m <= u /\
    lo - tol <= m <= hi + tol /\
    lo - tol <= (l + u) / 2 <= hi + tol /\
    u - l <= 2 * (1645/1000 * ((hi - lo) / sqrt (INR (length vs)))) + tol.
Proof.
  intros Hne Hb Htol.
  destruct (interval_real vs Hne) as (m & e & He & Hmean & Hint & _ & Hmid & Hwidth).
  specialize (Hmid lo hi Hb). specialize (Hwidth lo hi Hb).
  exists m, (m - e), (m + e). repeat split; try assumption; lra.
Qed.

(** X25: the 90 % interval of a non-empty list of real values.  With
    all values within [lo, hi], the interval returned contains the mean
    returned; the mean and the centre of the interval lie within
    [lo, hi], and the interval is no wider than
    [2 * 1.645 * (hi - lo) / sqrt n], so that it shrinks to the common
    value when all values agree; the last three up to rounding, with a
    slack of [n * max(|lo|, |hi|) / 10^9].  (Binary64 leaves the mean of
    equal values off by a unit in the last place; the arithmetic of
    this model is exact.) *)
Theorem confidence_interval_centred (vs : list R) (lo hi : R) :
  vs <> [] -> (forall v, In v vs -> lo <= v <= hi) ->
  let tol := INR (length vs) * Rmax (Rabs lo) (Rabs hi) / 1000000000 in
  exists m l u : R,
    Confidence.calculateMean (map Fin vs) = Fin m /\
    Confidence.calculateConfidenceIntervalForFrequency (map Fin vs)
    = Confidence.Interval (Fin l) (Fin u) /\
    l <= m <= u /\
    lo - tol <= m <= hi + tol /\
    lo - tol <= (l + u) / 2 <= hi + tol /\
    u - l <= 2 * (1645/1000 * ((hi - lo) / sqrt (INR (length vs)))) + tol.
Proof.
  intros Hne Hb. cbv zeta. apply (interval_within vs lo hi); [exact Hne|exact Hb|].
  apply Rmult_le_pos; [|lra]. apply Rmult_le_pos; [apply pos_INR|].
  pose proof (Rabs_pos lo). pose proof (Rmax_l (Rabs lo) (Rabs hi)). lra.
Qed.

Lemma confidence_interval_centred_witness :
  let tol := INR (length [1; 3]) * Rmax (Rabs 1) (Rabs 3) / 1000000000 in
  exists m l u : R,
    Confidence.calculateMean (map Fin [1; 3]) = Fin m /\
    Confidence.calculateConfidenceIntervalForFrequency (map Fin [1; 3])
    = Confidence.Interval (Fin l) (Fin u) /\
    l <= m <= u /\
    1 - tol <= m <= 3 + tol /\
    1 - tol <= (l + u) / 2 <= 3 + tol /\
    u - l <= 2 * (1645/1000 * ((3 - 1) / sqrt (INR (length [1; 3])))) + tol.
Proof.
  apply (confidence_interval_centred [1; 3] 1 3).
  - discriminate.
  - intros v [<-|[<-|[]]]; lra.
Defined.

Lemma spread_rows (rawChannels : list Confidence.measurement)
        (first : Confidence.measurement) (ub lb : list (R * num)) :
  rawChannels !! 0%nat = Some first ->
  Confidence.calculateMinMaxSpread rawChannels = Returned (ub, lb) ->
  length ub = length first /\ length lb = length first /\
  forall j f v0, first !! j = Some (f, v0) ->
    exists lo hi,
      lb !! j = Some (f, Fin lo) /\ ub !! j = Some (f, Fin hi) /\
      (forall m, In m rawChannels -> exists g v, m !! j = Some (g, v) /\ lo <= v <= hi) /\
      (exists m g, In m rawChannels /\ m !! j = Some (g, lo)) /\
      (exists m g, In m rawChannels /\ m !! j = Some (g, hi)).
Proof.
  intros Hfirst H. unfold Confidence.calculateMinMaxSpread, Confidence.bounds in H.
  rewrite Hfirst in H.
  destruct (bounds_loop_Returned _ _ _ _ _ _ H) as (Hu & Hl & Hrows).
  split; [exact Hu|]. split; [exact Hl|].
  intros j f v0 Hj. destruct (Hrows j f v0 Hj) as (dBs & Hc & Hub & Hlb).
  simpl in Hc, Hub, Hlb.
  destruct (column_Returned _ _ _ Hc) as (vs & -> & HF).
  destruct (column_values _ _ _ HF) as (Hch & Hval & Hlen).
  assert (Hne : vs <> []).
  { destruct vs; [|discriminate]. destruct rawChannels; [discriminate|discriminate]. }
  destruct (min_max_real vs Hne) as (lo & hi & Hmin & Hmax & Hlo & Hhi & Hall).
  rewrite Hmin in Hlb. rewrite Hmax in Hub.
  exists lo, hi. repeat split; auto.
  intros m Hin. destruct (Hch m Hin) as (g & v & Hm & Hv). exists g, v. auto.
Qed.

Lemma bounds_Returned (stat : list num -> num * num)
      (rawChannels : list Confidence.measurement) (first : Confidence.measurement) :
  rawChannels !! 0%nat = Some first ->
  (forall m, In m rawChannels -> (length first <= length m)%nat) ->
  exists ub lb, Confidence.bounds stat rawChannels = Returned (ub, lb).
Proof.
  intros Hfirst Hlen.
  destruct (Confidence.bounds stat rawChannels) as [|[ub lb]] eqn:E; [|now exists ub, lb].
  apply bounds_Threw in E as [->|(first' & m & Hf & Hin & Hl)]; [discriminate|].
  pose proof (eq_trans (eq_sym Hf) Hfirst) as Heq. injection Heq as ->.
  specialize (Hlen m Hin). lia.
Qed.

(** X26: the measurement spread.  With every channel at least as long
    as the first one, [calculateMinMaxSpread] returns one lower and
    one upper bound per sample of the first channel, at that sample's
    frequency; every channel's level at that index lies between the
    two, and each bound is the level of some channel. *)
Theorem spread_brackets_channels (rawChannels : list Confidence.measurement)
        (first : Confidence.measurement) :
  rawChannels !! 0%nat = Some first ->
  (forall m, In m rawChannels -> (length first <= length m)%nat) ->
  exists ub lb,
    Confidence.calculateMinMaxSpread rawChannels = Returned (ub, lb) /\
    length ub = length first /\ length lb = length first /\
    forall j f v0, first !! j = Some (f, v0) ->
      exists lo hi,
        lb !! j = Some (f, Fin lo) /\ ub !! j = Some (f, Fin hi) /\
        (forall m, In m rawChannels -> exists g v, m !! j = Some (g, v) /\ lo <= v <= hi) /\
        (exists m g, In m rawChannels /\ m !! j = Some (g, lo)) /\
        (exists m g, In m rawChannels /\ m !! j = Some (g, hi)).
Proof.
  intros Hfirst Hlen.
  destruct (bounds_Returned (fun dBs => (Confidence.max_of dBs, Confidence.min_of dBs))
                            rawChannels first Hfirst Hlen) as (ub & lb & H).
  exists ub, lb. split; [exact H|].
  exact (spread_rows rawChannels first ub lb Hfirst H).
Qed.

Lemma spread_brackets_channels_witness :
  exists ub lb,
    Confidence.calculateMinMaxSpread [[(100, 1); (200, 5)]; [(100, 3); (200, 4); (300, 0)]]
    = Returned (ub, lb) /\
    length ub = length [(100, 1); (200, 5)] /\ length lb = length [(100, 1); (200, 5)] /\
    forall j f v0, [(100, 1); (200, 5)] !! j = Some (f, v0) ->
      exists lo hi,
        lb !! j = Some (f, Fin lo) /\ ub !! j = Some (f, Fin hi) /\
        (forall m, In m [[(100, 1); (200, 5)]; [(100, 3); (200, 4); (300, 0)]] ->
                   exists g v, m !! j = Some (g, v) /\ lo <= v <= hi) /\
        (exists m g, In m [[(100, 1); (200, 5)]; [(100, 3); (200, 4); (300, 0)]] /\
                     m !! j = Some (g, lo)) /\
        (exists m g, In m [[(100, 1); (200, 5)]; [(100, 3); (200, 4); (300, 0)]] /\
                     m !! j = Some (g, hi)).
Proof.
  apply (spread_brackets_channels [[(100, 1); (200, 5)]; [(100, 3); (200, 4); (300, 0)]]
                                  [(100, 1); (200, 5)]).
  - reflexivity.
  - intros m [<-|[<-|[]]]; simpl; lia.
Defined.

(** X27: when the two functions throw.  [calculateConfidenceIntervals]
    and [calculateMinMaxSpread] throw when there is no channel at all
    and when some channel has fewer samples than the first one, and
    only then; a channel with more samples than the first has the
    extra ones ignored. *)
Theorem bounds_throw (rawChannels : list Confidence.measurement) :
  (Confidence.calculateConfidenceIntervals rawChannels = Threw <->
   rawChannels = [] \/
   exists first m, rawChannels !! 0%nat = Some first /\ In m rawChannels /\
                   (length m < length first)%nat) /\
  (Confidence.calculateMinMaxSpread rawChannels = Threw <->
   Confidence.calculateConfidenceIntervals rawChannels = Threw).
Proof.
  unfold Confidence.calculateConfidenceIntervals, Confidence.calculateMinMaxSpread.
  split; [apply bounds_Threw|]. now rewrite !bounds_Threw.
Qed.

Lemma interval_rows (rawChannels : list Confidence.measurement)
        (first : Confidence.measurement) (ub lb : list (R * num)) :
  rawChannels !! 0%nat = Some first ->
  Confidence.calculateConfidenceIntervals rawChannels = Returned (ub, lb) ->
  exists ub' lb',
    Confidence.calculateMinMaxSpread rawChannels = Returned (ub', lb') /\
    forall j f v0, first !! j = Some (f, v0) ->
      exists l u lo hi,
        lb !! j = Some (f, Fin l) /\ ub !! j = Some (f, Fin u) /\
        lb' !! j = Some (f, Fin lo) /\ ub' !! j = Some (f, Fin hi) /\
        l <= u /\ lo <= (l + u) / 2 <= hi /\
        (lo = hi -> l = lo /\ u = hi).
Proof.
  intros Hfirst H.
  destruct (Confidence.calculateMinMaxSpread rawChannels) as [|[ub' lb']] eqn:Hs.
  { unfold Confidence.calculateMinMaxSpread in Hs. apply bounds_Threw in Hs.
    assert (Ht : Confidence.calculateConfidenceIntervals rawChannels = Threw)
      by (unfold Confidence.calculateConfidenceIntervals; apply bounds_Threw; exact Hs).
    rewrite H in Ht. discriminate. }
  exists ub', lb'. split; [reflexivity|].
  unfold Confidence.calculateConfidenceIntervals, Confidence.bounds in H.
  unfold Confidence.calculateMinMaxSpread, Confidence.bounds in Hs.
  rewrite Hfirst in H, Hs.
  destruct (bounds_loop_Returned _ _ _ _ _ _ H) as (_ & _ & Hrows).
  destruct (bounds_loop_Returned _ _ _ _ _ _ Hs) as (_ & _ & Hrows').
  intros j f v0 Hj.
  destruct (Hrows j f v0 Hj) as (dBs & Hc & Hub & Hlb).
  destruct (Hrows' j f v0 Hj) as (dBs' & Hc' & Hub' & Hlb').
  rewrite Hc in Hc'. injection Hc' as <-.
  cbn [fst snd] in Hub, Hlb, Hub', Hlb'.
  destruct (column_Returned _ _ _ Hc) as (vs & -> & HF).
  destruct (column_values _ _ _ HF) as (Hch & Hval & Hlen).
  assert (Hne : vs <> []).
  { destruct vs; [|discriminate]. destruct rawChannels; [discriminate|discriminate]. }
  destruct (min_max_real vs Hne) as (lo & hi & Hmin & Hmax & Hlo & Hhi & Hall).
  destruct (interval_real vs Hne) as (m & e & He & _ & Hint & Hzero & Hmid & _).
  rewrite Hint in Hub, Hlb. cbn [Confidence.upper Confidence.lower] in Hub, Hlb.
  rewrite Hmin in Hlb'. rewrite Hmax in Hub'.
  exists (m - e), (m + e), lo, hi.
  pose proof (Hmid lo hi Hall) as Hm.
  repeat split; auto; try lra.
  - assert (He0 : e = 0).
    { apply Hzero. intros v Hv. pose proof (Hall v Hv).
      pose proof (Hmid lo hi Hall). lra. }
    lra.
  - assert (He0 : e = 0).
    { apply Hzero. intros v Hv. pose proof (Hall v Hv).
      pose proof (Hmid lo hi Hall). lra. }
    lra.
Qed.

Lemma interval_rows_within (rawChannels : list Confidence.measurement)
      (first : Confidence.measurement) (ub lb : list (R * num)) :
  rawChannels !! 0%nat = Some first ->
  Confidence.calculateConfidenceIntervals rawChannels = Returned (ub, lb) ->
  exists ub' lb',
    Confidence.calculateMinMaxSpread rawChannels = Returned (ub', lb') /\
    forall j f v0, first !! j = Some (f, v0) ->
      exists l u lo hi,
        lb !! j = Some (f, Fin l) /\ ub !! j = Some (f, Fin u) /\
        lb' !! j = Some (f, Fin lo) /\ ub' !! j = Some (f, Fin hi) /\
        l <= u /\
        (forall tol, 0 <= tol ->
           lo - tol <= (l + u) / 2 <= hi + tol /\
           u - l <= 2 * (1645/1000 * ((hi - lo) / sqrt (INR (length rawChannels)))) + tol).
Proof.
  intros Hfirst H.
  destruct (Confidence.calculateMinMaxSpread rawChannels) as [|[ub' lb']] eqn:Hs.
  { unfold Confidence.calculateMinMaxSpread in Hs. apply bounds_Threw in Hs.
    assert (Ht : Confidence.calculateConfidenceIntervals rawChannels = Threw)
      by (unfold Confidence.calculateConfidenceIntervals; apply bounds_Threw; exact Hs).
    rewrite H in Ht. discriminate. }
  exists ub', lb'. split; [reflexivity|].
  unfold Confidence.calculateConfidenceIntervals, Confidence.bounds in H.
  unfold Confidence.calculateMinMaxSpread, Confidence.bounds in Hs.
  rewrite Hfirst in H, Hs.
  destruct (bounds_loop_Returned _ _ _ _ _ _ H) as (_ & _ & Hrows).
  destruct (bounds_loop_Returned _ _ _ _ _ _ Hs) as (_ & _ & Hrows').
  intros j f v0 Hj.
  destruct (Hrows j f v0 Hj) as (dBs & Hc & Hub & Hlb).
  destruct (Hrows' j f v0 Hj) as (dBs' & Hc' & Hub' & Hlb').
  rewrite Hc in Hc'. injection Hc' as <-.
  cbn [fst snd] in Hub, Hlb, Hub', Hlb'.
  destruct (column_Returned _ _ _ Hc) as (vs & -> & HF).
  destruct (column_values _ _ _ HF) as (Hch & Hval & Hlen).
  assert (Hne : vs <> []).
  { destruct vs; [|discriminate]. destruct rawChannels; [discriminate|discriminate]. }
  destruct (min_max_real vs Hne) as (lo & hi & Hmin & Hmax & Hlo & Hhi & Hall).
  destruct (interval_real vs Hne) as (m & e & He & _ & Hint & _ & Hmid & Hwidth).
  rewrite Hint in Hub, Hlb. cbn [Confidence.upper Confidence.lower] in Hub, Hlb.
  rewrite Hmin in Hlb'. rewrite Hmax in Hub'.
  specialize (Hmid lo hi Hall). specialize (Hwidth lo hi Hall). rewrite Hlen in Hwidth.
  exists (m - e), (m + e), lo, hi.
  repeat split; auto; lra.
Qed.

(** X28: the confidence interval against the spread.  With every
    channel at least as long as the first one, both functions return,
    and at every frequency the interval has its lower bound at or below
    its upper bound, its centre within the spread [lo, hi] of the
    channels there, and a width of at most
    [2 * 1.645 * (hi - lo) / sqrt n] for [n] channels, so that where
    all channels agree it shrinks to their level; the last two up to
    rounding, with a slack of [n * max(|lo|, |hi|) / 10^9].  (Binary64
    leaves the mean of equal levels off by a unit in the last place;
    the arithmetic of this model is exact.) *)
Theorem interval_centre_within_spread (rawChannels : list Confidence.measurement)
        (first : Confidence.measurement) :
  rawChannels !! 0%nat = Some first ->
  (forall m, In m rawChannels -> (length first <= length m)%nat) ->
  exists ub lb ub' lb',
    Confidence.calculateConfidenceIntervals rawChannels = Returned (ub, lb) /\
    Confidence.calculateMinMaxSpread rawChannels = Returned (ub', lb') /\
    forall j f v0, first !! j = Some (f, v0) ->
      exists l u lo hi,
        lb !! j = Some (f, Fin l) /\ ub !! j = Some (f, Fin u) /\
        lb' !! j = Some (f, Fin lo) /\ ub' !! j = Some (f, Fin hi) /\
        l <= u /\
        let tol := INR (length rawChannels) * Rmax (Rabs lo) (Rabs hi) / 1000000000 in
        lo - tol <= (l + u) / 2 <= hi + tol /\
        u - l <= 2 * (1645/1000 * ((hi - lo) / sqrt (INR (length rawChannels)))) + tol.
Proof.
  intros Hfirst Hlen.
  destruct (bounds_Returned
              (fun dBs =>
                 let confidenceInterval :=
                   Confidence.calculateConfidenceIntervalForFrequency dBs in
                 (Confidence.upper confidenceInterval, Confidence.lower confidenceInterval))
              rawChannels first Hfirst Hlen) as (ub & lb & H).
  destruct (interval_rows_within rawChannels first ub lb Hfirst H) as (ub' & lb' & Hs & Hrows).
  exists ub, lb, ub', lb'. split; [exact H|]. split; [exact Hs|].
  intros j f v0 Hj.
  destruct (Hrows j f v0 Hj) as (l & u & lo & hi & H1 & H2 & H3 & H4 & Hle & Htol).
  exists l, u, lo, hi. repeat split; try assumption; cbv zeta; apply Htol;
    (apply Rmult_le_pos; [|lra]; apply Rmult_le_pos; [apply pos_INR|];
     pose proof (Rabs_pos lo); pose proof (Rmax_l (Rabs lo) (Rabs hi)); lra).
Qed.

Lemma interval_centre_within_spread_witness :
  exists ub lb ub' lb',
    Confidence.calculateConfidenceIntervals
      [[(100, 1); (200, 5)]; [(100, 3); (200, 4); (300, 0)]] = Returned (ub, lb) /\
    Confidence.calculateMinMaxSpread
      [[(100, 1); (200, 5)]; [(100, 3); (200, 4); (300, 0)]] = Returned (ub', lb') /\
    forall j f v0, [(100, 1); (200, 5)] !! j = Some (f, v0) ->
      exists l u lo hi,
        lb !! j = Some (f, Fin l) /\ ub !! j = Some (f, Fin u) /\
        lb' !! j = Some (f, Fin lo) /\ ub' !! j = Some (f, Fin hi) /\
        l <= u /\
        let tol := INR (length [[(100, 1); (200, 5)]; [(100, 3); (200, 4); (300, 0)]])
                   * Rmax (Rabs lo) (Rabs hi) / 1000000000 in
        lo - tol <= (l + u) / 2 <= hi + tol /\
        u - l <= 2 * (1645/1000
                      * ((hi - lo)
                         / sqrt (INR (length [[(100, 1); (200, 5)];
                                              [(100, 3); (200, 4); (300, 0)]]))))
                 + tol.
Proof.
  apply (interval_centre_within_spread
           [[(100, 1); (200, 5)]; [(100, 3); (200, 4); (300, 0)]] [(100, 1); (200, 5)]).
  - reflexivity.
  - intros m [<-|[<-|[]]]; simpl; lia.
Defined.

(** ** Transition of the handles *)

Lemma handle_position_Threw (D : deps) (phoneObj : option phone) (d d' : datum) :
  handle_position D phoneObj d = Threw -> handle_position D phoneObj d' = Threw.
Proof.
  unfold handle_position.
  destruct (samplePhoneCurveAt D phoneObj (Fin (d_freq d))) as [|c] eqn:E; [|discriminate].
  intros _. apply samplePhoneCurveAt_throws in E.
  apply (samplePhoneCurveAt_throws D phoneObj (Fin (d_freq d'))) in E. now rewrite E.
Qed.

Lemma place_handles_transforms (D : deps) (phoneObj : option phone) (hs : list handle) :
  fst (place_handles D phoneObj hs) = map (transition_handle D phoneObj) hs.
Proof.
  induction hs as [|h hs IH]; [reflexivity|]. simpl. unfold transition_handle at 1.
  destruct (handle_position D phoneObj (h_datum h)) as [|p] eqn:E.
  - simpl. f_equal. clear IH. induction hs as [|h' hs IH]; [reflexivity|].
    simpl. unfold transition_handle at 1.
    rewrite (handle_position_Threw D phoneObj _ (h_datum h') E). now f_equal.
  - destruct (place_handles D phoneObj hs) as [rest ok]. simpl in *. now rewrite IH.
Qed.

(** X29: a transition ends where a render pass puts the handles.  With
    the rendered handles those of the current filters, the transforms
    [transitionEQHandles] leaves the handles with are the transforms
    [updateEQHandles] gives them. *)
Theorem transition_ends_at_update (D : deps) (duration : R) (s : state) :
  initialized s = true -> enabled s = true ->
  map h_datum (handles s) = handle_data (filters s) ->
  map h_transform (handles (transitionEQHandles D duration s))
  = map h_transform (handles (updateEQHandles D s)).
Proof.
  intros Hi He Hdata. rewrite (updateEQHandles_unfold D s Hi He). cbv zeta.
  unfold transitionEQHandles. rewrite He. simpl.
  set (ph := getEQPhoneObj D (selectValue s)).
  assert (Hnd : List.NoDup (map h_key (handles s))).
  { replace (map h_key (handles s)) with (map filterIndex (map h_datum (handles s)))
      by (rewrite List.map_map; reflexivity).
    rewrite Hdata, handle_data_keys. apply NoDup_keys_from. }
  rewrite <- Hdata, (join_self _ Hnd).
  replace (handles (set_handles s (map (transition_handle D ph) (handles s))))
    with (map (transition_handle D ph) (handles s)) by (destruct s; reflexivity).
  rewrite <- place_handles_transforms.
  match goal with |- _ = map h_transform (handles (set_handles s ?x)) =>
    replace (handles (set_handles s x)) with x by (destruct s; reflexivity)
  end.
  destruct (snd (place_handles D ph (handles s))); [|reflexivity].
  rewrite List.map_map. apply List.map_ext. intros []; reflexivity.
Qed.

Lemma transition_ends_at_update_witness :
  map h_transform (handles (transitionEQHandles (plain_deps [] []) 300 whisker_state))
  = map h_transform (handles (updateEQHandles (plain_deps [] []) whisker_state)).
Proof.
  apply (transition_ends_at_update (plain_deps [] []) 300 whisker_state).
  - reflexivity.
  - reflexivity.
  - unfold handle_data. simpl. unfold handle_datum, keeps_handle. simpl.
    unfold JS.truthy, JS.lt. rdec. reflexivity.
Defined.

(** ** One measurement *)

Lemma list_eq_lookup_pairs (first : Confidence.measurement) (l : list (R * num)) :
  length l = length first ->
  (forall j f v0, first !! j = Some (f, v0) -> l !! j = Some (f, Fin v0)) ->
  l = map (fun p => (fst p, Fin (snd p))) first.
Proof.
  revert l. induction first as [|[f v] first IH]; intros l Hlen H.
  - destruct l; [reflexivity|discriminate].
  - destruct l as [|x l]; [discriminate|]. simpl. f_equal.
    + specialize (H 0%nat f v eq_refl). simpl in H. now injection H.
    + apply IH; [simpl in Hlen; lia|]. intros j f' v' Hj. exact (H (S j) f' v' Hj).
Qed.

(** X30: one measurement.  For a single channel both the confidence
    interval and the spread are the channel itself: the upper and the
    lower bounds returned are its samples, level for level. *)
Theorem single_channel_bounds (m : Confidence.measurement) :
  let samples := map (fun p => (fst p, Fin (snd p))) m in
  Confidence.calculateConfidenceIntervals [m] = Returned (samples, samples) /\
  Confidence.calculateMinMaxSpread [m] = Returned (samples, samples).
Proof.
  cbv zeta.
  assert (Hlen : forall m', In m' [m] -> (length m <= length m')%nat)
    by (intros m' [<-|[]]; lia).
  destruct (bounds_Returned
              (fun dBs =>
                 let confidenceInterval :=
                   Confidence.calculateConfidenceIntervalForFrequency dBs in
                 (Confidence.upper confidenceInterval, Confidence.lower confidenceInterval))
              [m] m eq_refl Hlen) as (ub & lb & H).
  change (Confidence.calculateConfidenceIntervals [m] = Returned (ub, lb)) in H.
  destruct (interval_rows [m] m ub lb eq_refl H) as (ub' & lb' & Hs & Hrows).
  destruct (spread_rows [m] m ub' lb' eq_refl Hs) as (Hu' & Hl' & Hrows').
  assert (Hci : length ub = length m /\ length lb = length m).
  { unfold Confidence.calculateConfidenceIntervals, Confidence.bounds in H. simpl in H.
    destruct (bounds_loop_Returned _ _ _ _ _ _ H) as (Hu & Hl & _). auto. }
  destruct Hci as [Hu Hl].
  assert (Hat : forall j f v0, m !! j = Some (f, v0) ->
                  lb !! j = Some (f, Fin v0) /\ ub !! j = Some (f, Fin v0) /\
                  lb' !! j = Some (f, Fin v0) /\ ub' !! j = Some (f, Fin v0)).
  { intros j f v0 Hj.
    destruct (Hrows j f v0 Hj) as (l & u & lo & hi & H1 & H2 & H3 & H4 & _ & _ & Hcol).
    destruct (Hrows' j f v0 Hj)
      as (lo' & hi' & H3' & H4' & _ & (m1 & g1 & Hin1 & Hm1) & (m2 & g2 & Hin2 & Hm2)).
    rewrite H3 in H3'. injection H3' as <-. rewrite H4 in H4'. injection H4' as <-.
    destruct Hin1 as [<-|[]]. destruct Hin2 as [<-|[]].
    rewrite Hj in Hm1, Hm2. injection Hm1 as _ <-. injection Hm2 as _ <-.
    destruct (Hcol eq_refl) as [-> ->]. auto. }
  rewrite H, Hs. split; f_equal; f_equal; apply list_eq_lookup_pairs; try assumption;
    intros j f v0 Hj; destruct (Hat j f v0 Hj) as (? & ? & ? & ?); assumption.
Qed.
